(** * A shallow embedding of the folding validator core

    The development follows the three source files:
    - [folding/utils/ops.py]: [gro_hash] and [run_cmd_commands]
      (modules [Py], [MD5], [Re], [Ops], [Commands], [Structure]),
      [select_random_pdb_id] (module [Pool]) and [get_response_info]
      (module [Responses]);
    - [folding/validators/reward.py]: [get_energies] (module [Reward]);
    - [folding/validators/forward.py]: the [forward] loop (modules [Forward],
      [Search]) and [run_step] (module [Step]).

    Python values are modelled as the code uses them: [bytes] as lists of
    [Byte.byte], [str] as lists of Unicode code points, dictionaries as
    [gmap], floats as IEEE-754 binary64 values ([spec_float]), and raised
    exceptions as the left summand of a sum type. *)

From Stdlib Require Import ZArith Lia List Bool String.
From Stdlib.Strings Require Import Byte.
From Stdlib Require Import Floats.SpecFloat.
From stdpp Require Import base option list gmap strings pretty.

Local Open Scope Z_scope.

(** ** Python runtime values shared by the three files *)

Module Py.

(** A python [bytes] object. *)
Abbreviation bytes := (list byte).

(** A python [str]: the sequence of its Unicode code points. *)
Abbreviation str := (list Z).

(** A python float (C double). *)
Abbreviation float := spec_float.

(** The exceptions that the modelled code can see.  All of them derive from
    python's [Exception]: these are the errors a collaborator raises and an
    [except Exception] clause names. *)
Inductive exn : Type :=
| ValueError (what : string)
| UnicodeDecodeError
| UnicodeEncodeError
| IndexError
| KeyError (key : string)
| UnboundLocalError (var : string)
| ErrorParsingLine (line : str)
| Raised (what : string).

(** The outcome of evaluating a python expression. *)
Abbreviation result A := (exn + A)%type.

Definition Z_of_byte (b : byte) : Z := Z.of_N (Byte.to_N b).

Definition byte_of_Z (z : Z) : byte :=
  match Byte.of_N (Z.to_N z) with
  | Some b => b
  | None => x00
  end.

Definition bytes_of_string (s : string) : bytes := list_byte_of_string s.

(** [str] literal from an ASCII Rocq string. *)
Definition str_of_string (s : string) : str := map Z_of_byte (list_byte_of_string s).

(** *** [bytes.decode()] and [str.encode()]: strict UTF-8 *)

Definition is_cont (b : Z) : bool := (128 <=? b) && (b <=? 191).

Fixpoint decode_from (bs : list Z) : option str :=
  match bs with
  | [] => Some []
  | b0 :: r0 =>
    if b0 <? 128 then cons b0 <$> decode_from r0
    else if (194 <=? b0) && (b0 <=? 223) then
      match r0 with
      | b1 :: r1 =>
        if is_cont b1
        then cons ((b0 - 192) * 64 + (b1 - 128)) <$> decode_from r1
        else None
      | _ => None
      end
    else if (224 <=? b0) && (b0 <=? 239) then
      match r0 with
      | b1 :: b2 :: r2 =>
        if is_cont b1 && is_cont b2
           && negb ((b0 =? 224) && (b1 <? 160))
           && negb ((b0 =? 237) && (160 <=? b1))
        then cons ((b0 - 224) * 4096 + (b1 - 128) * 64 + (b2 - 128)) <$> decode_from r2
        else None
      | _ => None
      end
    else if (240 <=? b0) && (b0 <=? 244) then
      match r0 with
      | b1 :: b2 :: b3 :: r3 =>
        if is_cont b1 && is_cont b2 && is_cont b3
           && negb ((b0 =? 240) && (b1 <? 144))
           && negb ((b0 =? 244) && (144 <=? b1))
        then cons ((b0 - 240) * 262144 + (b1 - 128) * 4096
                   + (b2 - 128) * 64 + (b3 - 128)) <$> decode_from r3
        else None
      | _ => None
      end
    else None
  end.

(** [b.decode()]: [None] stands for [UnicodeDecodeError]. *)
Definition decode (b : bytes) : option str := decode_from (map Z_of_byte b).

Definition encode_char (c : Z) : option (list Z) :=
  if c <? 0 then None
  else if c <? 128 then Some [c]
  else if c <? 2048 then Some [192 + c / 64; 128 + c mod 64]
  else if c <? 65536 then
    if (55296 <=? c) && (c <=? 57343) then None
    else Some [224 + c / 4096; 128 + (c / 64) mod 64; 128 + c mod 64]
  else if c <? 1114112 then
    Some [240 + c / 262144; 128 + (c / 4096) mod 64; 128 + (c / 64) mod 64; 128 + c mod 64]
  else None.

Fixpoint encode_to (s : str) : option (list Z) :=
  match s with
  | [] => Some []
  | c :: s' =>
    match encode_char c, encode_to s' with
    | Some bs, Some r => Some (bs ++ r)
    | _, _ => None
    end
  end.

(** [s.encode()]: [None] stands for [UnicodeEncodeError] (lone surrogates). *)
Definition encode (s : str) : option bytes := map byte_of_Z <$> encode_to s.

(** A Unicode scalar value: a code point that is not a surrogate. *)
Definition scalar (c : Z) : Prop :=
  0 <= c < 55296 \/ 57344 <= c < 1114112.

(** *** Floats and dictionary values *)

(** [x - y] on two floats (binary64, round to nearest even). *)
Definition fsub (x y : float) : float := SFsub 53 1024 x y.

(** [x == 0] for a float [x]: true of both zeros, false of NaN. *)
Definition float_is_zero (x : float) : bool := SFeqb x (S754_zero false).

(** The values stored in the dictionaries of the modelled code. *)
Inductive pyval : Type :=
| PNone
| PBool (b : bool)
| PInt (z : Z)
| PFloat (f : float)
| PStr (s : str)
| PObject (repr : str).

(** *** Statements: a state and control-flow monad *)

(** How a block of statements ends. *)
Inductive outcome (A : Type) : Type :=
| Normal (a : A)
| Continue
| Break
| Raise (e : exn).
Arguments Normal {A} a.
Arguments Continue {A}.
Arguments Break {A}.
Arguments Raise {A} e.

(** A block of statements over the mutable state [S]. *)
Definition stmt (S A : Type) : Type := S -> S * outcome A.

Definition ret {S A} (a : A) : stmt S A := fun s => (s, Normal a).

Definition bind {S A B} (m : stmt S A) (k : A -> stmt S B) : stmt S B :=
  fun s =>
    match m s with
    | (s1, Normal a) => k a s1
    | (s1, Continue) => (s1, Continue)
    | (s1, Break) => (s1, Break)
    | (s1, Raise e) => (s1, Raise e)
    end.

Definition raise {S A} (e : exn) : stmt S A := fun s => (s, Raise e).
Definition continue {S A} : stmt S A := fun s => (s, Continue).
Definition break {S A} : stmt S A := fun s => (s, Break).
Definition get {S} : stmt S S := fun s => (s, Normal s).
Definition modify {S} (f : S -> S) : stmt S unit := fun s => (f s, Normal tt).

(** The value of an expression that may raise. *)
Definition lift {S A} (r : result A) : stmt S A :=
  match r with
  | inl e => raise e
  | inr a => ret a
  end.

(** [try: body / except Exception as E: handler] *)
Definition try_except {S A} (body : stmt S A) (handler : exn -> stmt S A) : stmt S A :=
  fun s =>
    match body s with
    | (s1, Raise e) => handler e s1
    | r => r
    end.

(** [try: body / finally: final]: the [finally] block always runs; when it
    ends by [break], [continue] or an exception of its own, that is how the
    statement ends, and otherwise the statement ends as [body] did. *)
Definition try_finally {S A} (body : stmt S A) (final : stmt S unit) : stmt S A :=
  fun s =>
    let '(s1, o) := body s in
    match final s1 with
    | (s2, Normal _) => (s2, o)
    | (s2, Continue) => (s2, Continue)
    | (s2, Break) => (s2, Break)
    | (s2, Raise e) => (s2, Raise e)
    end.

Declare Scope stmt_scope.
Delimit Scope stmt_scope with stmt.
Notation "x <- c ;; k" := (bind c (fun x => k))
  (at level 100, c at next level, k at level 200, right associativity) : stmt_scope.
Notation "c ;; k" := (bind c (fun _ => k))
  (at level 100, k at level 200, right associativity) : stmt_scope.

End Py.

(** ** [hashlib.md5] (RFC 1321) *)

Module MD5.
Import Py.

Definition w32 (x : Z) : Z := x mod 4294967296.

Definition rotl (x n : Z) : Z :=
  w32 (Z.lor (Z.shiftl x n) (Z.shiftr x (32 - n))).

Definition lnot32 (x : Z) : Z := Z.lxor x 4294967295.

Definition S_table : list Z :=
  [7; 12; 17; 22; 7; 12; 17; 22; 7; 12; 17; 22; 7; 12; 17; 22;
   5; 9; 14; 20; 5; 9; 14; 20; 5; 9; 14; 20; 5; 9; 14; 20;
   4; 11; 16; 23; 4; 11; 16; 23; 4; 11; 16; 23; 4; 11; 16; 23;
   6; 10; 15; 21; 6; 10; 15; 21; 6; 10; 15; 21; 6; 10; 15; 21].

Definition K_table : list Z :=
  [3614090360; 3905402710; 606105819; 3250441966; 4118548399; 1200080426;
   2821735955; 4249261313; 1770035416; 2336552879; 4294925233; 2304563134;
   1804603682; 4254626195; 2792965006; 1236535329; 4129170786; 3225465664;
   643717713; 3921069994; 3593408605; 38016083; 3634488961; 3889429448;
   568446438; 3275163606; 4107603335; 1163531501; 2850285829; 4243563512;
   1735328473; 2368359562; 4294588738; 2272392833; 1839030562; 4259657740;
   2763975236; 1272893353; 4139469664; 3200236656; 681279174; 3936430074;
   3572445317; 76029189; 3654602809; 3873151461; 530742520; 3299628645;
   4096336452; 1126891415; 2878612391; 4237533241; 1700485571; 2399980690;
   4293915773; 2240044497; 1873313359; 4264355552; 2734768916; 1309151649;
   4149444226; 3174756917; 718787259; 3951481745].

Definition nthZ (l : list Z) (i : nat) : Z := nth i l 0.

(** The message followed by 0x80, zeros up to 56 mod 64, and the bit length
    as a 64-bit little-endian integer. *)
Definition le_bytes (n : nat) (x : Z) : list Z :=
  map (fun i => (x / 2 ^ (8 * Z.of_nat i)) mod 256) (seq 0 n).

Definition pad (msg : list Z) : list Z :=
  let len := Z.of_nat (length msg) in
  let zeros := Z.to_nat ((55 - len) mod 64) in
  msg ++ [128] ++ repeat 0 zeros ++ le_bytes 8 ((8 * len) mod 2 ^ 64).

Fixpoint le_word (bs : list Z) : Z :=
  match bs with
  | [] => 0
  | b :: r => b + 256 * le_word r
  end.

Fixpoint words (n : nat) (bs : list Z) : list Z :=
  match n with
  | O => []
  | S n' => le_word (firstn 4 bs) :: words n' (skipn 4 bs)
  end.

Record state := State { sA : Z; sB : Z; sC : Z; sD : Z }.

Definition init : state :=
  State 1732584193 4023233417 2562383102 271733878.

Definition round (M : list Z) (st : state) (i : nat) : state :=
  let '(State a b c d) := st in
  let iz := Z.of_nat i in
  let '(f, g) :=
    if (i <? 16)%nat then (Z.lor (Z.land b c) (Z.land (lnot32 b) d), iz)
    else if (i <? 32)%nat then (Z.lor (Z.land d b) (Z.land (lnot32 d) c), (5 * iz + 1) mod 16)
    else if (i <? 48)%nat then (Z.lxor (Z.lxor b c) d, (3 * iz + 5) mod 16)
    else (Z.lxor c (Z.lor b (lnot32 d)), (7 * iz) mod 16) in
  let f' := w32 (f + a + nthZ K_table i + nthZ M (Z.to_nat g)) in
  State d (w32 (b + rotl f' (nthZ S_table i))) b c.

Definition chunk (st : state) (block : list Z) : state :=
  let M := words 16 block in
  let '(State a b c d) := fold_left (round M) (seq 0 64) st in
  State (w32 (sA st + a)) (w32 (sB st + b)) (w32 (sC st + c)) (w32 (sD st + d)).

Fixpoint chunks (n : nat) (st : state) (bs : list Z) : state :=
  match n with
  | O => st
  | S n' => chunks n' (chunk st (firstn 64 bs)) (skipn 64 bs)
  end.

(** [hashlib.md5(msg).digest()] *)
Definition digest (msg : bytes) : bytes :=
  let p := pad (map Z_of_byte msg) in
  let '(State a b c d) := chunks (length p / 64) init p in
  map byte_of_Z (le_bytes 4 a ++ le_bytes 4 b ++ le_bytes 4 c ++ le_bytes 4 d).

Definition hex_digit (n : Z) : Ascii.ascii :=
  Ascii.ascii_of_N (Z.to_N (if n <? 10 then 48 + n else 87 + n)).

Fixpoint hex (bs : list Z) : string :=
  match bs with
  | [] => EmptyString
  | b :: r => String (hex_digit (b / 16)) (String (hex_digit (b mod 16)) (hex r))
  end.

(** [hashlib.md5(msg).hexdigest()] *)
Definition hexdigest (msg : bytes) : string := hex (map Z_of_byte (digest msg)).

End MD5.

(** ** The [re] engine: greedy backtracking matching with capture groups *)

Module Re.
Import Py.

(** The Unicode character database behind [str.isspace], [str.isdecimal]
    and [str.isalnum]; python's [\s], [\d] and [\w] on a [str] pattern and
    [str.strip()] read these tables. *)
Record unicode_db := UnicodeDb {
  isspace : Z -> bool;
  isdecimal : Z -> bool;
  isalnum : Z -> bool
}.

Definition ascii_isspace (c : Z) : bool :=
  ((9 <=? c) && (c <=? 13)) || ((28 <=? c) && (c <=? 32)).
Definition ascii_isdecimal (c : Z) : bool := (48 <=? c) && (c <=? 57).
Definition ascii_isalnum (c : Z) : bool :=
  ascii_isdecimal c || ((65 <=? c) && (c <=? 90)) || ((97 <=? c) && (c <=? 122)).

(** The tables restricted to ASCII (every other code point is in no class). *)
Definition ascii_db : unicode_db :=
  UnicodeDb ascii_isspace ascii_isdecimal ascii_isalnum.

(** What the development relies on about the tables: their ASCII rows, that
    decimal digits are alphanumeric, and that no whitespace is. *)
Record db_ok (db : unicode_db) : Prop := DbOk {
  ok_space : forall c, 0 <= c < 128 -> isspace db c = ascii_isspace c;
  ok_decimal : forall c, 0 <= c < 128 -> isdecimal db c = ascii_isdecimal c;
  ok_alnum : forall c, 0 <= c < 128 -> isalnum db c = ascii_isalnum c;
  ok_decimal_alnum : forall c, isdecimal db c = true -> isalnum db c = true;
  ok_space_alnum : forall c, isspace db c = true -> isalnum db c = false
}.

(** A single-character pattern. *)
Inductive cls : Type :=
| CSpace            (* \s *)
| CDigit            (* \d *)
| CWord             (* \w *)
| CLit (c : Z).     (* a literal character *)

Inductive regex : Type :=
| RChar (k : cls)
| RCat (a b : regex)
| ROpt (a : regex)             (* a?  greedy *)
| RStar (a : regex)            (* a*  greedy *)
| RPlus (a : regex)            (* a+  greedy *)
| RGroup (n : nat) (a : regex). (* (a) capture group number n *)

Abbreviation captures := (gmap nat str).

(** A matcher takes the rest of the subject, the groups captured so far and
    the continuation that matches what follows; [None] asks the caller to
    backtrack. *)
Definition cont := str -> captures -> option captures.
Definition matcher := str -> captures -> cont -> option captures.

Section Engine.
Variable db : unicode_db.

Definition is_word (c : Z) : bool := isalnum db c || (c =? 95).

Definition in_cls (k : cls) (c : Z) : bool :=
  match k with
  | CSpace => isspace db c
  | CDigit => isdecimal db c
  | CWord => is_word c
  | CLit x => c =? x
  end.

(** Greedy repetition: try one more iteration first, fall back to the
    continuation. An iteration that consumes nothing is not repeated. *)
Fixpoint star_loop (m : matcher) (fuel : nat) (s : str) (c : captures) (k : cont)
  : option captures :=
  match fuel with
  | O => None
  | S fuel' =>
    match m s c (fun s1 c1 =>
                   if (length s1 <? length s)%nat
                   then star_loop m fuel' s1 c1 k else None) with
    | Some r => Some r
    | None => k s c
    end
  end.

Fixpoint rmatch (r : regex) (s : str) (c : captures) (k : cont) : option captures :=
  match r with
  | RChar cl =>
    match s with
    | x :: s' => if in_cls cl x then k s' c else None
    | [] => None
    end
  | RCat a b => rmatch a s c (fun s1 c1 => rmatch b s1 c1 k)
  | ROpt a =>
    match rmatch a s c k with
    | Some r => Some r
    | None => k s c
    end
  | RStar a => star_loop (rmatch a) (S (length s)) s c k
  | RPlus a =>
    rmatch a s c (fun s1 c1 => star_loop (rmatch a) (S (length s1)) s1 c1 k)
  | RGroup n a =>
    rmatch a s c (fun s1 c1 =>
                    k s1 (<[n := take (length s - length s1) s]> c1))
  end.

(** [re.compile(r).match(s)]: a match anchored at the start of [s]; the
    match object is represented by its groups. *)
Definition re_match (r : regex) (s : str) : option captures :=
  rmatch r s ∅ (fun _ c => Some c).

(** [str.strip()] *)
Fixpoint lstrip (s : str) : str :=
  match s with
  | c :: s' => if isspace db c then lstrip s' else s
  | [] => []
  end.
Definition rstrip (s : str) : str := reverse (lstrip (reverse s)).
Definition strip (s : str) : str := rstrip (lstrip s).


(** The declarative reading of a pattern: [parses r s c s' c'] when [r] can
    match the prefix of [s] that leaves [s'], turning the captured groups
    [c] into [c'].  The engine returns the first such parse in backtracking
    order. *)
Inductive parses : regex -> str -> captures -> str -> captures -> Prop :=
| P_char k x s c :
    in_cls k x = true -> parses (RChar k) (x :: s) c s c
| P_cat a b s c s1 c1 s2 c2 :
    parses a s c s1 c1 -> parses b s1 c1 s2 c2 -> parses (RCat a b) s c s2 c2
| P_opt_some a s c s1 c1 :
    parses a s c s1 c1 -> parses (ROpt a) s c s1 c1
| P_opt_none a s c :
    parses (ROpt a) s c s c
| P_star_nil a s c :
    parses (RStar a) s c s c
| P_star_cons a s c s1 c1 s2 c2 :
    parses a s c s1 c1 -> (length s1 < length s)%nat ->
    parses (RStar a) s1 c1 s2 c2 -> parses (RStar a) s c s2 c2
| P_plus a s c s1 c1 s2 c2 :
    parses a s c s1 c1 -> parses (RStar a) s1 c1 s2 c2 ->
    parses (RPlus a) s c s2 c2
| P_group n a s c s1 c1 :
    parses a s c s1 c1 ->
    parses (RGroup n a) s c s1 (<[n := take (length s - length s1) s]> c1).

(** Every character of [l] is in the class [k]. *)
Definition all_in (k : cls) (l : str) : Prop :=
  Forall (fun x => in_cls k x = true) l.

(** A non-empty run of characters of the class [k]. *)
Definition run (k : cls) (l : str) : Prop := all_in k l /\ l <> [].

(** [l] is empty or starts outside the class [k]. *)
Definition stops (k : cls) (l : str) : Prop :=
  match l with
  | [] => True
  | x :: _ => in_cls k x = false
  end.

End Engine.

(** Whether the pattern [r] contains the capture group [n]. *)
Fixpoint sets_group (n : nat) (r : regex) : bool :=
  match r with
  | RChar _ => false
  | RCat a b => sets_group n a || sets_group n b
  | ROpt a | RStar a | RPlus a => sets_group n a
  | RGroup m a => (n =? m)%nat || sets_group n a
  end.

End Re.

(** ** [folding/utils/ops.py] *)

Module Ops.
Import Py Re.

(** *** [gro_hash] *)

Definition sp : regex := RChar CSpace.
Definition dg : regex := RChar CDigit.
Definition wd : regex := RChar CWord.

(** The third group, [(\-?\d+\.\d+)]. *)
Definition coordinate : regex :=
  RCat (ROpt (RChar (CLit 45)))
       (RCat (RPlus dg) (RCat (RChar (CLit 46)) (RPlus dg))).

(** The first group, [(\d+\w+)]. *)
Definition residue_token : regex := RCat (RPlus dg) (RPlus wd).

(** The second group, [(\w+\d*\s*\d+)]. *)
Definition atom_token : regex :=
  RCat (RPlus wd) (RCat (RStar dg) (RCat (RStar sp) (RPlus dg))).

(** [re.compile(r"\s*(\d+\w+)\s+(\w+\d*\s*\d+)\s+(\-?\d+\.\d+)+")] *)
Definition pattern : regex :=
  RCat (RStar sp)
  (RCat (RGroup 1 residue_token)
  (RCat (RPlus sp)
  (RCat (RGroup 2 atom_token)
  (RCat (RPlus sp)
        (RPlus (RGroup 3 coordinate)))))).

(** [match.group(n)] of a group that took part in the match. *)
Definition group (m : captures) (n : nat) : str := default [] (m !! n).

(** [s.replace(" ", "")] *)
Definition remove_spaces (s : str) : str := filter (fun c => c ≠ 32) s.

(** [f.readlines()] on a file opened in binary mode: lines end at, and keep,
    the byte 0x0a. *)
Fixpoint readlines_from (cur : bytes) (f : bytes) : list bytes :=
  match f with
  | [] => match cur with [] => [] | _ => [reverse cur] end
  | b :: f' =>
    if Byte.eqb b x0a then reverse (b :: cur) :: readlines_from [] f'
    else readlines_from (b :: cur) f'
  end.

Definition readlines (f : bytes) : list bytes := readlines_from [] f.

Fixpoint unsnoc {A} (l : list A) : option (list A * A) :=
  match l with
  | [] => None
  | x :: l' =>
    match unsnoc l' with
    | None => Some ([], x)
    | Some (init, last) => Some (x :: init, last)
    end
  end.

(** [name, length, *lines, _ = ...]: [None] stands for the [ValueError]
    raised when fewer than three values are unpacked. *)
Definition unpack (ls : list bytes) : option (bytes * bytes * list bytes * bytes) :=
  match ls with
  | name :: length :: rest =>
    match unsnoc rest with
    | Some (lines, last) => Some (name, length, lines, last)
    | None => None
    end
  | _ => None
  end.

(** [int(b)] for a [bytes] argument: ASCII whitespace is stripped, one sign
    is allowed, digits may be separated by single underscores.  (The digit
    count limit of recent interpreters is not modelled.) *)
Definition bytes_isspace (b : Z) : bool := ((9 <=? b) && (b <=? 13)) || (b =? 32).

Fixpoint bytes_lstrip (s : list Z) : list Z :=
  match s with
  | b :: s' => if bytes_isspace b then bytes_lstrip s' else s
  | [] => []
  end.

Definition bytes_strip (s : list Z) : list Z :=
  reverse (bytes_lstrip (reverse (bytes_lstrip s))).

Inductive int_state : Type := IStart | IDigit | IUnderscore.

Fixpoint int_digits (st : int_state) (acc : Z) (bs : list Z) : option Z :=
  match bs with
  | [] => match st with IDigit => Some acc | _ => None end
  | b :: r =>
    if (48 <=? b) && (b <=? 57) then int_digits IDigit (10 * acc + (b - 48)) r
    else if b =? 95 then
      match st with IDigit => int_digits IUnderscore acc r | _ => None end
    else None
  end.

Definition int_of_bytes (b : bytes) : option Z :=
  let s := bytes_strip (map Z_of_byte b) in
  match s with
  | 43 :: r => int_digits IStart 0 r
  | 45 :: r => Z.opp <$> int_digits IStart 0 r
  | _ => int_digits IStart 0 s
  end.

Section GroHash.
Variable db : unicode_db.

(** One iteration of the loop over the atom lines: what the line adds to
    [buf], or the exception it raises. *)
Definition line_tokens (line : bytes) : result str :=
  match decode line with
  | None => inl UnicodeDecodeError
  | Some l =>
    let l := strip db l in
    match re_match db pattern l with
    | None => inl (ErrorParsingLine l)
    | Some m => inr (group m 1 ++ remove_spaces (group m 2))
    end
  end.

(** The loop [for line in lines: ... buf += ...]. *)
Fixpoint gro_buf (lines : list bytes) (buf : str) : result str :=
  match lines with
  | [] => inr buf
  | line :: rest =>
    match line_tokens line with
    | inl e => inl e
    | inr t => gro_buf rest (buf ++ t)
    end
  end.

(** [gro_hash], as a function of the content of the file at [gro_path]. *)
Definition gro_hash (file : bytes) : result string :=
  match unpack (readlines file) with
  | None => inl (ValueError "not enough values to unpack")
  | Some (name, length, lines, _) =>
    match int_of_bytes length with
    | None => inl (ValueError "invalid literal for int() with base 10")
    | Some _ =>
      match gro_buf lines [] with
      | inl e => inl e
      | inr buf =>
        match encode buf with
        | None => inl UnicodeEncodeError
        | Some b => inr (MD5.hexdigest (name ++ b))
        end
      end
    end
  end.


(** The part of an atom line that identifies the atom, with the blanks
    around its fields: leading blanks, residue number, residue name, blanks,
    atom name, optional blanks, atom number, blanks.  The coordinates
    follow. *)
Record atom_fields := AtomFields {
  lead : str;
  resnum : str;
  resname : str;
  sep1 : str;
  atomname : str;
  sep2 : str;
  atomnum : str;
  sep3 : str
}.

Definition wf_fields (f : atom_fields) : Prop :=
  all_in db CSpace (lead f) /\
  run db CDigit (resnum f) /\
  run db CWord (resname f) /\
  run db CSpace (sep1 f) /\
  run db CWord (atomname f) /\
  all_in db CSpace (sep2 f) /\
  run db CDigit (atomnum f) /\
  run db CSpace (sep3 f).

(** Text that begins with a coordinate value: an optional minus sign, an
    integer part, a dot and a fractional part. *)
Definition starts_with_coordinate (t : str) : Prop :=
  exists sg ip fp rest,
    t = sg ++ ip ++ [46] ++ fp ++ rest /\
    (sg = [] \/ sg = [45]) /\ run db CDigit ip /\ run db CDigit fp.

(** The decoded text of the atom line with the fields [f] and the
    coordinate columns [coords]. *)
Definition atom_line (f : atom_fields) (coords : str) : str :=
  lead f ++ resnum f ++ resname f ++ sep1 f ++ atomname f ++ sep2 f
         ++ atomnum f ++ sep3 f ++ coords.

(** What a well-formed atom line adds to the hashed buffer. *)
Definition identity_tokens (f : atom_fields) : str :=
  (resnum f ++ resname f) ++ remove_spaces (atomname f ++ sep2 f ++ atomnum f).

(** Two atom lines name the same atom of the same residue.  Blanks may
    differ; between the atom name and the atom number only what
    [replace(" ", "")] removes may. *)
Definition same_atom (f g : atom_fields) : Prop :=
  resnum f = resnum g /\ resname f = resname g /\
  atomname f = atomname g /\ atomnum f = atomnum g /\
  remove_spaces (sep2 f) = remove_spaces (sep2 g).

(** A raw line of the file that decodes to a well-formed atom line. *)
Definition wf_atom_line (f : atom_fields) (line : bytes) : Prop :=
  wf_fields f /\
  exists coords, decode line = Some (atom_line f coords) /\
                 starts_with_coordinate coords.


(** An atom line that decodes but that the pattern does not match. *)
Definition unmatched (line : bytes) : Prop :=
  exists l, decode line = Some l /\ re_match db pattern (strip db l) = None.

(** The atom lines [lines] are all accepted and add [toks] to the buffer. *)
Definition tokens_of (lines : list bytes) (toks : list str) : Prop :=
  Forall2 (fun line t => line_tokens line = inr t) lines toks.

End GroHash.

(** Files are written down as lists of text lines, each ended by a newline. *)
Definition line_of (l : string) : bytes := bytes_of_string l ++ [x0a].

Definition file_of_lines (ls : list string) : bytes := concat (map line_of ls).


(** *** [run_cmd_commands] *)

(** What [subprocess.run(cmd, check=True, shell=True, stdout=PIPE,
    stderr=PIPE)] does: the command exits with status 0 and the call
    returns, or it exits with another status and the call raises
    [CalledProcessError], or the call raises another exception without a
    command having run to its end ([ValueError] for a command that holds a
    NUL character, [OSError] when the shell cannot be started). *)
Inductive subprocess_result : Type :=
| Exited0 (stdout stderr : bytes)
| CalledProcessError (returncode : Z) (stdout stderr : bytes)
| Raises (e : exn).

(** The machine the commands run on: the outcome of a command, given the
    commands that ran before it, and the successive readings of
    [time.time()]. *)
Record shell := Shell {
  sh_run : list str -> str -> subprocess_result;
  sh_time : nat -> float
}.

(** What the function has done so far: the commands handed to the shell in
    order, the number of clock readings, and the logged messages. *)
Record shell_trace := ShellTrace {
  executed : list str;
  clock_reads : nat;
  logged : list str
}.

Definition log_msg (m : str) (t : shell_trace) : shell_trace :=
  ShellTrace (executed t) (clock_reads t) (logged t ++ [m]).

Definition read_clock (sh : shell) (t : shell_trace) : float * shell_trace :=
  (sh_time sh (clock_reads t), ShellTrace (executed t) (S (clock_reads t)) (logged t)).

Definition spawn (sh : shell) (cmd : str) (t : shell_trace)
  : subprocess_result * shell_trace :=
  (sh_run sh (executed t) cmd,
   ShellTrace (executed t ++ [cmd]) (clock_reads t) (logged t)).

(** The [errors] dictionary filled by the [except] clause. *)
Definition errors_of (cmd output : str) (returncode : Z) : gmap string pyval :=
  <["return_code" := PInt returncode]>
    (<["command_output" := PStr output]>
       (<["breaking_command" := PStr cmd]> ∅)).

(** The loop [for cmd in commands], with the [timings] built so far.  The
    result is what the function returns, or the exception that leaves it. *)
Fixpoint run_cmd_loop (sh : shell) (suppress_cmd_output : bool)
    (commands : list str) (timings : gmap str float) (t : shell_trace)
  : shell_trace * result (gmap str float * gmap string pyval) :=
  match commands with
  | [] => (t, inr (timings, ∅))
  | cmd :: rest =>
    let t := log_msg cmd t in
    let '(start_time, t) := read_clock sh t in
    let '(r, t) := spawn sh cmd t in
    match r with
    | Exited0 stdout _ =>
      let '(now, t) := read_clock sh t in
      let timings := <[cmd := fsub now start_time]> timings in
      if suppress_cmd_output then run_cmd_loop sh suppress_cmd_output rest timings t
      else
        match decode stdout with
        | None => (t, inl UnicodeDecodeError)
        | Some out => run_cmd_loop sh suppress_cmd_output rest timings (log_msg out t)
        end
    | CalledProcessError returncode stdout stderr =>
      let t := log_msg cmd t in
      let logged_stderr :=
        if suppress_cmd_output then Some t
        else (fun err => log_msg err t) <$> decode stderr in
      match logged_stderr with
      | None => (t, inl UnicodeDecodeError)
      | Some t =>
        match decode stdout with
        | None => (t, inl UnicodeDecodeError)
        | Some out => (t, inr (timings, errors_of cmd out returncode))
        end
      end
    | Raises e => (t, inl e)
    end
  end.

Definition run_cmd_commands (sh : shell) (commands : list str)
    (suppress_cmd_output : bool)
  : shell_trace * result (gmap str float * gmap string pyval) :=
  run_cmd_loop sh suppress_cmd_output commands ∅ (ShellTrace [] 0 []).

(** A command whose captured output is what [run_cmd_commands] can decode:
    the standard output of a failing command, and every output that is
    logged when the output is not suppressed. *)
Definition decodable (suppress_cmd_output : bool) (r : subprocess_result) : Prop :=
  match r with
  | Exited0 stdout _ => suppress_cmd_output = false -> is_Some (decode stdout)
  | CalledProcessError _ stdout stderr =>
    is_Some (decode stdout) /\
    (suppress_cmd_output = false -> is_Some (decode stderr))
  | Raises _ => True
  end.

(** The shell runs the commands [done] with exit status 0, one after the
    other, starting after the commands [before]. *)
Fixpoint all_succeed (sh : shell) (before done : list str) : Prop :=
  match done with
  | [] => True
  | cmd :: rest =>
    (exists out err, sh_run sh before cmd = Exited0 out err) /\
    all_succeed sh (before ++ [cmd]) rest
  end.

(** Every command of [cmds], run in order after [before], writes decodable
    output. *)
Fixpoint all_decodable (sh : shell) (suppress : bool) (before cmds : list str) : Prop :=
  match cmds with
  | [] => True
  | cmd :: rest =>
    decodable suppress (sh_run sh before cmd) /\
    all_decodable sh suppress (before ++ [cmd]) rest
  end.

(** The timings of the commands [cmds], all successful, the first of which
    starts at the clock reading number [k]: each command takes two
    readings. *)
Fixpoint timings_of (sh : shell) (k : nat) (cmds : list str)
    (timings : gmap str float) : gmap str float :=
  match cmds with
  | [] => timings
  | cmd :: rest =>
    timings_of sh (S (S k)) rest
      (<[cmd := fsub (sh_time sh (S k)) (sh_time sh k)]> timings)
  end.

(** A shell where [pdb2gmx] succeeds and [grompp] exits with status 2 after
    writing a message; the clock advances by one second per reading. *)
Definition sample_shell : shell :=
  Shell (fun _ cmd =>
           if bool_decide (cmd = str_of_string "grompp")
           then CalledProcessError 2 (bytes_of_string "no such file") []
           else Exited0 [] [])
        (fun n => S754_finite false (Pos.of_succ_nat n) 0).

(** A shell whose commands fail after writing a byte that is not UTF-8. *)
Definition binary_shell : shell :=
  Shell (fun _ _ => CalledProcessError 1 [xff] [])
        (fun _ => S754_zero false).

(** A shell where a command that holds a NUL character is not started:
    [subprocess.run] raises [ValueError]. *)
Definition strict_shell : shell :=
  Shell (fun _ cmd =>
           if bool_decide (0 ∈ cmd) then Raises (ValueError "embedded null byte")
           else Exited0 [] [])
        (fun n => S754_finite false (Pos.of_succ_nat n) 0).

(** *** Sample structure files *)

(** Two frames of one structure: the same atoms at different coordinates,
    with a different atom-count line and a different box line. *)
Definition frame_a : bytes := file_of_lines
  ["MD of 2 waters"; "    3";
   "    1LYS      N    1   1.234   5.678  -9.012";
   "    1LYS     H1    2   0.000   0.000   0.000";
   "10000SOL     OW10000   1.000   2.000   3.000";
   "   1.00000   1.00000   1.00000"]%string.

Definition frame_b : bytes := file_of_lines
  ["MD of 2 waters"; "   17";
   "    1LYS      N    1  -0.500   0.250   7.125";
   "    1LYS     H1    2   3.141   2.718   1.414";
   "10000SOL     OW10000  -1.000  -2.000  -3.000";
   "   9.00000   9.00000   9.00000"]%string.

Definition fields_of (ld rn rname s1 an s2 anum s3 : string) : atom_fields :=
  AtomFields (str_of_string ld) (str_of_string rn) (str_of_string rname)
             (str_of_string s1) (str_of_string an) (str_of_string s2)
             (str_of_string anum) (str_of_string s3).

Definition frame_a_fields : list atom_fields :=
  [ fields_of "    " "1" "LYS" "      " "N" "    " "1" "   ";
    fields_of "    " "1" "LYS" "     " "H1" "    " "2" "   ";
    fields_of "" "10000" "SOL" "     " "OW" "" "10000" "   " ]%string.

Definition frame_b_fields : list atom_fields :=
  [ fields_of "    " "1" "LYS" "      " "N" "    " "1" "  ";
    fields_of "    " "1" "LYS" "     " "H1" "    " "2" "   ";
    fields_of "" "10000" "SOL" "     " "OW" "" "10000" "  " ]%string.

(** Atom H1 number 2, and atom H number 12, of the same residue. *)
Definition atom_H1_2 : atom_fields :=
  fields_of "    " "1" "LYS" "     " "H1" "    " "2" "   ".

Definition atom_H_12 : atom_fields :=
  fields_of "    " "1" "LYS" "      " "H" "   " "12" "   ".

Definition file_H1_2 : bytes := file_of_lines
  ["one atom"; "    1";
   "    1LYS     H1    2   0.000   0.000   0.000";
   "   1.00000   1.00000   1.00000"]%string.

Definition file_H_12 : bytes := file_of_lines
  ["one atom"; "    1";
   "    1LYS      H   12   0.000   0.000   0.000";
   "   1.00000   1.00000   1.00000"]%string.

(** [frame_a] with another atom count and another box line. *)
Definition frame_a_recounted : bytes := file_of_lines
  ["MD of 2 waters"; "   99";
   "    1LYS      N    1   1.234   5.678  -9.012";
   "    1LYS     H1    2   0.000   0.000   0.000";
   "10000SOL     OW10000   1.000   2.000   3.000";
   "   0.00000   0.00000   0.00000"]%string.

(** A file whose second atom line has no atom number. *)
Definition file_bad_line : bytes := file_of_lines
  ["one good, one bad"; "    2";
   "    1LYS      N    1   1.234   5.678  -9.012";
   "    1LYS     CA        0.000   0.000   0.000";
   "   1.00000   1.00000   1.00000"]%string.

End Ops.

(** ** [folding/validators/reward.py] *)

Module Reward.
Import Py.
Local Open Scope stmt_scope.

(** What [get_energies] reads of a [FoldingSynapse] response. *)
Record response := Response {
  md_output : gmap str bytes;
  hotkey : str;
  status_code : option Z
}.

(** The [event] dictionary: its four lists. *)
Record event := Event {
  is_valid : list bool;
  checked_energy : list float;
  reported_energy : list float;
  rmsds : list float
}.

(** The number zero that fills the fresh arrays. *)
Definition zero : float := S754_zero false.

(** A [pandas.DataFrame] of samples: its rows, each a mapping from the
    column names to the values. *)
Abbreviation dataframe := (list (gmap string float)).

(** [df.iloc[-1][column]] *)
Definition iloc_last (df : dataframe) (column : string) : result float :=
  match last df with
  | Some row =>
    match row !! column with
    | Some x => inr x
    | None => inl (KeyError column)
    end
  | None => inl IndexError
  end.

(** [a[i] = x]: out of range raises. *)
Definition assign {A} (a : list A) (i : nat) (x : A) : result (list A) :=
  if (i <? length a)%nat then inr (<[i := x]> a) else inl IndexError.

Section GetEnergies.

(** The [Protein] the responses are processed against: its state, and the
    four methods that [get_energies] calls.  Each may change the state and
    may raise. *)
Variable protein : Type.
Variable process_md_output : protein -> gmap str bytes -> str -> protein * result bool.
Variable get_energy : protein -> str -> protein * result dataframe.
Variable get_rmsd : protein -> protein * result dataframe.
Variable is_run_valid : protein -> float -> str -> protein * result (bool * float).

(** The state of one call: the protein, the arrays being filled and the
    log. *)
Record state := State {
  prot : protein;
  energies : list float;
  ev : event;
  log : list str
}.

(** A method call on the protein. *)
Definition call {A} (f : protein -> protein * result A) : stmt state A :=
  fun s =>
    let '(p, r) := f (prot s) in
    lift r (State p (energies s) (ev s) (log s)).

Definition logger (level : string) (about : Z) : stmt state unit :=
  modify (fun s => State (prot s) (energies s) (ev s)
                         (log s ++ [str_of_string level])).

Definition set_energy (i : nat) (x : float) : stmt state unit :=
  s <- get ;;
  a <- lift (assign (energies s) i x) ;;
  modify (fun s => State (prot s) a (ev s) (log s)).

Definition set_is_valid (i : nat) (x : bool) : stmt state unit :=
  s <- get ;;
  a <- lift (assign (is_valid (ev s)) i x) ;;
  modify (fun s => State (prot s) (energies s)
    (Event a (checked_energy (ev s)) (reported_energy (ev s)) (rmsds (ev s))) (log s)).

Definition set_checked_energy (i : nat) (x : float) : stmt state unit :=
  s <- get ;;
  a <- lift (assign (checked_energy (ev s)) i x) ;;
  modify (fun s => State (prot s) (energies s)
    (Event (is_valid (ev s)) a (reported_energy (ev s)) (rmsds (ev s))) (log s)).

Definition set_reported_energy (i : nat) (x : float) : stmt state unit :=
  s <- get ;;
  a <- lift (assign (reported_energy (ev s)) i x) ;;
  modify (fun s => State (prot s) (energies s)
    (Event (is_valid (ev s)) (checked_energy (ev s)) a (rmsds (ev s))) (log s)).

Definition set_rmsd (i : nat) (x : float) : stmt state unit :=
  s <- get ;;
  a <- lift (assign (rmsds (ev s)) i x) ;;
  modify (fun s => State (prot s) (energies s)
    (Event (is_valid (ev s)) (checked_energy (ev s)) (reported_energy (ev s)) a) (log s)).

(** The body of the [try] for the worker at position [i]. *)
Definition try_body (i : nat) (uid : Z) (resp : response) : stmt state unit :=
  parsed <- call (fun p => process_md_output p (md_output resp) (hotkey resp)) ;;
  if negb parsed then continue else
  if negb (bool_decide (status_code resp = Some 200)) then
    logger "info" uid ;; continue
  else
  energy_df <- call (fun p => get_energy p (str_of_string "Potential")) ;;
  energy <- lift (iloc_last energy_df "energy") ;;
  rmsd_df <- call get_rmsd ;;
  rmsd <- lift (iloc_last rmsd_df "rmsd") ;;
  if float_is_zero energy then continue else
  r <- call (fun p => is_run_valid p energy (hotkey resp)) ;;
  let '(valid, checked) := r in
  set_energy i (if valid then energy else zero) ;;
  set_is_valid i valid ;;
  set_checked_energy i checked ;;
  set_reported_energy i energy ;;
  set_rmsd i rmsd.

(** One iteration: the [try] with its [except Exception] clause. *)
Definition iteration (i : nat) (uid : Z) (resp : response) : stmt state unit :=
  try_except (try_body i uid resp)
             (fun _ => logger "error" uid ;; continue).

(** [for i, (uid, resp) in enumerate(zip(uids, responses))], from position
    [i] on.  [continue] and the end of the body both go to the next
    worker; an exception leaves the loop. *)
Fixpoint loop (i : nat) (workers : list (Z * response)) : stmt state unit :=
  match workers with
  | [] => ret tt
  | (uid, resp) :: rest =>
    fun s =>
      match iteration i uid resp s with
      | (s1, Normal _) | (s1, Continue) => loop (S i) rest s1
      | (s1, Break) => (s1, Normal tt)
      | (s1, Raise e) => (s1, Raise e)
      end
  end.

Definition zip_workers (uids : list Z) (responses : list response)
  : list (Z * response) := zip uids responses.

Definition initial (p : protein) (n : nat) : state :=
  State p (replicate n zero)
        (Event (replicate n false) (replicate n zero)
               (replicate n zero) (replicate n zero))
        [].

(** [get_energies(protein, responses, uids)]: the state it leaves and what
    it returns, [(energies, event)], or the exception that leaves it. *)
Definition get_energies (p : protein) (responses : list response) (uids : list Z)
  : state * result (list float * event) :=
  match loop 0 (zip_workers uids responses) (initial p (length uids)) with
  | (s, Raise e) => (s, inl e)
  | (s, _) => (s, inr (energies s, ev s))
  end.

(** The state when the worker at position [i] is reached. *)
Definition state_before (p : protein) (responses : list response) (uids : list Z)
    (i : nat) : state :=
  fst (loop 0 (take i (zip_workers uids responses)) (initial p (length uids))).

(** The verdict on one response, as the validity gate is specified: the
    response must parse, carry status 200, have a last potential energy and
    a last RMSD sample, the energy must not be zero, and the validity check
    must return.  [None] when a step fails or raises; otherwise the energy,
    the RMSD, the validity flag and the checked energy. *)
Definition verdict (p : protein) (resp : response)
  : option (float * float * bool * float) :=
  match process_md_output p (md_output resp) (hotkey resp) with
  | (p1, inr true) =>
    if bool_decide (status_code resp = Some 200) then
      match get_energy p1 (str_of_string "Potential") with
      | (p2, inr energy_df) =>
        match iloc_last energy_df "energy" with
        | inr energy =>
          match get_rmsd p2 with
          | (p3, inr rmsd_df) =>
            match iloc_last rmsd_df "rmsd" with
            | inr rmsd =>
              if float_is_zero energy then None
              else
                match is_run_valid p3 energy (hotkey resp) with
                | (_, inr (valid, checked)) => Some (energy, rmsd, valid, checked)
                | _ => None
                end
            | inl _ => None
            end
          | _ => None
          end
        | inl _ => None
        end
      | _ => None
      end
    else None
  | _ => None
  end.

(** Every array has the length [n]. *)
Definition sized (n : nat) (s : state) : Prop :=
  length (energies s) = n /\ length (is_valid (ev s)) = n /\
  length (checked_energy (ev s)) = n /\ length (reported_energy (ev s)) = n /\
  length (rmsds (ev s)) = n.

(** The entries at position [j] of the energies vector and of the four
    lists of the event. *)
Definition row_of (a : list float) (e : event) (j : nat)
  : option float * option bool * option float * option float * option float :=
  (a !! j, is_valid e !! j, checked_energy e !! j, reported_energy e !! j,
   rmsds e !! j).

(** The entries a verdict leaves at a position that held [old]. *)
Definition row_after (v : option (float * float * bool * float))
    (old : option float * option bool * option float * option float * option float)
  : option float * option bool * option float * option float * option float :=
  match v with
  | None => old
  | Some (energy, rmsd, valid, checked) =>
    (Some (if valid then energy else zero), Some valid, Some checked,
     Some energy, Some rmsd)
  end.

(** The entries of a worker that is not trusted. *)
Definition invalid_row
  : option float * option bool * option float * option float * option float :=
  (Some zero, Some false, Some zero, Some zero, Some zero).

End GetEnergies.
(** *** A sample round

    Four workers answer.  A: status 200, energy -542.5, RMSD 1.25, valid.
    B: status 500.  C: status 200 and a last energy of -0.0.  D: an output
    that cannot be parsed (the parser raises).  The protein remembers the
    hotkey of the response it parsed last. *)

Definition minus_542_5 : float := S754_finite true 1085 (-1).
Definition plus_1_25 : float := S754_finite false 5 (-2).

Definition sample_process (p : str) (md : gmap str bytes) (hk : str)
  : str * result bool :=
  if bool_decide (hk = str_of_string "D") then (p, inl (Raised "corrupt xvg file"))
  else (hk, inr true).

Definition sample_energy (p : str) (data_type : str) : str * result dataframe :=
  if bool_decide (p = str_of_string "C")
  then (p, inr [ {["energy" := minus_542_5]}; {["energy" := S754_zero true]} ])
  else (p, inr [ {["energy" := plus_1_25]}; {["energy" := minus_542_5]} ]).

Definition sample_rmsd (p : str) : str * result dataframe :=
  (p, inr [ {["rmsd" := plus_1_25]} ]).

Definition sample_valid (p : str) (energy : float) (hk : str)
  : str * result (bool * float) :=
  (p, inr (true, energy)).

Definition sample_responses : list response :=
  [ Response ∅ (str_of_string "A") (Some 200);
    Response ∅ (str_of_string "B") (Some 500);
    Response ∅ (str_of_string "C") (Some 200);
    Response ∅ (str_of_string "D") (Some 200) ].

Definition sample_uids : list Z := [9; 10; 11; 12].

Definition sample_get_energies :=
  get_energies str sample_process sample_energy sample_rmsd sample_valid
               [] sample_responses sample_uids.

(** The same round with a validity check that rejects every run: the
    energy it computes itself is 1.25, whatever energy is reported. *)
Definition sample_reject (p : str) (energy : float) (hk : str)
  : str * result (bool * float) :=
  (p, inr (false, plus_1_25)).

Definition sample_rejected :=
  get_energies str sample_process sample_energy sample_rmsd sample_reject
               [] sample_responses sample_uids.

End Reward.

(** ** [folding/validators/forward.py] *)

Module Forward.
Import Py.
Local Open Scope stmt_scope.

(** The configuration the loop reads: the three top-level options that
    [parse_config] inspects and the four options under [config.protein].
    [None] is an option that is not set. *)
Record config := Config {
  cfg_ff : option pyval;
  cfg_water : option pyval;
  cfg_box : option pyval;
  protein_pdb_id : option str;
  protein_ff : option pyval;
  protein_water : option pyval;
  protein_box : option pyval
}.

(** The keyword arguments of a call [Protein(pdb_id=..., ff=..., water=...,
    box=..., config=...)]; [config] is always [self.config.protein]. *)
Record protein_args := ProteinArgs {
  arg_pdb_id : option str;
  arg_ff : pyval;
  arg_water : pyval;
  arg_box : pyval
}.

(** A [Protein] object: the attributes the loop reads. *)
Record protein := Protein {
  ff : pyval;
  water : pyval;
  box : pyval
}.

(** The collaborators of the loop.  A call is identified by the round (the
    iteration of [while True]) and, inside the [for] loop, by the
    iteration number; the clock by the number of earlier readings. *)
Record env := Env {
  time_time : nat -> float;
  select_random_pdb_id : nat -> str;
  total_combinations : nat -> list string -> result nat;
  sample_hyperparameters : nat -> nat -> result (gmap string pyval);
  new_protein : nat -> nat -> protein_args -> result protein;
  protein_forward : nat -> nat -> protein -> option exn;
  run_step : nat -> protein -> result (gmap string pyval)
}.

(** The local variables of [forward] that can be read before they are
    bound; [None] is an unbound variable. *)
Record locals := Locals {
  event : option (gmap string pyval);
  sampled_combination : option (gmap string pyval);
  the_protein : option protein;
  hps : option (gmap string pyval)
}.

(** What the loop has done: the clock readings, the events passed to
    [log_event], the arguments of the [Protein] calls and the proteins
    passed to [run_step], each list in order. *)
Record trace := Trace {
  clock : nat;
  logged_events : list (gmap string pyval);
  constructed : list protein_args;
  dispatched : list protein
}.

Record state := State { vars : locals; tr : trace }.

(** [parse_config] *)
Definition parse_config (c : config) : list string :=
  (match cfg_ff c with Some _ => ["FF"%string] | None => [] end)
  ++ (match cfg_water c with Some _ => ["WATER"%string] | None => [] end)
  ++ (match cfg_box c with Some _ => ["BOX"%string] | None => [] end).

(** [d[key]] *)
Definition getitem (d : gmap string pyval) (key : string) : result pyval :=
  match d !! key with
  | Some v => inr v
  | None => inl (KeyError key)
  end.

(** Reading a local variable. *)
Definition read_local {A} (name : string) (field : locals -> option A)
  : stmt state A :=
  fun s =>
    match field (vars s) with
    | Some v => (s, Normal v)
    | None => (s, Raise (UnboundLocalError name))
    end.

Definition set_event (e : gmap string pyval) : stmt state unit :=
  modify (fun s => State (Locals (Some e) (sampled_combination (vars s))
                                 (the_protein (vars s)) (hps (vars s))) (tr s)).

Definition set_sampled_combination (c : gmap string pyval) : stmt state unit :=
  modify (fun s => State (Locals (event (vars s)) (Some c)
                                 (the_protein (vars s)) (hps (vars s))) (tr s)).

Definition set_protein (p : protein) : stmt state unit :=
  modify (fun s => State (Locals (event (vars s)) (sampled_combination (vars s))
                                 (Some p) (hps (vars s))) (tr s)).

Definition set_hps (h : gmap string pyval) : stmt state unit :=
  modify (fun s => State (Locals (event (vars s)) (sampled_combination (vars s))
                                 (the_protein (vars s)) (Some h)) (tr s)).

(** [event[key] = v] *)
Definition event_setitem (key : string) (v : pyval) : stmt state unit :=
  e <- read_local "event" event ;; set_event (<[key := v]> e).

(** [event.update(d)] *)
Definition event_update (d : gmap string pyval) : stmt state unit :=
  e <- read_local "event" event ;; set_event (d ∪ e).

Section Loop.
Variable world : env.
Variable cfg : config.

(** [time.time()] *)
Definition now : stmt state float :=
  fun s =>
    (State (vars s) (Trace (S (clock (tr s))) (logged_events (tr s))
                           (constructed (tr s)) (dispatched (tr s))),
     Normal (time_time world (clock (tr s)))).

(** [log_event(self, event)] *)
Definition log_event (e : gmap string pyval) : stmt state unit :=
  modify (fun s => State (vars s)
    (Trace (clock (tr s)) (logged_events (tr s) ++ [e])
           (constructed (tr s)) (dispatched (tr s)))).

(** [Protein(...)] *)
Definition construct (r j : nat) (a : protein_args) : stmt state protein :=
  modify (fun s => State (vars s)
    (Trace (clock (tr s)) (logged_events (tr s))
           (constructed (tr s) ++ [a]) (dispatched (tr s)))) ;;
  lift (new_protein world r j a).

(** [await run_step(self, protein=protein, ...)] *)
Definition dispatch (r : nat) (p : protein) : stmt state (gmap string pyval) :=
  modify (fun s => State (vars s)
    (Trace (clock (tr s)) (logged_events (tr s))
           (constructed (tr s)) (dispatched (tr s) ++ [p]))) ;;
  lift (run_step world r p).

(** [x if x is not None else sampled_combination[key]] *)
Definition pinned_or_sampled (pinned : option pyval)
    (sampled : gmap string pyval) (key : string) : stmt state pyval :=
  match pinned with
  | Some v => ret v
  | None => lift (getitem sampled key)
  end.

(** The structure id of a round. *)
Definition choose_pdb_id (r : nat) : str :=
  match protein_pdb_id cfg with
  | None => select_random_pdb_id world r
  | Some id => id
  end.

(** The [try] block of one hyperparameter attempt. *)
Definition attempt_try (r j : nat) : stmt state unit :=
  sampled <- lift (sample_hyperparameters world r j) ;;
  set_sampled_combination sampled ;;
  a_ff <- pinned_or_sampled (protein_ff cfg) sampled "FF" ;;
  a_water <- pinned_or_sampled (protein_water cfg) sampled "WATER" ;;
  a_box <- pinned_or_sampled (protein_box cfg) sampled "BOX" ;;
  p <- construct r j (ProteinArgs (protein_pdb_id cfg) a_ff a_water a_box) ;;
  set_protein p ;;
  box_distance <- lift (getitem sampled "BOX_DISTANCE") ;;
  set_hps (<["BOX_DISTANCE" := box_distance]>
             (<["BOX" := box p]> (<["WATER" := water p]> (<["FF" := ff p]> ∅)))) ;;
  match protein_forward world r j p with
  | Some e => raise e
  | None => ret tt
  end.

(** The [except Exception] clause: the message it logs reads
    [sampled_combination]. *)
Definition attempt_except (E : exn) : stmt state unit :=
  _ <- read_local "sampled_combination" sampled_combination ;;
  event_setitem "validator_search_status" (PBool false).

(** The [finally] clause. *)
Definition attempt_finally (pdb_id : str) (hp_sampler_time forward_start_time : float)
  : stmt state unit :=
  event_setitem "pdb_id" (PStr pdb_id) ;;
  h <- read_local "hps" hps ;;
  event_update h ;;
  t1 <- now ;;
  event_setitem "hp_sample_time" (PFloat (fsub t1 hp_sampler_time)) ;;
  t2 <- now ;;
  event_setitem "forward_time" (PFloat (fsub t2 forward_start_time)) ;;
  e <- read_local "event" event ;;
  match e !! "validator_search_status"%string with
  | None =>
    event_setitem "validator_search_status" (PBool true) ;; break
  | Some _ => log_event e
  end.

(** The body of the [for] loop. *)
Definition attempt (r j : nat) (pdb_id : str) (forward_start_time : float)
  : stmt state unit :=
  hp_sampler_time <- now ;;
  set_event ∅ ;;
  try_finally (try_except (attempt_try r j) attempt_except)
              (attempt_finally pdb_id hp_sampler_time forward_start_time).

(** [for iteration_num in range(n)], from iteration [j] on. *)
Fixpoint for_loop (r j n : nat) (pdb_id : str) (forward_start_time : float)
  : stmt state unit :=
  match n with
  | O => ret tt
  | S n' =>
    fun s =>
      match attempt r j pdb_id forward_start_time s with
      | (s1, Normal _) | (s1, Continue) =>
        for_loop r (S j) n' pdb_id forward_start_time s1
      | (s1, Break) => (s1, Normal tt)
      | (s1, Raise e) => (s1, Raise e)
      end
  end.

(** The body of [while True]: the round [r]. *)
Definition round (r : nat) : stmt state unit :=
  forward_start_time <- now ;;
  let exclude_in_hp_search := parse_config cfg in
  let pdb_id := choose_pdb_id r in
  total <- lift (total_combinations world r exclude_in_hp_search) ;;
  for_loop r 0 total pdb_id forward_start_time ;;
  e <- read_local "event" event ;;
  status <- lift (getitem e "validator_search_status") ;;
  match status with
  | PBool false => continue
  | _ =>
    p <- read_local "protein" the_protein ;;
    miner_event <- dispatch r p ;;
    event_update miner_event ;;
    t <- now ;;
    event_setitem "forward_time" (PFloat (fsub t forward_start_time)) ;;
    e <- read_local "event" event ;;
    log_event e
  end.

(** [while True], for [fuel] rounds starting with the round [r]: the loop
    itself never ends; it is left only by an exception. *)
Fixpoint forward (fuel r : nat) : stmt state unit :=
  match fuel with
  | O => ret tt
  | S fuel' =>
    fun s =>
      match round r s with
      | (s1, Normal _) | (s1, Continue) => forward fuel' (S r) s1
      | (s1, Break) => (s1, Normal tt)
      | (s1, Raise e) => (s1, Raise e)
      end
  end.

(** The arguments of the [Protein] call of an attempt that sampled
    [sampled]. *)
Definition args_of (sampled : gmap string pyval) : result protein_args :=
  match protein_ff cfg, sampled !! "FF"%string,
        protein_water cfg, sampled !! "WATER"%string,
        protein_box cfg, sampled !! "BOX"%string with
  | None, None, _, _, _, _ => inl (KeyError "FF")
  | _, _, None, None, _, _ => inl (KeyError "WATER")
  | _, _, _, _, None, None => inl (KeyError "BOX")
  | f, sf, w, sw, b, sb =>
    inr (ProteinArgs (protein_pdb_id cfg)
           (default (default PNone sf) f)
           (default (default PNone sw) w)
           (default (default PNone sb) b))
  end.

(** The attempt [j] of the round [r] fails in preparation: the
    hyperparameters are sampled, the [Protein] is built and its
    [forward()] raises. *)
Definition fails_preparation (r j : nat) : Prop :=
  exists sampled a p e,
    sample_hyperparameters world r j = inr sampled /\
    args_of sampled = inr a /\
    new_protein world r j a = inr p /\
    is_Some (sampled !! "BOX_DISTANCE"%string) /\
    protein_forward world r j p = Some e.

End Loop.

(** The block [m] only adds [Protein] calls whose arguments satisfy [P]. *)
Definition calls_only (P : protein_args -> Prop) {A} (m : stmt state A) : Prop :=
  forall s, exists l,
    constructed (tr (fst (m s))) = constructed (tr s) ++ l /\ Forall P l.

(** The state in which [forward] starts: no local is bound, nothing has
    been done. *)
Definition start : state :=
  State (Locals None None None None) (Trace 0 [] [] []).

(** *** Sample worlds *)

Definition seconds (n : nat) : float := S754_finite false (Pos.of_succ_nat n) 0.

(** The combination number [j]: the force field changes with [j]. *)
Definition sample_combination (j : nat) : gmap string pyval :=
  <["BOX_DISTANCE" := PFloat (seconds 0)]>
    (<["BOX" := PStr (str_of_string "cubic")]>
       (<["WATER" := PStr (str_of_string "tip3p")]>
          (<["FF" := PStr (if (j =? 0)%nat then str_of_string "amber03"
                           else str_of_string "charmm27")]> ∅))).

Definition built (a : protein_args) : protein :=
  Protein (arg_ff a) (arg_water a) (arg_box a).

(** Nothing is pinned. *)
Definition unpinned : config := Config None None None None None None None.

(** A world where everything works: the pool yields the structure 1abc,
    two combinations exist and the first one can be prepared. *)
Definition calm_world : env :=
  Env seconds
      (fun _ => str_of_string "1abc")
      (fun _ _ => inr 2%nat)
      (fun _ j => inr (sample_combination j))
      (fun _ _ a => inr (built a))
      (fun _ _ _ => None)
      (fun _ _ => inr (<["uids" := PObject (str_of_string "[9, 10]")]> ∅)).

(** A world where the first [Protein] of the first round cannot be built. *)
Definition broken_first_protein : env :=
  Env seconds
      (fun _ => str_of_string "1abc")
      (fun _ _ => inr 2%nat)
      (fun _ j => inr (sample_combination j))
      (fun r j a => if ((r =? 0) && (j =? 0))%nat
                    then inl (Raised "pdb file not found") else inr (built a))
      (fun _ _ _ => None)
      (fun _ _ => inr ∅).

(** A world where the first combination fails in preparation and the
    [Protein] of the second one cannot be built. *)
Definition broken_second_protein : env :=
  Env seconds
      (fun _ => str_of_string "1abc")
      (fun _ _ => inr 2%nat)
      (fun _ j => inr (sample_combination j))
      (fun r j a => if (j =? 1)%nat
                    then inl (Raised "pdb file not found") else inr (built a))
      (fun _ j _ => if (j =? 0)%nat then Some (Raised "grompp failed") else None)
      (fun _ _ => inr ∅).

(** A world where no combination can be prepared. *)
Definition hopeless_world : env :=
  Env seconds
      (fun _ => str_of_string "1abc")
      (fun _ _ => inr 2%nat)
      (fun _ j => inr (sample_combination j))
      (fun _ _ a => inr (built a))
      (fun _ _ _ => Some (Raised "grompp failed"))
      (fun _ _ => inr ∅).

(** A world where no combination can be prepared and the pool would yield
    the structure 1abc in the first round and 2xyz in every later one. *)
Definition hopeless_pool : env :=
  Env seconds
      (fun r => if (r =? 0)%nat then str_of_string "1abc" else str_of_string "2xyz")
      (fun _ _ => inr 2%nat)
      (fun _ j => inr (sample_combination j))
      (fun _ _ a => inr (built a))
      (fun _ _ _ => Some (Raised "grompp failed"))
      (fun _ _ => inr ∅).

(** The structure id 1abc is pinned under [config.protein]. *)
Definition pinned_1abc : config :=
  Config None None None (Some (str_of_string "1abc")) None None None.

End Forward.

(** ** More of [folding/utils/ops.py] *)

(** *** How [run_cmd_commands] can end *)

Module Commands.
Import Py Ops.

(** The four ways the loop over [cmds] can end when it has handed the
    commands [ran] to the shell, after the commands [before] and with the
    timings [timings] already recorded: every command ran and the error
    record is empty; or the command after [done] failed and the error record
    describes it; or decoding a captured output raised; or
    [subprocess.run] itself raised for the command after [done]. *)
Definition ends (sh : shell) (before : list str) (timings : gmap str float)
    (cmds ran : list str) (r : result (gmap str float * gmap string pyval)) : Prop :=
  match r with
  | inr (timings', errors) =>
    (errors = ∅ /\ ran = cmds /\
     dom timings' = dom timings ∪ list_to_set cmds) \/
    (exists done cmd rest rc out err text,
       cmds = done ++ cmd :: rest /\ ran = done ++ [cmd] /\
       sh_run sh (before ++ done) cmd = CalledProcessError rc out err /\
       decode out = Some text /\
       errors = errors_of cmd text rc /\
       dom timings' = dom timings ∪ list_to_set done)
  | inl e =>
    (e = UnicodeDecodeError /\ ran <> []) \/
    (exists done cmd rest,
       cmds = done ++ cmd :: rest /\ ran = done ++ [cmd] /\
       sh_run sh (before ++ done) cmd = Raises e)
  end.

End Commands.

(** *** Vocabulary for [gro_hash] *)

Module Structure.
Import Py Re Ops.

Section Lines.
Variable db : unicode_db.

(** An atom line that [gro_hash] accepts: it is UTF-8 and, once stripped,
    the pattern matches it. *)
Definition accepted (line : bytes) : Prop :=
  exists l, decode line = Some l /\ is_Some (re_match db pattern (strip db l)).

(** The lines [line] and [line'] hold the same text [core] between
    whitespace: they differ in their indentation, in their trailing blanks
    or in their line ending. *)
Definition same_text (line line' : bytes) : Prop :=
  exists core pre post pre' post',
    decode line = Some (pre ++ core ++ post) /\
    decode line' = Some (pre' ++ core ++ post') /\
    all_in db CSpace pre /\ all_in db CSpace post /\
    all_in db CSpace pre' /\ all_in db CSpace post'.

End Lines.

(** A line that ends with its only newline, as [readlines] returns every
    line but the last. *)
Definition whole_line (l : bytes) : Prop :=
  exists body, l = body ++ [x0a] /\ Forall (fun b => b <> x0a) body.

(** A line of text ended by a carriage return and a newline. *)
Definition dos_line_of (l : string) : bytes := bytes_of_string l ++ [x0d; x0a].

(** [frame_a] as a text file with another layout: the atom lines are
    indented differently, two have trailing blanks and all end with a
    carriage return and a newline. *)
Definition frame_a_dos : bytes :=
  line_of "MD of 2 waters" ++ line_of "    3"
  ++ dos_line_of "1LYS      N    1   1.234   5.678  -9.012"
  ++ dos_line_of "        1LYS     H1    2   0.000   0.000   0.000   "
  ++ dos_line_of "10000SOL     OW10000   1.000   2.000   3.000 "
  ++ line_of "   1.00000   1.00000   1.00000".

(** [frame_a] under another title. *)
Definition frame_a_retitled : bytes := file_of_lines
  ["MD of 2 waters, t= 0.0"; "    3";
   "    1LYS      N    1   1.234   5.678  -9.012";
   "    1LYS     H1    2   0.000   0.000   0.000";
   "10000SOL     OW10000   1.000   2.000   3.000";
   "   1.00000   1.00000   1.00000"]%string.

(** A file that ends after its atom-count line. *)
Definition file_two_lines : bytes := file_of_lines ["only a title"; "    0"]%string.

End Structure.

(** *** [select_random_pdb_id] *)

Module Pool.
Import Py.
Local Open Scope stmt_scope.

(** The argument [PDB_IDS]: the dictionary that [load_pdb_ids] unpickles,
    from a family to the list of its structure ids, with its items in
    insertion order; or, as the comment in the [except] clause says, just a
    list of ids. *)
Inductive pdb_ids : Type :=
| Families (d : list (str * list str))
| Ids (l : list str).

(** The generator behind the module [random]: [g n len] is the number that
    the [n]-th call draws for a sequence of length [len]; it is reduced
    modulo [len], as [_randbelow(len)] is below [len].  The state of a
    statement is the number of calls so far. *)
Definition rng : Type := nat -> nat -> nat.

(** [random.choice(seq)]: [IndexError] on an empty sequence. *)
Definition random_choice {A} (g : rng) (seq : list A) : stmt nat A :=
  fun n =>
    (S n, match seq !! (g n (length seq) mod length seq)%nat with
          | Some x => Normal x
          | None => Raise IndexError
          end).

(** [PDB_IDS.keys()]: a list has no such method. *)
Definition keys (ids : pdb_ids) : stmt nat (list str) :=
  match ids with
  | Families d => ret (map fst d)
  | Ids _ => raise (Raised "AttributeError: 'list' object has no attribute 'keys'")
  end.

(** [d[key]] on the items of a dictionary. *)
Fixpoint item (d : list (str * list str)) (key : str) : option (list str) :=
  match d with
  | [] => None
  | (k, v) :: d' => if bool_decide (k = key) then Some v else item d' key
  end.

(** [PDB_IDS[family]] *)
Definition getitem (ids : pdb_ids) (family : str) : stmt nat pdb_ids :=
  match ids with
  | Families d =>
    match item d family with
    | Some l => ret (Ids l)
    | None => raise (KeyError "family")
    end
  | Ids _ => raise (Raised "TypeError: list indices must be integers or slices, not str")
  end.

(** [len(choices)] *)
Definition len (choices : pdb_ids) : nat :=
  match choices with
  | Families d => length d
  | Ids l => length l
  end.

(** [random.choice(choices)]: on a dictionary that is not empty the drawn
    index is looked up as a key. *)
Definition choose (g : rng) (choices : pdb_ids) : stmt nat str :=
  match choices with
  | Ids l => random_choice g l
  | Families d =>
    _ <- random_choice g d ;; raise (KeyError "index")
  end.

(** The [try] block and its bare [except] clause: the value of [choices]. *)
Definition draw_choices (g : rng) (ids : pdb_ids) : stmt nat pdb_ids :=
  try_except
    (ks <- keys ids ;;
     family <- random_choice g ks ;;
     getitem ids family)
    (fun _ => ret ids).

(** One iteration of [while True].  The [finally] clause runs after the
    [try] statement, which has handled every exception; it returns
    ([Some]) or falls through to the next iteration ([None]). *)
Definition iteration (g : rng) (ids : pdb_ids) : stmt nat (option str) :=
  choices <- draw_choices g ids ;;
  if (0 <? len choices)%nat
  then x <- choose g choices ;; ret (Some x)
  else ret None.

(** [select_random_pdb_id(PDB_IDS)], for at most [fuel] iterations of
    [while True]: [Normal (Some x)] when it returns [x], [Normal None] when
    it is still looping after [fuel] iterations. *)
Fixpoint select_random_pdb_id (fuel : nat) (g : rng) (ids : pdb_ids)
  : stmt nat (option str) :=
  match fuel with
  | O => ret None
  | S fuel' =>
    r <- iteration g ids ;;
    match r with
    | Some x => ret (Some x)
    | None => select_random_pdb_id fuel' g ids
    end
  end.

(** [x] is one of the structure ids that [ids] holds. *)
Definition holds (ids : pdb_ids) (x : str) : Prop :=
  match ids with
  | Families d => exists family l, (family, l) ∈ d /\ x ∈ l
  | Ids l => x ∈ l
  end.

(** [ids] holds no structure id at all: an empty dictionary, a dictionary
    of empty families, or an empty list. *)
Definition barren (ids : pdb_ids) : Prop :=
  match ids with
  | Families d => Forall (fun kv => snd kv = []) d
  | Ids l => l = []
  end.

(** The ids of the family that the [n]-th call of [random.choice] draws
    from the keys of [d]. *)
Definition drawn_family (g : rng) (d : list (str * list str)) (n : nat)
  : option (list str) :=
  family ← map fst d !! (g n (length (map fst d)) mod length (map fst d))%nat;
  item d family.

(** A generator whose first draw is the first element and whose later
    draws are the last element. *)
Definition first_then_last : rng :=
  fun n len => match n with O => O | S _ => pred len end.

(** A pool with an empty family and a family of two structures. *)
Definition sample_pool : pdb_ids :=
  Families [ (str_of_string "empty", []);
             (str_of_string "kinase", [str_of_string "1abc"; str_of_string "2xyz"]) ].

End Pool.

(** *** [get_response_info] *)

Module Responses.
Import Py.

(** The [dendrite] attribute of a response: the three fields that are
    read, each of which may be [None]. *)
Record terminal_info := TerminalInfo {
  process_time : option float;
  status_message : option str;
  status_code : option Z
}.

(** What [get_response_info] reads of a response: its [dendrite], and its
    [md_output], a dictionary from file names to file contents with its
    items in insertion order, or [None]. *)
Record response := Response {
  dendrite : terminal_info;
  md_output : option (list (str * bytes))
}.

(** [str(x)] for a number, and for a value that may be [None]. *)
Definition str_of_int (z : Z) : str := str_of_string (pretty z).

Definition str_of_option {A} (to_str : A -> str) (x : option A) : str :=
  match x with
  | Some a => to_str a
  | None => str_of_string "None"
  end.

(** The four lists that the function fills and returns under the keys
    [response_times], [response_status_messages], [response_status_codes]
    and [response_returned_files]. *)
Record response_info := ResponseInfo {
  response_times : list pyval;
  response_status_messages : list str;
  response_status_codes : list str;
  response_returned_files : list (list str)
}.

(** The loop [for resp in responses], with the lists filled so far. *)
Fixpoint gather (responses : list response) (acc : response_info)
  : result response_info :=
  match responses with
  | [] => inr acc
  | resp :: rest =>
    let times :=
      response_times acc ++
      [match process_time (dendrite resp) with
       | Some t => PFloat t
       | None => PInt 0
       end] in
    let messages :=
      response_status_messages acc ++
      [str_of_option id (status_message (dendrite resp))] in
    let codes :=
      response_status_codes acc ++
      [str_of_option str_of_int (status_code (dendrite resp))] in
    match md_output resp with
    | None => inl (Raised "AttributeError: 'NoneType' object has no attribute 'keys'")
    | Some d =>
      gather rest (ResponseInfo times messages codes
                                (response_returned_files acc ++ [map fst d]))
    end
  end.

Definition get_response_info (responses : list response) : result response_info :=
  gather responses (ResponseInfo [] [] [] []).

(** The entries that one response contributes. *)
Definition time_of (resp : response) : pyval :=
  match process_time (dendrite resp) with
  | Some t => PFloat t
  | None => PInt 0
  end.

Definition files_of (resp : response) : list str :=
  match md_output resp with
  | Some d => map fst d
  | None => []
  end.

(** Three answers: one from a miner that simulated, one from a miner that
    did not answer in time, and one that carries no output at all. *)
Definition answered : response :=
  Response (TerminalInfo (Some (S754_finite false 3 (-1))) (Some (str_of_string "Success"))
                        (Some 200))
          (Some [ (str_of_string "md_0_1.log", []); (str_of_string "md_0_1.edr", []) ]).

Definition timed_out : response :=
  Response (TerminalInfo None (Some (str_of_string "Timeout")) (Some 408)) (Some []).

Definition unanswered : response :=
  Response (TerminalInfo None None None) None.

End Responses.

(** ** More of [folding/validators/forward.py] *)

(** *** A hyperparameter search that succeeds *)

Module Search.
Import Py Forward.

Section Round.
Variable world : env.
Variable cfg : config.

(** The attempt [j] of the round [r] prepares the protein [p]: the
    hyperparameters are sampled, the [Protein] is built and its [forward()]
    returns.  [h] is the dictionary [hps] of the attempt. *)
Definition prepares (r j : nat) (p : protein) (h : gmap string pyval) : Prop :=
  exists sampled a bd,
    sample_hyperparameters world r j = inr sampled /\
    args_of cfg sampled = inr a /\
    new_protein world r j a = inr p /\
    sampled !! "BOX_DISTANCE"%string = Some bd /\
    protein_forward world r j p = None /\
    h = <["BOX_DISTANCE"%string := bd]>
          (<["BOX"%string := box p]> (<["WATER"%string := water p]>
             (<["FF"%string := ff p]> ∅))).

(** The event of a successful search, before the miners are queried: the
    structure id, the hyperparameters [h], the two durations and the
    status. *)
Definition search_event (pdb_id : str) (h : gmap string pyval) (t1 t2 : float)
  : gmap string pyval :=
  <["validator_search_status"%string := PBool true]>
    (<["forward_time"%string := PFloat t2]>
       (<["hp_sample_time"%string := PFloat t1]>
          (h ∪ <["pdb_id"%string := PStr pdb_id]> ∅))).

(** The locals that the [except] and the [finally] clause read are bound:
    an earlier attempt got as far as building its [Protein] and the
    dictionary [hps], whose keys are the four hyperparameters. *)
Definition bound (s : state) : Prop :=
  is_Some (sampled_combination (vars s)) /\
  exists h, hps (vars s) = Some h /\
            dom h = ({["FF"; "WATER"; "BOX"; "BOX_DISTANCE"]} : gset string)%string.

(** A [Protein] call that respects the pinned options: an option that is
    set under [config.protein] is the argument of the call. *)
Definition respects_pinned (a : protein_args) : Prop :=
  (forall v, protein_ff cfg = Some v -> arg_ff a = v) /\
  (forall v, protein_water cfg = Some v -> arg_water a = v) /\
  (forall v, protein_box cfg = Some v -> arg_box a = v).

End Round.

(** A world with one combination, which can be prepared, and miners that
    cannot be reached. *)
Definition unreachable_miners : env :=
  Env seconds
      (fun _ => str_of_string "1abc")
      (fun _ _ => inr 1%nat)
      (fun _ j => inr (sample_combination j))
      (fun _ _ a => inr (built a))
      (fun _ _ _ => None)
      (fun _ _ => inl (Raised "timeout")).

(** A world whose sampler has no combination to offer. *)
Definition no_combination : env :=
  Env seconds
      (fun _ => str_of_string "1abc")
      (fun _ _ => inr 0%nat)
      (fun _ j => inr (sample_combination j))
      (fun _ _ a => inr (built a))
      (fun _ _ _ => None)
      (fun _ _ => inr ∅).

(** A world where the first combination fails in preparation and the second
    one is prepared. *)
Definition second_chance : env :=
  Env seconds
      (fun _ => str_of_string "1abc")
      (fun _ _ => inr 2%nat)
      (fun _ j => inr (sample_combination j))
      (fun _ _ a => inr (built a))
      (fun _ j _ => if (j =? 0)%nat then Some (Raised "grompp failed") else None)
      (fun _ _ => inr (<["uids"%string := PObject (str_of_string "[9, 10]")]> ∅)).

(** The force field is pinned under [config.protein]. *)
Definition pinned_ff : config :=
  Config None None None None (Some (PStr (str_of_string "oplsaa"))) None None.

End Search.

(** *** [run_step] *)

Module Step.
Import Py Responses.
Local Open Scope stmt_scope.

(** The values of the event dictionary. *)
Inductive field : Type :=
| FVal (v : pyval)
| FUids (l : list Z)
| FTimes (l : list pyval)
| FTexts (l : list str)
| FFiles (l : list (list str)).

(** The protein of the step: the two attributes that are sent. *)
Record protein := Protein { pdb_id : pyval; md_inputs : pyval }.

(** [FoldingSynapse(pdb_id=..., md_inputs=...)] *)
Record request := Request { req_pdb_id : pyval; req_md_inputs : pyval }.

(** A [RewardEvent]: its [rewards] dictionary, from uid to reward, with
    its items in insertion order, and what [asdict()] returns. *)
Record reward_event := RewardEvent {
  rewards : list (Z * float);
  asdict : result (gmap string field)
}.

Section Validator.
(** An entry of [self.metagraph.axons]. *)
Variable axon : Type.

(** The validator and its collaborators: the axons of the metagraph,
    [self.block], the clock, the network call [self.dendrite(...)],
    [get_rewards] and [self.update_scores]. *)
Record neuron := Neuron {
  axons : list axon;
  block : pyval;
  time_time : nat -> float;
  dendrite_call : list axon -> request -> float -> result (list response);
  get_rewards : protein -> list response -> list Z -> result (list reward_event);
  update_scores : list float -> list Z -> option exn
}.

(** What the step has done: the clock readings, the queries sent, and the
    score updates, in order. *)
Record trace := Trace {
  clock : nat;
  queries : list (list axon * request * float);
  score_updates : list (list float * list Z)
}.

Variable self : neuron.

Definition now : stmt trace float :=
  fun t => (Trace (S (clock t)) (queries t) (score_updates t),
            Normal (time_time self (clock t))).

(** [self.metagraph.axons[uid]]: a negative index counts from the end, an
    index out of range raises. *)
Definition axon_at (uid : Z) : stmt trace axon :=
  let n := Z.of_nat (length (axons self)) in
  let i := if uid <? 0 then n + uid else uid in
  if i <? 0 then raise IndexError
  else
    match axons self !! Z.to_nat i with
    | Some a => ret a
    | None => raise IndexError
    end.

(** [[self.metagraph.axons[uid] for uid in uids]] *)
Fixpoint axons_of (uids : list Z) : stmt trace (list axon) :=
  match uids with
  | [] => ret []
  | uid :: rest =>
    a <- axon_at uid ;;
    l <- axons_of rest ;;
    ret (a :: l)
  end.

(** [await self.dendrite(axons=axons, synapse=synapse, timeout=timeout,
    deserialize=True)] *)
Definition query (to : list axon) (synapse : request) (timeout : float)
  : stmt trace (list response) :=
  modify (fun t => Trace (clock t) (queries t ++ [(to, synapse, timeout)])
                         (score_updates t)) ;;
  lift (dendrite_call self to synapse timeout).

(** [self.update_scores(rewards=..., uids=...)] *)
Definition scores (rs : list float) (uids : list Z) : stmt trace unit :=
  modify (fun t => Trace (clock t) (queries t) (score_updates t ++ [(rs, uids)])) ;;
  match update_scores self rs uids with
  | Some e => raise e
  | None => ret tt
  end.

(** The dictionary that [get_response_info] returns. *)
Definition info_dict (info : response_info) : gmap string field :=
  <["response_returned_files"%string := FFiles (response_returned_files info)]>
    (<["response_status_codes"%string := FTexts (response_status_codes info)]>
       (<["response_status_messages"%string := FTexts (response_status_messages info)]>
          (<["response_times"%string := FTimes (response_times info)]> ∅))).

(** The dictionary display [{"block": ..., "step_length": ..., "uids":
    uids, **response_info, **reward_event.asdict()}]: a later entry
    replaces an earlier one with the same key. *)
Definition event_of (step_length : float) (uids : list Z)
    (info : response_info) (reward : gmap string field) : gmap string field :=
  reward ∪ (info_dict info ∪
    (<["uids"%string := FUids uids]>
       (<["step_length"%string := FVal (PFloat step_length)]>
          (<["block"%string := FVal (block self)]> ∅)))).

(** [run_step(self, protein, k, timeout, exclude)] *)
Definition run_step (p : protein) (k : Z) (timeout : float) (exclude : list Z)
  : stmt trace (gmap string field) :=
  start_time <- now ;;
  let uids := [9; 10] in
  to <- axons_of uids ;;
  let synapse := Request (pdb_id p) (md_inputs p) in
  responses <- query to synapse timeout ;;
  reward_events <- lift (get_rewards self p responses uids) ;;
  reward_event <- lift (match reward_events with
                        | e :: _ => inr e
                        | [] => inl IndexError
                        end) ;;
  scores (map snd (rewards reward_event)) (map fst (rewards reward_event)) ;;
  response_info <- lift (get_response_info responses) ;;
  t <- now ;;
  reward <- lift (asdict reward_event) ;;
  ret (event_of (fsub t start_time) uids response_info reward).

Definition start : trace := Trace 0 [] [].

End Validator.

(** A validator of a subnet with [n] axons, numbered from 0, whose miners
    return the responses [rs]; every miner is rewarded with 1. *)
Definition one : float := S754_finite false 1 0.

Definition sample_neuron (n : nat) (rs : list response) : neuron nat :=
  Neuron nat (seq 0 n) (PInt 4242)
         (fun k => S754_finite false (Pos.of_succ_nat k) 0)
         (fun _ _ _ => inr rs)
         (fun _ _ uids =>
            inr [RewardEvent (map (fun u => (u, one)) uids)
                             (inr (<["uids"%string := FUids uids]> ∅))])
         (fun _ _ => None).

Definition sample_protein : protein :=
  Protein (PStr (str_of_string "1abc")) (PObject (str_of_string "{...}")).

End Step.


(** * Properties *)

Module MD5Facts.

(** The test vectors of RFC 1321 for the empty message and for abc. *)
Example md5_empty :
  MD5.hexdigest [] = "d41d8cd98f00b204e9800998ecf8427e"%string.
Proof. vm_compute. reflexivity. Qed.

Example md5_abc :
  MD5.hexdigest (Py.bytes_of_string "abc") = "900150983cd24fb0d6963f7d28e17f72"%string.
Proof. vm_compute. reflexivity. Qed.

End MD5Facts.

(** ** UTF-8 *)

Module PyFacts.
Import Py.

Lemma Z_of_byte_range b : 0 <= Z_of_byte b < 256.
Proof.
  unfold Z_of_byte. pose proof (Byte.to_N_bounded b) as H.
  lia.
Qed.

Lemma Z_of_byte_of_Z z : 0 <= z < 256 -> Z_of_byte (byte_of_Z z) = z.
Proof.
  intros Hz. unfold Z_of_byte, byte_of_Z.
  destruct (Byte.of_N (Z.to_N z)) as [b|] eqn:E.
  - apply Byte.to_of_N in E. rewrite E. lia.
  - apply Byte.of_N_None_iff in E. lia.
Qed.

Ltac cmp :=
  repeat match goal with
  | |- context [?a <? ?b] => destruct (Z.ltb_spec a b); try lia
  | |- context [?a <=? ?b] => destruct (Z.leb_spec a b); try lia
  | |- context [?a =? ?b] => destruct (Z.eqb_spec a b); try lia
  | H : context [?a <? ?b] |- _ => destruct (Z.ltb_spec a b); try lia
  | H : context [?a <=? ?b] |- _ => destruct (Z.leb_spec a b); try lia
  | H : context [?a =? ?b] |- _ => destruct (Z.eqb_spec a b); try lia
  end.

Lemma encode_char_scalar c : scalar c -> is_Some (encode_char c).
Proof. intros Hc. unfold scalar in Hc. unfold encode_char. cmp; simpl; eauto. Qed.

(** What [decode] yields are scalar values. *)
Lemma decode_from_scalar_below n : forall bs s,
  (length bs < n)%nat ->
  Forall (fun b => 0 <= b < 256) bs -> decode_from bs = Some s -> Forall scalar s.
Proof.
  induction n as [|n IH]; intros bs s Hn Hb H; [exfalso; lia|].
  destruct bs as [|b0 r0]; simpl in H.
  { inversion H. constructor. }
  inversion Hb as [|? ? Hb0 Hr0]; subst.
  assert (Hstep : forall c r, (length r < length (b0 :: r0))%nat ->
            Forall (fun b => 0 <= b < 256) r -> scalar c ->
            cons c <$> decode_from r = Some s -> Forall scalar s).
  { intros c r Hlen Hr Hc E. destruct (decode_from r) as [s'|] eqn:Er; [|discriminate].
    inversion E; subst. constructor; [exact Hc|]. eapply IH; eauto. simpl in *; lia. }
  unfold is_cont in H.
  destruct (b0 <? 128) eqn:E0.
  { apply (Hstep b0 r0); [simpl; lia | exact Hr0 | unfold scalar; cmp | exact H]. }
  destruct ((194 <=? b0) && (b0 <=? 223)) eqn:E1.
  { destruct r0 as [|b1 r1]; [discriminate|].
    inversion Hr0; subst.
    destruct ((128 <=? b1) && (b1 <=? 191)) eqn:E2; [|discriminate].
    eapply (Hstep _ r1); [simpl; lia | assumption | | exact H].
    unfold scalar. apply andb_true_iff in E1 as [? ?], E2 as [? ?]. lia. }
  destruct ((224 <=? b0) && (b0 <=? 239)) eqn:E2.
  { destruct r0 as [|b1 [|b2 r2]]; try discriminate.
    inversion Hr0 as [|? ? ? Hr1]; subst. inversion Hr1; subst.
    match type of H with (if ?c then _ else _) = _ => destruct c eqn:E3 end; [|discriminate].
    eapply (Hstep _ r2); [simpl; lia | assumption | | exact H].
    unfold scalar. apply andb_true_iff in E2 as [? ?].
    repeat (apply andb_true_iff in E3 as [E3 ?]).
    rewrite negb_true_iff, andb_false_iff in *. cmp. }
  destruct ((240 <=? b0) && (b0 <=? 244)) eqn:E3; [|discriminate].
  destruct r0 as [|b1 [|b2 [|b3 r3]]]; try discriminate.
  inversion Hr0 as [|? ? ? Hr1]; subst. inversion Hr1 as [|? ? ? Hr2]; subst.
  inversion Hr2; subst.
  match type of H with (if ?c then _ else _) = _ => destruct c eqn:E4 end; [|discriminate].
  eapply (Hstep _ r3); [simpl; lia | assumption | | exact H].
  unfold scalar. apply andb_true_iff in E3 as [? ?].
  repeat (apply andb_true_iff in E4 as [E4 ?]).
  rewrite negb_true_iff, andb_false_iff in *. cmp.
Qed.

Lemma decode_scalar b s : decode b = Some s -> Forall scalar s.
Proof.
  apply (decode_from_scalar_below (S (length (map Z_of_byte b)))); [lia|].
  apply Forall_forall. intros x Hx.
  apply list_elem_of_In, in_map_iff in Hx. destruct Hx as (y & <- & _). apply Z_of_byte_range.
Qed.

Lemma encode_to_scalar s : Forall scalar s -> is_Some (encode_to s).
Proof.
  induction 1 as [|c s Hc _ [r IH]]; simpl; [eauto|].
  destruct (encode_char_scalar c Hc) as [bs ->]. rewrite IH. eauto.
Qed.

Lemma encode_scalar s : Forall scalar s -> is_Some (encode s).
Proof.
  intros H. unfold encode. destruct (encode_to_scalar s H) as [r ->]. simpl. eauto.
Qed.


Lemma encode_char_range c bs :
  encode_char c = Some bs -> Forall (fun b => 0 <= b < 256) bs.
Proof.
  unfold encode_char. intros H.
  pose proof (Z.div_mod c 64 ltac:(lia)).
  pose proof (Z.mod_pos_bound c 64 ltac:(lia)).
  pose proof (Z.div_mod c 4096 ltac:(lia)).
  pose proof (Z.mod_pos_bound c 4096 ltac:(lia)).
  pose proof (Z.div_mod c 262144 ltac:(lia)).
  pose proof (Z.mod_pos_bound c 262144 ltac:(lia)).
  pose proof (Z.mod_pos_bound (c / 64) 64 ltac:(lia)).
  pose proof (Z.mod_pos_bound (c / 4096) 64 ltac:(lia)).
  repeat match type of H with
  | (if ?b then _ else _) = _ => destruct b eqn:?; try discriminate
  end; inversion H; subst; cmp; repeat constructor; lia.
Qed.

(** Decides the comparisons of the goal one at a time. *)
Ltac decide_cmp :=
  repeat (match goal with
  | |- context [?a <? ?b] =>
    first [ rewrite (proj2 (Z.ltb_lt a b)) by lia
          | rewrite (proj2 (Z.ltb_ge a b)) by lia
          | destruct (Z.ltb_spec a b) ]
  | |- context [?a <=? ?b] =>
    first [ rewrite (proj2 (Z.leb_le a b)) by lia
          | rewrite (proj2 (Z.leb_gt a b)) by lia
          | destruct (Z.leb_spec a b) ]
  | |- context [?a =? ?b] =>
    first [ rewrite (proj2 (Z.eqb_eq a b)) by lia
          | rewrite (proj2 (Z.eqb_neq a b)) by lia
          | destruct (Z.eqb_spec a b) ]
  end; cbn [andb negb orb]).

(** Decoding what [encode_char] wrote gives the character back. *)
Lemma decode_encode_char c bs r :
  encode_char c = Some bs ->
  decode_from (bs ++ r) = cons c <$> decode_from r.
Proof.
  unfold encode_char. intros H.
  pose proof (Z.div_mod c 64 ltac:(lia)) as D1.
  pose proof (Z.mod_pos_bound c 64 ltac:(lia)) as B1.
  pose proof (Z.div_mod (c / 64) 64 ltac:(lia)) as D2.
  pose proof (Z.mod_pos_bound (c / 64) 64 ltac:(lia)) as B2.
  pose proof (Z.div_mod (c / 64 / 64) 64 ltac:(lia)) as D3.
  pose proof (Z.mod_pos_bound (c / 64 / 64) 64 ltac:(lia)) as B3.
  assert (E2 : c / 4096 = c / 64 / 64) by (rewrite Z.div_div by lia; reflexivity).
  assert (E3 : c / 262144 = c / 64 / 64 / 64) by (rewrite !Z.div_div by lia; reflexivity).
  rewrite E2, E3 in H.
  set (q := c / 64) in *. set (m := c mod 64) in *.
  set (q2 := q / 64) in *. set (m2 := q mod 64) in *.
  set (q3 := q2 / 64) in *. set (m3 := q2 mod 64) in *.
  destruct (Z.ltb_spec c 0); [discriminate|].
  destruct (Z.ltb_spec c 128).
  { injection H as <-. simpl. decide_cmp. reflexivity. }
  destruct (Z.ltb_spec c 2048).
  { injection H as <-. simpl. unfold is_cont. decide_cmp.
    all: do 2 f_equal; lia. }
  destruct (Z.ltb_spec c 65536).
  { destruct (Z.leb_spec 55296 c); destruct (Z.leb_spec c 57343);
      simpl in H; try discriminate; try lia; injection H as <-;
      simpl; unfold is_cont; decide_cmp; do 2 f_equal; lia. }
  destruct (Z.ltb_spec c 1114112); [|discriminate].
  injection H as <-. simpl. unfold is_cont. decide_cmp.
  all: do 2 f_equal; lia.
Qed.

Lemma decode_encode_to s bs :
  encode_to s = Some bs -> decode_from bs = Some s /\ Forall (fun b => 0 <= b < 256) bs.
Proof.
  revert bs. induction s as [|c s IH]; simpl; intros bs H.
  - inversion H. split; [reflexivity | constructor].
  - destruct (encode_char c) as [b1|] eqn:Ec; [|discriminate].
    destruct (encode_to s) as [b2|] eqn:Es; [|discriminate].
    inversion H; subst. destruct (IH b2 eq_refl) as [Hd Hr].
    split.
    + rewrite (decode_encode_char c b1 b2 Ec), Hd. reflexivity.
    + apply Forall_app. split; [by apply (encode_char_range c)|exact Hr].
Qed.

Lemma map_Z_of_byte_of_Z bs :
  Forall (fun b => 0 <= b < 256) bs -> map Z_of_byte (map byte_of_Z bs) = bs.
Proof.
  induction 1 as [|b bs Hb _ IH]; simpl; [reflexivity|].
  by rewrite Z_of_byte_of_Z, IH.
Qed.

(** [s.encode().decode() == s] *)
Lemma decode_encode s b : encode s = Some b -> decode b = Some s.
Proof.
  unfold encode, decode. destruct (encode_to s) as [bs|] eqn:E; [|discriminate].
  simpl. intros H. inversion H; subst.
  destruct (decode_encode_to s bs E) as [Hd Hr].
  by rewrite map_Z_of_byte_of_Z.
Qed.

Lemma encode_inj s1 s2 b : encode s1 = Some b -> encode s2 = Some b -> s1 = s2.
Proof.
  intros H1 H2. apply decode_encode in H1, H2. congruence.
Qed.

End PyFacts.

(** ** The matching engine *)

Module ReFacts.
Import Py Re.

Section Engine.
Variable db : unicode_db.

Lemma star_loop_sound (m : matcher) (a : regex) :
  (forall s c k x, m s c k = Some x ->
     exists s1 c1, parses db a s c s1 c1 /\ k s1 c1 = Some x) ->
  forall fuel s c k x, star_loop m fuel s c k = Some x ->
     exists s1 c1, parses db (RStar a) s c s1 c1 /\ k s1 c1 = Some x.
Proof.
  intros Hm fuel. induction fuel as [|fuel IH]; intros s c k x H; simpl in H.
  - discriminate.
  - destruct (m s c _) as [r|] eqn:E.
    + inversion H; subst r; clear H.
      apply Hm in E. destruct E as (s1 & c1 & Ha & Hk).
      destruct (length s1 <? length s)%nat eqn:Hlt; [|discriminate].
      apply Nat.ltb_lt in Hlt.
      apply IH in Hk. destruct Hk as (s2 & c2 & Hs & Hk).
      exists s2, c2. split; [|exact Hk].
      eapply P_star_cons; eauto.
    + exists s, c. split; [apply P_star_nil | exact H].
Qed.

Lemma rmatch_sound r : forall s c k x,
  rmatch db r s c k = Some x ->
  exists s1 c1, parses db r s c s1 c1 /\ k s1 c1 = Some x.
Proof.
  induction r as [cl|a IHa b IHb|a IHa|a IHa|a IHa|n a IHa]; intros s c k x H; cbn [rmatch] in H.
  - destruct s as [|y s]; [discriminate|].
    destruct (in_cls db cl y) eqn:E; [|discriminate].
    exists s, c. split; [by apply P_char | exact H].
  - apply IHa in H. destruct H as (s1 & c1 & Ha & H).
    apply IHb in H. destruct H as (s2 & c2 & Hb & H).
    exists s2, c2. split; [eapply P_cat; eauto | exact H].
  - destruct (rmatch db a s c k) as [r|] eqn:E.
    + inversion H; subst r. apply IHa in E. destruct E as (s1 & c1 & Ha & Hk).
      exists s1, c1. split; [by apply P_opt_some | exact Hk].
    + exists s, c. split; [apply P_opt_none | exact H].
  - eapply star_loop_sound; eauto.
  - apply IHa in H. destruct H as (s1 & c1 & Ha & H).
    eapply star_loop_sound in H; [|exact IHa].
    destruct H as (s2 & c2 & Hs & H).
    exists s2, c2. split; [eapply P_plus; eauto | exact H].
  - apply IHa in H. destruct H as (s1 & c1 & Ha & H).
    eexists _, _. split; [eapply P_group; eauto | exact H].
Qed.

Lemma star_loop_complete (m : matcher) (a : regex) :
  (forall s c s1 c1 k, parses db a s c s1 c1 -> is_Some (k s1 c1) -> is_Some (m s c k)) ->
  forall s c s1 c1, parses db (RStar a) s c s1 c1 ->
  forall k fuel, (length s < fuel)%nat -> is_Some (k s1 c1) ->
    is_Some (star_loop m fuel s c k).
Proof.
  intros Hm s c s1 c1 H. remember (RStar a) as r eqn:Er.
  induction H; try discriminate; inversion Er; subst; intros k fuel Hf Hk.
  - destruct fuel as [|fuel]; [exfalso; lia|]. simpl.
    destruct (m s c _); [eauto | exact Hk].
  - destruct fuel as [|fuel]; [exfalso; lia|]. simpl.
    match goal with |- is_Some (match m s c ?k' with _ => _ end) =>
      assert (Hs : is_Some (m s c k')) end.
    { eapply Hm; [eassumption|].
      rewrite (proj2 (Nat.ltb_lt _ _) H0). apply IHparses2; [reflexivity|lia|exact Hk]. }
    destruct Hs as [y ->]. eauto.
Qed.

Lemma rmatch_complete r : forall s c s1 c1 k,
  parses db r s c s1 c1 -> is_Some (k s1 c1) -> is_Some (rmatch db r s c k).
Proof.
  induction r as [cl|a IHa b IHb|a IHa|a IHa|a IHa|n a IHa];
    intros s c s1 c1 k H Hk; inversion H; subst; cbn [rmatch].
  - by rewrite H1.
  - eapply IHa; [eassumption|]. eapply IHb; eassumption.
  - destruct (rmatch db a s c k) eqn:E; [eauto|].
    assert (Hs : is_Some (rmatch db a s c k)) by (eapply IHa; eassumption).
    rewrite E in Hs. by destruct Hs.
  - destruct (rmatch db a s1 c1 k); [eauto | exact Hk].
  - eapply star_loop_complete; eauto.
  - eapply star_loop_complete; eauto.
  - eapply IHa; [eassumption|].
    eapply star_loop_complete; eauto.
  - eapply IHa; [eassumption|]. exact Hk.
Qed.

(** When every parse of [s] yields the same observation of its groups, and
    there is one, that is what [match] returns. *)
Lemma re_match_determined {A} (f : captures -> A) r s v :
  (exists s1 m1, parses db r s ∅ s1 m1) ->
  (forall s1 m1, parses db r s ∅ s1 m1 -> f m1 = v) ->
  exists m, re_match db r s = Some m /\ f m = v.
Proof.
  intros (s1 & m1 & Hp) Hall. unfold re_match.
  destruct (rmatch_complete r s ∅ s1 m1 (fun _ c => Some c) Hp) as [m Hm]; [eauto|].
  exists m. split; [exact Hm|].
  apply rmatch_sound in Hm. destruct Hm as (s2 & m2 & Hp2 & Heq).
  inversion Heq; subst. eapply Hall; eauto.
Qed.

Lemma re_match_none r s :
  (forall s1 m1, ~ parses db r s ∅ s1 m1) -> re_match db r s = None.
Proof.
  intros Hno. unfold re_match.
  destruct (rmatch db r s ∅ _) eqn:E; [|reflexivity].
  apply rmatch_sound in E. destruct E as (s1 & m1 & Hp & _).
  by destruct (Hno s1 m1).
Qed.

End Engine.

Section Runs.
Variable db : unicode_db.

Lemma parses_char_inv k s c s1 c1 :
  parses db (RChar k) s c s1 c1 ->
  exists x, s = x :: s1 /\ in_cls db k x = true /\ c1 = c.
Proof. intros H. inversion H; subst. eauto. Qed.

Lemma parses_cat_inv a b s c s2 c2 :
  parses db (RCat a b) s c s2 c2 ->
  exists s1 c1, parses db a s c s1 c1 /\ parses db b s1 c1 s2 c2.
Proof. intros H. inversion H; subst. eauto. Qed.

Lemma parses_opt_inv a s c s1 c1 :
  parses db (ROpt a) s c s1 c1 ->
  parses db a s c s1 c1 \/ (s1 = s /\ c1 = c).
Proof. intros H. inversion H; subst; eauto. Qed.

Lemma parses_plus_inv a s c s2 c2 :
  parses db (RPlus a) s c s2 c2 ->
  exists s1 c1, parses db a s c s1 c1 /\ parses db (RStar a) s1 c1 s2 c2.
Proof. intros H. inversion H; subst. eauto. Qed.

Lemma parses_group_inv n a s c s1 c' :
  parses db (RGroup n a) s c s1 c' ->
  exists c1, parses db a s c s1 c1 /\
             c' = <[n := take (length s - length s1) s]> c1.
Proof. intros H. inversion H; subst. eauto. Qed.

Lemma parses_star_chars_inv k s c s1 c1 :
  parses db (RStar (RChar k)) s c s1 c1 ->
  exists xs, all_in db k xs /\ s = xs ++ s1 /\ c1 = c.
Proof.
  intros H. remember (RStar (RChar k)) as r eqn:Er.
  induction H; try discriminate; inversion Er; subst.
  - exists []. repeat split. constructor.
  - destruct (IHparses2 eq_refl) as (xs & Hxs & -> & ->).
    apply parses_char_inv in H. destruct H as (x & -> & Hx & ->).
    exists (x :: xs). repeat split. by constructor.
Qed.

Lemma parses_plus_chars_inv k s c s1 c1 :
  parses db (RPlus (RChar k)) s c s1 c1 ->
  exists xs, run db k xs /\ s = xs ++ s1 /\ c1 = c.
Proof.
  intros H. apply parses_plus_inv in H. destruct H as (s' & c' & Hc & Hs).
  apply parses_char_inv in Hc. destruct Hc as (x & -> & Hx & ->).
  apply parses_star_chars_inv in Hs. destruct Hs as (xs & Hxs & -> & ->).
  exists (x :: xs). repeat split; [by constructor | discriminate].
Qed.

Lemma parses_star_chars k xs r c :
  all_in db k xs -> parses db (RStar (RChar k)) (xs ++ r) c r c.
Proof.
  induction 1 as [|x xs Hx _ IH]; simpl.
  - apply P_star_nil.
  - eapply P_star_cons; [by apply P_char | simpl; lia | exact IH].
Qed.

Lemma parses_plus_chars k xs r c :
  run db k xs -> parses db (RPlus (RChar k)) (xs ++ r) c r c.
Proof.
  intros [Hall Hne]. destruct Hall as [|x xs Hx Hxs]; [done|]. simpl.
  eapply P_plus; [by apply P_char | by apply parses_star_chars].
Qed.

(** A pattern leaves the groups it does not contain as they were. *)
Lemma parses_frame n r s c s1 c1 :
  parses db r s c s1 c1 -> sets_group n r = false -> c1 !! n = c !! n.
Proof.
  induction 1; simpl; intros Hn; try reflexivity;
    try (apply orb_false_iff in Hn; destruct Hn as [Hn1 Hn2]).
  - rewrite IHparses2, IHparses1; auto.
  - auto.
  - rewrite IHparses2, IHparses1; auto.
  - rewrite IHparses2, IHparses1; auto.
  - rewrite lookup_insert_ne; [auto|].
    apply Nat.eqb_neq in Hn1. congruence.
Qed.

(** The text of a group: what was consumed between its two ends. *)
Lemma take_consumed (p r : str) : take (length (p ++ r) - length r) (p ++ r) = p.
Proof.
  rewrite length_app. replace (length p + length r - length r)%nat with (length p) by lia.
  by rewrite take_app_length.
Qed.

(** Two runs of one class that end where the class stops are the same run. *)
Lemma run_unique k xs ys r1 r2 :
  all_in db k xs -> all_in db k ys -> stops db k r1 -> stops db k r2 ->
  xs ++ r1 = ys ++ r2 -> xs = ys /\ r1 = r2.
Proof.
  intros Hx. revert ys. induction Hx as [|x xs Hx _ IH]; intros ys Hy S1 S2 E.
  - destruct Hy as [|y ys Hy _]; [auto|]. simpl in E. subst r1.
    simpl in S1. congruence.
  - destruct Hy as [|y ys Hy Hys]; simpl in E.
    + subst r2. simpl in S2. congruence.
    + inversion E; subst. destruct (IH ys Hys S1 S2 H1) as [-> ->]. auto.
Qed.

Lemma stops_run k k' l r :
  run db k' l -> (forall x, in_cls db k' x = true -> in_cls db k x = false) ->
  stops db k (l ++ r).
Proof.
  intros [Hall Hne] Hex. destruct Hall as [|x l Hx _]; [done|]. simpl. auto.
Qed.

Lemma stops_cons k x r : in_cls db k x = false -> stops db k (x :: r).
Proof. auto. Qed.

Lemma all_in_app k l1 l2 : all_in db k l1 -> all_in db k l2 -> all_in db k (l1 ++ l2).
Proof. intros. by apply Forall_app. Qed.

Lemma all_in_weaken k k' l :
  (forall x, in_cls db k x = true -> in_cls db k' x = true) ->
  all_in db k l -> all_in db k' l.
Proof. intros Hw H. eapply Forall_impl; [exact H | exact Hw]. Qed.

Section Classes.
Hypothesis ok : db_ok db.

Lemma digit_word x : in_cls db CDigit x = true -> in_cls db CWord x = true.
Proof.
  simpl. intros H. unfold is_word. by rewrite (ok_decimal_alnum db ok x H).
Qed.

Lemma space_not_word x : in_cls db CSpace x = true -> in_cls db CWord x = false.
Proof.
  simpl. intros H. unfold is_word. rewrite (ok_space_alnum db ok x H). simpl.
  apply Z.eqb_neq. intros ->.
  rewrite (ok_space db ok 95) in H by lia. discriminate.
Qed.

Lemma word_not_space x : in_cls db CWord x = true -> in_cls db CSpace x = false.
Proof.
  intros H. destruct (in_cls db CSpace x) eqn:E; [|reflexivity].
  apply space_not_word in E. congruence.
Qed.

Lemma digit_not_space x : in_cls db CDigit x = true -> in_cls db CSpace x = false.
Proof. intros H. apply word_not_space, digit_word, H. Qed.

Lemma space_not_digit x : in_cls db CSpace x = true -> in_cls db CDigit x = false.
Proof.
  intros H. destruct (in_cls db CDigit x) eqn:E; [|reflexivity].
  apply digit_not_space in E. congruence.
Qed.

Lemma minus_not_digit : in_cls db CDigit 45 = false.
Proof. simpl. by rewrite (ok_decimal db ok 45) by lia. Qed.

Lemma minus_not_space : in_cls db CSpace 45 = false.
Proof. simpl. by rewrite (ok_space db ok 45) by lia. Qed.

Lemma dot_not_digit : in_cls db CDigit 46 = false.
Proof. simpl. by rewrite (ok_decimal db ok 46) by lia. Qed.

Lemma dot_not_space : in_cls db CSpace 46 = false.
Proof. simpl. by rewrite (ok_space db ok 46) by lia. Qed.

End Classes.
End Runs.

End ReFacts.

(** ** [gro_hash] and [run_cmd_commands] *)

Module OpsFacts.
Import Py Re Ops PyFacts ReFacts.

Ltac splits := repeat match goal with |- _ /\ _ => split end.

Section PatternParses.
Variable db : unicode_db.

Lemma coordinate_inv s c s1 c1 :
  parses db coordinate s c s1 c1 ->
  exists sg ip fp,
    s = sg ++ ip ++ [46] ++ fp ++ s1 /\ (sg = [] \/ sg = [45]) /\
    run db CDigit ip /\ run db CDigit fp /\ c1 = c.
Proof.
  unfold coordinate, dg. intros H.
  apply parses_cat_inv in H as (sa & ca & Hsg & H).
  apply parses_cat_inv in H as (sb & cb & Hip & H).
  apply parses_cat_inv in H as (sc & cc & Hdot & Hfp).
  apply parses_plus_chars_inv in Hip as (ip & Hip & E1 & E2).
  apply parses_char_inv in Hdot as (x & E3 & Hx & E4).
  apply parses_plus_chars_inv in Hfp as (fp & Hfp & E5 & E6).
  simpl in Hx. apply Z.eqb_eq in Hx.
  apply parses_opt_inv in Hsg as [Hsg | [E7 E8]].
  - apply parses_char_inv in Hsg as (y & E7 & Hy & E8).
    simpl in Hy. apply Z.eqb_eq in Hy. subst.
    exists [45], ip, fp. splits; auto.
  - subst. exists [], ip, fp. splits; auto.
Qed.

Lemma coordinate_parses sg ip fp r c :
  (sg = [] \/ sg = [45]) -> run db CDigit ip -> run db CDigit fp ->
  parses db coordinate (sg ++ ip ++ [46] ++ fp ++ r) c r c.
Proof.
  intros Hsg Hip Hfp. unfold coordinate.
  assert (Hrest : parses db (RCat (RPlus dg) (RCat (RChar (CLit 46)) (RPlus dg)))
                         (ip ++ [46] ++ fp ++ r) c r c).
  { eapply P_cat; [by apply parses_plus_chars|].
    eapply P_cat; [by apply P_char|].
    by apply parses_plus_chars. }
  destruct Hsg as [-> | ->]; simpl.
  - eapply P_cat; [apply P_opt_none | exact Hrest].
  - eapply P_cat; [by apply P_opt_some, P_char | exact Hrest].
Qed.

(** Every parse of the pattern cuts the line into these pieces. *)
Lemma pattern_inv l s' m :
  parses db pattern l ∅ s' m ->
  exists w0 d1 t1 w1 W D S N w2 R,
    l = w0 ++ (d1 ++ t1) ++ w1 ++ (W ++ D ++ S ++ N) ++ w2 ++ R /\
    all_in db CSpace w0 /\ run db CDigit d1 /\ run db CWord t1 /\
    run db CSpace w1 /\
    run db CWord W /\ all_in db CDigit D /\ all_in db CSpace S /\ run db CDigit N /\
    run db CSpace w2 /\ starts_with_coordinate db R /\
    m !! 1%nat = Some (d1 ++ t1) /\ m !! 2%nat = Some (W ++ D ++ S ++ N).
Proof.
  unfold pattern, residue_token, atom_token, sp, dg, wd. intros H.
  apply parses_cat_inv in H as (s0 & c0 & Hw0 & H).
  apply parses_star_chars_inv in Hw0 as (w0 & Hw0 & E3a & E3b).
  apply parses_cat_inv in H as (s1 & c1 & Hg1 & H).
  apply parses_group_inv in Hg1 as (c1' & Hg1 & Ec1).
  apply parses_cat_inv in Hg1 as (sa & ca & Hd1 & Ht1).
  apply parses_plus_chars_inv in Hd1 as (d1 & Hd1 & E4a & E4b).
  apply parses_plus_chars_inv in Ht1 as (t1 & Ht1 & E5a & E5b).
  apply parses_cat_inv in H as (s2 & c2 & Hw1 & H).
  apply parses_plus_chars_inv in Hw1 as (w1 & Hw1 & E6a & E6b).
  apply parses_cat_inv in H as (s3 & c3 & Hg2 & H).
  apply parses_group_inv in Hg2 as (c2' & Hg2 & Ec2).
  apply parses_cat_inv in Hg2 as (sb & cb & HW & Hg2).
  apply parses_plus_chars_inv in HW as (W & HW & E7a & E7b).
  apply parses_cat_inv in Hg2 as (sc & cc & HD & Hg2).
  apply parses_star_chars_inv in HD as (D & HD & E8a & E8b).
  apply parses_cat_inv in Hg2 as (sd & cd & HS & HN).
  apply parses_star_chars_inv in HS as (S & HS & E9a & E9b).
  apply parses_plus_chars_inv in HN as (N & HN & E10a & E10b).
  apply parses_cat_inv in H as (s4 & c4 & Hw2 & H).
  apply parses_plus_chars_inv in Hw2 as (w2 & Hw2 & E11a & E11b).
  apply parses_plus_inv in H as (s5 & c5 & Hc & Hmore).
  apply parses_group_inv in Hc as (c5' & Hc & Ec5).
  apply coordinate_inv in Hc as (sg & ip & fp & Es4 & Hsg & Hip & Hfp & Ec5').
  subst.
  exists w0, d1, t1, w1, W, D, S, N, w2, (sg ++ ip ++ [46] ++ fp ++ s5).
  assert (G1 : take (length (d1 ++ t1 ++ w1 ++ W ++ D ++ S ++ N ++ w2 ++ sg ++ ip ++ [46] ++ fp ++ s5)
                     - length (w1 ++ W ++ D ++ S ++ N ++ w2 ++ sg ++ ip ++ [46] ++ fp ++ s5))
                  (d1 ++ t1 ++ w1 ++ W ++ D ++ S ++ N ++ w2 ++ sg ++ ip ++ [46] ++ fp ++ s5)
               = d1 ++ t1).
  { rewrite (app_assoc d1 t1). apply take_consumed. }
  assert (G2 : take (length (W ++ D ++ S ++ N ++ w2 ++ sg ++ ip ++ [46] ++ fp ++ s5)
                     - length (w2 ++ sg ++ ip ++ [46] ++ fp ++ s5))
                  (W ++ D ++ S ++ N ++ w2 ++ sg ++ ip ++ [46] ++ fp ++ s5)
               = W ++ D ++ S ++ N).
  { replace (W ++ D ++ S ++ N ++ w2 ++ sg ++ ip ++ [46] ++ fp ++ s5)
      with ((W ++ D ++ S ++ N) ++ w2 ++ sg ++ ip ++ [46] ++ fp ++ s5)
      by (by rewrite <- !app_assoc).
    apply take_consumed. }
  rewrite G1, G2 in Hmore.
  splits; auto.
  - by rewrite <- !app_assoc.
  - by exists sg, ip, fp, s5.
  - rewrite (parses_frame db 1 _ _ _ _ _ Hmore eq_refl).
    rewrite !lookup_insert_ne by lia. by rewrite lookup_insert_eq.
  - rewrite (parses_frame db 2 _ _ _ _ _ Hmore eq_refl).
    rewrite lookup_insert_ne by lia. by rewrite lookup_insert_eq.
Qed.

End PatternParses.

Section PatternGroups.
Variable db : unicode_db.
Hypothesis ok : db_ok db.

Lemma run_all_in k l : run db k l -> all_in db k l.
Proof. by intros [H _]. Qed.

Lemma run_app_l k l1 l2 : run db k l1 -> all_in db k l2 -> run db k (l1 ++ l2).
Proof.
  intros [H1 Hne] H2. split; [by apply Forall_app|].
  destruct l1; [done | discriminate].
Qed.

Lemma run_app_r k l1 l2 : all_in db k l1 -> run db k l2 -> run db k (l1 ++ l2).
Proof.
  intros H1 [H2 Hne]. split; [by apply Forall_app|].
  destruct l1; [done | discriminate].
Qed.

Lemma digits_words l : all_in db CDigit l -> all_in db CWord l.
Proof. apply all_in_weaken. by apply digit_word. Qed.

Lemma digit_run_word l : run db CDigit l -> run db CWord l.
Proof. intros [H Hne]. split; [by apply digits_words | done]. Qed.

Lemma stops_space_coordinate R : starts_with_coordinate db R -> stops db CSpace R.
Proof.
  intros (sg & ip & fp & rest & -> & [-> | ->] & Hip & _); simpl.
  - apply (stops_run db CSpace CDigit); [done | by apply digit_not_space].
  - by apply minus_not_space.
Qed.

(** A digit run that is followed by neither a dot nor a blank cannot be
    both an atom number and the start of a coordinate. *)
Lemma number_is_no_coordinate N S r R :
  run db CDigit N -> run db CSpace S -> starts_with_coordinate db R ->
  R <> N ++ S ++ r.
Proof.
  intros HN HS (sg & ip & fp & rest & -> & Hsg & Hip & _) E.
  destruct Hsg as [-> | ->]; simpl in E.
  - apply (run_unique db CDigit) in E as [_ E];
      [ | by apply run_all_in | by apply run_all_in
        | by apply stops_cons, dot_not_digit
        | by apply (stops_run db CDigit CSpace); [|apply (space_not_digit db ok)] ].
    destruct HS as [HS Hne]. destruct HS as [|x S Hx _]; [done|].
    simpl in E. inversion E; subst. rewrite (dot_not_space db ok) in Hx. discriminate.
  - destruct HN as [HN Hne]. destruct HN as [|x N Hx _]; [done|].
    simpl in E. inversion E; subst. rewrite (minus_not_digit db ok) in Hx. discriminate.
Qed.


(** The groups of a well-formed atom line do not depend on how the engine
    splits it: the first is the residue token, the second runs from the
    atom name to the atom number. *)
Lemma pattern_groups_unique f R s' m :
  wf_fields db f -> starts_with_coordinate db R ->
  parses db pattern
    (resnum f ++ resname f ++ sep1 f ++ atomname f ++ sep2 f ++ atomnum f ++ sep3 f ++ R)
    ∅ s' m ->
  m !! 1%nat = Some (resnum f ++ resname f) /\
  m !! 2%nat = Some (atomname f ++ sep2 f ++ atomnum f).
Proof.
  destruct f as [ld rn rname S1 A S2 N S3]; simpl.
  intros (Hld & Hrn & Hrname & HS1 & HA & HS2 & HN & HS3) HR Hp.
  apply pattern_inv in Hp
    as (w0 & d1 & t1 & w1 & W & D & S & N' & w2 & R' & E & Hw0 & Hd1 & Ht1 & Hw1
        & HW & HD & HS & HN' & Hw2 & HR' & -> & ->).
  pose proof (digit_not_space db ok) as Hds.
  pose proof (word_not_space db ok) as Hws.
  pose proof (space_not_word db ok) as Hsw.
  pose proof (space_not_digit db ok) as Hsd.
  (* no leading blank *)
  assert (E0 : [] ++ (rn ++ rname ++ S1 ++ A ++ S2 ++ N ++ S3 ++ R)
               = w0 ++ ((d1 ++ t1) ++ w1 ++ (W ++ D ++ S ++ N') ++ w2 ++ R')) by exact E.
  apply (run_unique db CSpace) in E0 as [<- E0];
    [ | constructor | done
      | by apply (stops_run db CSpace CDigit)
      | rewrite <- app_assoc; by apply (stops_run db CSpace CDigit) ].
  clear E.
  (* the residue token *)
  rewrite (app_assoc rn rname) in E0.
  apply (run_unique db CWord) in E0 as [E1 E0];
    [ | by apply Forall_app; split; [apply digits_words, run_all_in | apply run_all_in]
      | by apply Forall_app; split; [apply digits_words, run_all_in | apply run_all_in]
      | by apply (stops_run db CWord CSpace)
      | by apply (stops_run db CWord CSpace) ].
  rewrite <- E1. split; [reflexivity|]. f_equal.
  (* the blanks after it *)
  apply (run_unique db CSpace) in E0 as [_ E0];
    [ | by apply run_all_in | by apply run_all_in
      | by apply (stops_run db CSpace CWord)
      | rewrite <- app_assoc; by apply (stops_run db CSpace CWord) ].
  rewrite <- !app_assoc in E0.
  destruct S as [|x S]; destruct S2 as [|y S2]; simpl in *.
  - (* atom name and number run together in both readings *)
    assert (E' : (W ++ D ++ N') ++ (w2 ++ R') = (A ++ N) ++ (S3 ++ R))
      by (rewrite <- !app_assoc; symmetry; exact E0).
    apply (run_unique db CWord) in E' as [E2 _];
      [ by rewrite E2
      | by apply Forall_app; split;
          [apply run_all_in | apply Forall_app; split; [apply digits_words | apply digits_words, run_all_in]]
      | by apply Forall_app; split; [apply run_all_in | apply digits_words, run_all_in]
      | by apply (stops_run db CWord CSpace)
      | by apply (stops_run db CWord CSpace) ].
  - (* the line separates them, the parse does not: the atom number would
       have to start a coordinate *)
    exfalso.
    assert (E' : (W ++ D ++ N') ++ (w2 ++ R') = A ++ (y :: S2) ++ N ++ S3 ++ R)
      by (rewrite <- !app_assoc; symmetry; exact E0).
    inversion HS2 as [|? ? Hy HS2']; subst.
    apply (run_unique db CWord) in E' as [_ E'];
      [ | by apply Forall_app; split;
            [apply run_all_in | apply Forall_app; split; [apply digits_words | apply digits_words, run_all_in]]
        | by apply run_all_in
        | by apply (stops_run db CWord CSpace)
        | by apply stops_cons, Hsw ].
    apply (run_unique db CSpace) in E' as [_ E'];
      [ | by apply run_all_in | by constructor
        | by apply stops_space_coordinate
        | by apply (stops_run db CSpace CDigit) ].
    by apply (number_is_no_coordinate N S3 R R' HN HS3 HR').
  - (* the parse separates them, the line does not: the first coordinate
       would have to be the atom number *)
    exfalso.
    inversion HS as [|? ? Hx HS']; subst.
    assert (E' : (W ++ D) ++ (x :: S) ++ N' ++ w2 ++ R' = (A ++ N) ++ (S3 ++ R))
      by (rewrite <- !app_assoc; symmetry; exact E0).
    apply (run_unique db CWord) in E' as [_ E'];
      [ | by apply Forall_app; split; [apply run_all_in | apply digits_words]
        | by apply Forall_app; split; [apply run_all_in | apply digits_words, run_all_in]
        | by apply stops_cons, Hsw
        | by apply (stops_run db CWord CSpace) ].
    apply (run_unique db CSpace) in E' as [_ E'];
      [ | by constructor | by apply run_all_in
        | by apply (stops_run db CSpace CDigit)
        | by apply stops_space_coordinate ].
    symmetry in E'.
    by apply (number_is_no_coordinate N' w2 R' R HN' Hw2 HR).
  - (* both separate them *)
    inversion HS as [|? ? Hx HS']; subst.
    inversion HS2 as [|? ? Hy HS2']; subst.
    assert (E' : (W ++ D) ++ (x :: S) ++ N' ++ w2 ++ R' = A ++ (y :: S2) ++ N ++ S3 ++ R)
      by (rewrite <- !app_assoc; symmetry; exact E0).
    apply (run_unique db CWord) in E' as [E2 E'];
      [ | by apply Forall_app; split; [apply run_all_in | apply digits_words]
        | by apply run_all_in
        | by apply stops_cons, Hsw
        | by apply stops_cons, Hsw ].
    apply (run_unique db CSpace) in E' as [E3 E'];
      [ | by constructor | by constructor
        | by apply (stops_run db CSpace CDigit)
        | by apply (stops_run db CSpace CDigit) ].
    apply (run_unique db CDigit) in E' as [E4 _];
      [ | by apply run_all_in | by apply run_all_in
        | by apply (stops_run db CDigit CSpace)
        | by apply (stops_run db CDigit CSpace) ].
    rewrite <- E2, <- E4. inversion E3; subst. by rewrite <- app_assoc.
Qed.

End PatternGroups.

Section AtomLines.
Variable db : unicode_db.
Hypothesis ok : db_ok db.

Lemma pattern_parses f R :
  wf_fields db f -> starts_with_coordinate db R ->
  exists s' m, parses db pattern
    (resnum f ++ resname f ++ sep1 f ++ atomname f ++ sep2 f ++ atomnum f ++ sep3 f ++ R)
    ∅ s' m.
Proof.
  destruct f as [ld rn rname S1 A S2 N S3]; simpl.
  intros (Hld & Hrn & Hrname & HS1 & HA & HS2 & HN & HS3)
         (sg & ip & fp & rest & -> & Hsg & Hip & Hfp).
  eexists _, _. unfold pattern.
  eapply P_cat; [apply P_star_nil|].
  eapply P_cat.
  { apply P_group. unfold residue_token.
    eapply P_cat; [by apply parses_plus_chars|]. by apply parses_plus_chars. }
  eapply P_cat; [by apply parses_plus_chars|].
  eapply P_cat.
  { apply P_group. unfold atom_token.
    eapply P_cat; [by apply parses_plus_chars|].
    eapply P_cat; [apply P_star_nil|].
    eapply P_cat; [by apply parses_star_chars|]. by apply parses_plus_chars. }
  eapply P_cat; [by apply parses_plus_chars|].
  eapply P_plus; [|apply P_star_nil].
  apply P_group. by apply coordinate_parses.
Qed.

(** On a well-formed atom line (already stripped) the pattern matches, the
    first group is the residue token and the second runs from the atom name
    to the atom number, whatever the coordinates are. *)
Lemma match_atom_line f R :
  wf_fields db f -> starts_with_coordinate db R ->
  exists m,
    re_match db pattern
      (resnum f ++ resname f ++ sep1 f ++ atomname f ++ sep2 f ++ atomnum f ++ sep3 f ++ R)
      = Some m /\
    group m 1 = resnum f ++ resname f /\
    group m 2 = atomname f ++ sep2 f ++ atomnum f.
Proof.
  intros Hf HR.
  destruct (re_match_determined db
              (fun m : captures => (m !! 1%nat, m !! 2%nat)) pattern
              (resnum f ++ resname f ++ sep1 f ++ atomname f ++ sep2 f
                      ++ atomnum f ++ sep3 f ++ R)
              (Some (resnum f ++ resname f),
               Some (atomname f ++ sep2 f ++ atomnum f)))
    as (m & Hm & Hg).
  - by apply pattern_parses.
  - intros s1 m1 Hp.
    destruct (pattern_groups_unique db ok f R s1 m1 Hf HR Hp) as [-> ->]. reflexivity.
  - exists m. inversion Hg as [[H1 H2]]. unfold group. rewrite H1, H2. auto.
Qed.

Lemma lstrip_spaces l r :
  all_in db CSpace l -> stops db CSpace r -> lstrip db (l ++ r) = r.
Proof.
  induction 1 as [|x l Hx _ IH]; intros Hr; simpl.
  - destruct r as [|y r]; [reflexivity|]. simpl in *. by rewrite Hr.
  - simpl in Hx. rewrite Hx. by apply IH.
Qed.

Lemma lstrip_app_nonspace u x v :
  isspace db x = false -> lstrip db (u ++ x :: v) = lstrip db u ++ x :: v.
Proof.
  intros Hx. induction u as [|y u IH]; simpl.
  - by rewrite Hx.
  - destruct (isspace db y); [exact IH | reflexivity].
Qed.

Lemma rstrip_app_nonspace a x b :
  isspace db x = false -> rstrip db (a ++ x :: b) = a ++ x :: rstrip db b.
Proof.
  intros Hx. unfold rstrip.
  rewrite reverse_app, reverse_cons, <- app_assoc. simpl.
  rewrite lstrip_app_nonspace by exact Hx.
  rewrite reverse_app, reverse_cons, reverse_involutive.
  by rewrite <- app_assoc.
Qed.

(** [strip] removes the leading blanks of an atom line and touches nothing
    up to the end of its first coordinate. *)
Lemma strip_atom_line f coords :
  wf_fields db f -> starts_with_coordinate db coords ->
  exists coords',
    strip db (atom_line f coords)
    = resnum f ++ resname f ++ sep1 f ++ atomname f ++ sep2 f ++ atomnum f
             ++ sep3 f ++ coords' /\
    starts_with_coordinate db coords'.
Proof.
  destruct f as [ld rn rname S1 A S2 N S3]; unfold atom_line; simpl.
  intros (Hld & Hrn & Hrname & HS1 & HA & HS2 & HN & HS3)
         (sg & ip & fp & rest & -> & Hsg & Hip & Hfp).
  unfold strip. rewrite lstrip_spaces;
    [ | exact Hld | by apply (stops_run db CSpace CDigit); [|apply (digit_not_space db ok)] ].
  destruct Hfp as [Hfp Hne].
  destruct (exists_last Hne) as (fp' & z & ->).
  apply Forall_app in Hfp as [Hfp' Hz]. inversion Hz as [|? ? Hz' _]; subst.
  exists (sg ++ ip ++ [46] ++ (fp' ++ [z]) ++ rstrip db rest). split.
  - replace (rn ++ rname ++ S1 ++ A ++ S2 ++ N ++ S3 ++ sg ++ ip ++ [46] ++ (fp' ++ [z]) ++ rest)
      with ((rn ++ rname ++ S1 ++ A ++ S2 ++ N ++ S3 ++ sg ++ ip ++ [46] ++ fp') ++ z :: rest)
      by (simpl; rewrite <- ?app_assoc; simpl; by rewrite <- ?app_assoc).
    rewrite rstrip_app_nonspace by (by apply (digit_not_space db ok)).
    simpl; rewrite <- ?app_assoc; simpl; by rewrite <- ?app_assoc.
  - exists sg, ip, (fp' ++ [z]), (rstrip db rest). splits; auto.
    split; [apply Forall_app; by split; [|constructor] | by destruct fp'].
Qed.

(** A well-formed atom line adds its identity tokens to the buffer. *)
Lemma line_tokens_wf f line :
  wf_atom_line db f line -> line_tokens db line = inr (identity_tokens f).
Proof.
  intros (Hf & coords & Hdec & Hc). unfold line_tokens. rewrite Hdec.
  destruct (strip_atom_line f coords Hf Hc) as (coords' & -> & Hc').
  destruct (match_atom_line f coords' Hf Hc') as (m & -> & -> & ->).
  reflexivity.
Qed.

End AtomLines.

Lemma unsnoc_snoc {A} (l : list A) (x : A) : unsnoc (l ++ [x]) = Some (l, x).
Proof. induction l as [|y l IH]; simpl; [reflexivity | by rewrite IH]. Qed.

Lemma unpack_lines name len lines last :
  unpack (name :: len :: lines ++ [last]) = Some (name, len, lines, last).
Proof. unfold unpack. by rewrite unsnoc_snoc. Qed.

Lemma ascii_db_ok : db_ok ascii_db.
Proof.
  split; simpl; try reflexivity.
  - intros c H. unfold ascii_isalnum. by rewrite H.
  - intros c. unfold ascii_isspace, ascii_isalnum, ascii_isdecimal. lia.
Qed.

Section GroHashLines.
Variable db : unicode_db.

Lemma gro_buf_tokens lines toks buf :
  tokens_of db lines toks -> gro_buf db lines buf = inr (buf ++ concat toks).
Proof.
  intros H. revert buf. induction H as [|l t lines toks Hl _ IH]; intros buf; simpl.
  - by rewrite app_nil_r.
  - rewrite Hl, IH. by rewrite <- app_assoc.
Qed.

Lemma gro_buf_inv lines : forall buf out,
  gro_buf db lines buf = inr out ->
  exists toks, tokens_of db lines toks /\ out = buf ++ concat toks.
Proof.
  induction lines as [|l lines IH]; simpl; intros buf out H.
  - inversion H; subst. exists []. split; [constructor | by rewrite app_nil_r].
  - destruct (line_tokens db l) as [e|t] eqn:El; [discriminate|].
    apply IH in H as (toks & Ht & ->).
    exists (t :: toks). split; [by constructor | by rewrite <- app_assoc].
Qed.

Lemma gro_buf_first_error good toks bad rest buf e :
  tokens_of db good toks -> line_tokens db bad = inl e ->
  gro_buf db (good ++ bad :: rest) buf = inl e.
Proof.
  intros H. revert buf. induction H as [|l t lines toks Hl _ IH]; intros buf Hb; simpl.
  - by rewrite Hb.
  - rewrite Hl. by apply IH.
Qed.

Lemma gro_buf_rejects lines buf :
  Exists (fun l => exists e, line_tokens db l = inl e) lines ->
  exists e, gro_buf db lines buf = inl e.
Proof.
  intros H. revert buf. induction H as [l lines [e He]|l lines _ IH]; intros buf; simpl.
  - rewrite He. eauto.
  - destruct (line_tokens db l) as [e|t]; [eauto | apply IH].
Qed.

Lemma unmatched_tokens line :
  unmatched db line -> exists l, decode line = Some l /\
                                 line_tokens db line = inl (ErrorParsingLine (strip db l)).
Proof.
  intros (l & Hd & Hm). exists l. split; [exact Hd|].
  unfold line_tokens. by rewrite Hd, Hm.
Qed.

(** [gro_hash] on a file whose lines are known. *)
Lemma gro_hash_lines file name len lines last :
  readlines file = name :: len :: lines ++ [last] ->
  gro_hash db file =
  match int_of_bytes len with
  | None => inl (ValueError "invalid literal for int() with base 10")
  | Some _ =>
    match gro_buf db lines [] with
    | inl e => inl e
    | inr buf =>
      match encode buf with
      | None => inl UnicodeEncodeError
      | Some b => inr (MD5.hexdigest (name ++ b))
      end
    end
  end.
Proof. intros H. unfold gro_hash. by rewrite H, unpack_lines. Qed.

End GroHashLines.

(** C10: the digest depends neither on the atom-count line nor on the last
    line.  Two files with the same title line and the same atom lines never
    get two different digests, and once both count lines are integers
    [gro_hash] returns the same result for both, whatever the counts (they
    are never compared with the number of atom lines) and whatever the last
    lines are. *)
Theorem gro_hash_ignores_count_and_last_line
  db file1 file2 name len1 len2 lines last1 last2 :
  readlines file1 = name :: len1 :: lines ++ [last1] ->
  readlines file2 = name :: len2 :: lines ++ [last2] ->
  (forall d1 d2, gro_hash db file1 = inr d1 -> gro_hash db file2 = inr d2 -> d1 = d2) /\
  (is_Some (int_of_bytes len1) -> is_Some (int_of_bytes len2) ->
   gro_hash db file1 = gro_hash db file2).
Proof.
  intros H1 H2.
  rewrite (gro_hash_lines db _ _ _ _ _ H1), (gro_hash_lines db _ _ _ _ _ H2).
  split.
  - intros d1 d2.
    destruct (int_of_bytes len1); [|discriminate].
    destruct (int_of_bytes len2); [|discriminate].
    congruence.
  - intros [n1 ->] [n2 ->]. reflexivity.
Qed.

Lemma gro_hash_ignores_count_and_last_line_witness :
  int_of_bytes (line_of "    3") = Some 3 /\
  int_of_bytes (line_of "   99") = Some 99 /\
  gro_hash ascii_db frame_a = gro_hash ascii_db frame_a_recounted.
Proof.
  split; [reflexivity|]. split; [reflexivity|].
  apply (gro_hash_ignores_count_and_last_line ascii_db frame_a frame_a_recounted
           (line_of "MD of 2 waters") (line_of "    3") (line_of "   99")
           [line_of "    1LYS      N    1   1.234   5.678  -9.012";
            line_of "    1LYS     H1    2   0.000   0.000   0.000";
            line_of "10000SOL     OW10000   1.000   2.000   3.000"]
           (line_of "   1.00000   1.00000   1.00000")
           (line_of "   0.00000   0.00000   0.00000")).
  - reflexivity.
  - reflexivity.
  - vm_compute. eauto.
  - vm_compute. eauto.
Defined.

(** C4: an atom line that the pattern does not match is never skipped.
    Whenever some atom line is unmatched [gro_hash] raises; the exception is
    the parsing error of the first such line when the count line is an
    integer and the lines before it are accepted; and a digest, when there
    is one, is computed from the tokens of every atom line, in order. *)
Theorem gro_hash_rejects_unmatched_line db file name len lines last :
  readlines file = name :: len :: lines ++ [last] ->
  (Exists (unmatched db) lines -> exists e, gro_hash db file = inl e) /\
  (forall good toks bad rest l,
     lines = good ++ bad :: rest -> tokens_of db good toks ->
     decode bad = Some l -> re_match db pattern (strip db l) = None ->
     is_Some (int_of_bytes len) ->
     gro_hash db file = inl (ErrorParsingLine (strip db l))) /\
  (forall d, gro_hash db file = inr d ->
     exists toks b, tokens_of db lines toks /\ encode (concat toks) = Some b /\
                    d = MD5.hexdigest (name ++ b)).
Proof.
  intros H. rewrite (gro_hash_lines db _ _ _ _ _ H). split; [|split].
  - intros Hex. destruct (int_of_bytes len); [|eauto].
    destruct (gro_buf_rejects db lines []) as [e ->]; [|eauto].
    eapply Exists_impl; [exact Hex|]. intros line Hu.
    apply unmatched_tokens in Hu as (l & _ & Hl). eauto.
  - intros good toks bad rest l -> Hgood Hd Hm [n ->].
    rewrite (gro_buf_first_error db good toks bad rest [] (ErrorParsingLine (strip db l)) Hgood);
      [reflexivity|].
    unfold line_tokens. by rewrite Hd, Hm.
  - intros d Hd. destruct (int_of_bytes len); [|discriminate].
    destruct (gro_buf db lines []) as [e|buf] eqn:Eb; [discriminate|].
    apply gro_buf_inv in Eb as (toks & Ht & ->). simpl in Hd.
    destruct (encode (concat toks)) as [b|] eqn:Ee; [|discriminate].
    inversion Hd. eauto.
Qed.

Lemma gro_hash_rejects_unmatched_line_witness :
  gro_hash ascii_db file_bad_line
  = inl (ErrorParsingLine (str_of_string "1LYS     CA        0.000   0.000   0.000")).
Proof.
  pose proof (gro_hash_rejects_unmatched_line ascii_db file_bad_line
           (line_of "one good, one bad") (line_of "    2")
           [line_of "    1LYS      N    1   1.234   5.678  -9.012";
            line_of "    1LYS     CA        0.000   0.000   0.000"]
           (line_of "   1.00000   1.00000   1.00000") eq_refl) as (_ & H & _).
  apply (H [line_of "    1LYS      N    1   1.234   5.678  -9.012"]
           [str_of_string "1LYSN1"]
           (line_of "    1LYS     CA        0.000   0.000   0.000") []
           (str_of_string "    1LYS     CA        0.000   0.000   0.000" ++ [10])).
  - reflexivity.
  - repeat constructor.
  - reflexivity.
  - reflexivity.
  - vm_compute. eauto.
Defined.

Lemma remove_spaces_app a b : remove_spaces (a ++ b) = remove_spaces a ++ remove_spaces b.
Proof. unfold remove_spaces. apply filter_app. Qed.

Lemma remove_spaces_Forall (P : Z -> Prop) l : Forall P l -> Forall P (remove_spaces l).
Proof.
  unfold remove_spaces. induction 1 as [|x l Hx _ IH]; [constructor|].
  rewrite filter_cons. destruct (decide (x ≠ 32)); [by constructor | exact IH].
Qed.

Lemma same_atom_tokens f g : same_atom f g -> identity_tokens f = identity_tokens g.
Proof.
  intros (H1 & H2 & H3 & H4 & H5). unfold identity_tokens.
  rewrite !remove_spaces_app, H1, H2, H3, H4, H5. reflexivity.
Qed.

Lemma same_atoms_tokens fs gs :
  Forall2 same_atom fs gs -> map identity_tokens fs = map identity_tokens gs.
Proof.
  induction 1 as [|f g fs gs H _ IH]; simpl; [reflexivity|].
  by rewrite (same_atom_tokens f g H), IH.
Qed.

Section GroHashDigest.
Variable db : unicode_db.
Hypothesis ok : db_ok db.

Lemma wf_atom_line_scalar f line :
  wf_atom_line db f line -> Forall scalar (identity_tokens f).
Proof.
  intros (_ & coords & Hd & _). apply decode_scalar in Hd.
  unfold atom_line in Hd. unfold identity_tokens.
  repeat (apply Forall_app in Hd as [? Hd]).
  repeat (apply Forall_app; split); try assumption.
  apply remove_spaces_Forall. repeat (apply Forall_app; split); assumption.
Qed.

Lemma wf_lines_tokens fields lines :
  Forall2 (wf_atom_line db) fields lines ->
  tokens_of db lines (map identity_tokens fields) /\
  Forall scalar (concat (map identity_tokens fields)).
Proof.
  induction 1 as [|f l fields lines Hf _ [IH1 IH2]]; simpl.
  - split; constructor.
  - split.
    + constructor; [by apply line_tokens_wf | exact IH1].
    + apply Forall_app. split; [by apply (wf_atom_line_scalar f l) | exact IH2].
Qed.

(** A file of well-formed atom lines has a digest: the MD5 of its title
    line followed by the identity tokens. *)
Lemma gro_hash_wf file name len lines last fields :
  readlines file = name :: len :: lines ++ [last] ->
  is_Some (int_of_bytes len) ->
  Forall2 (wf_atom_line db) fields lines ->
  exists b, encode (concat (map identity_tokens fields)) = Some b /\
            gro_hash db file = inr (MD5.hexdigest (name ++ b)).
Proof.
  intros Hr [n Hn] Hwf. apply wf_lines_tokens in Hwf as [Ht Hs].
  destruct (encode_scalar _ Hs) as [b Hb]. exists b. split; [exact Hb|].
  rewrite (gro_hash_lines db _ _ _ _ _ Hr), Hn, (gro_buf_tokens db _ _ _ Ht).
  simpl. by rewrite Hb.
Qed.

End GroHashDigest.


Ltac cls_true ok :=
  cbv [in_cls is_word];
  rewrite ?(ok_space _ ok), ?(ok_decimal _ ok), ?(ok_alnum _ ok) by lia;
  reflexivity.

Ltac norm_str :=
  repeat match goal with
  | |- context [str_of_string ?s] =>
    let v := eval vm_compute in (str_of_string s) in
    change (str_of_string s) with v
  end.

Ltac all_in_tac ok :=
  norm_str; unfold all_in; repeat (apply List.Forall_cons; [cls_true ok|]); apply List.Forall_nil.

Ltac run_tac ok := norm_str; split; [all_in_tac ok | discriminate].

Ltac wf_fields_tac ok :=
  unfold wf_fields, fields_of; simpl; norm_str;
  repeat match goal with
  | |- _ /\ _ => split
  | |- all_in _ _ _ => all_in_tac ok
  | |- run _ _ _ => run_tac ok
  end.

Section Samples.
Variable db : unicode_db.
Hypothesis ok : db_ok db.

Lemma wf_atom_line_intro f line coords sg ip fp rest :
  wf_fields db f -> decode line = Some (atom_line f coords) ->
  coords = sg ++ ip ++ [46] ++ fp ++ rest -> (sg = [] \/ sg = [45]) ->
  run db CDigit ip -> run db CDigit fp ->
  wf_atom_line db f line.
Proof.
  intros Hf Hd Hc Hsg Hip Hfp. split; [exact Hf|].
  exists coords. split; [exact Hd|]. by exists sg, ip, fp, rest.
Qed.

Ltac wf_line sg ip fp rest :=
  apply (wf_atom_line_intro _ _ (sg ++ ip ++ [46] ++ fp ++ rest) sg ip fp rest);
  [ wf_fields_tac ok | vm_compute; reflexivity | reflexivity | auto | run_tac ok | run_tac ok ].

Lemma file_H1_2_wf :
  wf_atom_line db atom_H1_2 (line_of "    1LYS     H1    2   0.000   0.000   0.000").
Proof.
  wf_line (@nil Z) (str_of_string "0") (str_of_string "000")
          (str_of_string "   0.000   0.000" ++ [10]).
Qed.

Lemma file_H_12_wf :
  wf_atom_line db atom_H_12 (line_of "    1LYS      H   12   0.000   0.000   0.000").
Proof.
  wf_line (@nil Z) (str_of_string "0") (str_of_string "000")
          (str_of_string "   0.000   0.000" ++ [10]).
Qed.

Lemma frame_a_wf :
  Forall2 (wf_atom_line db) frame_a_fields
    [line_of "    1LYS      N    1   1.234   5.678  -9.012";
     line_of "    1LYS     H1    2   0.000   0.000   0.000";
     line_of "10000SOL     OW10000   1.000   2.000   3.000"].
Proof.
  unfold frame_a_fields.
  apply List.Forall2_cons; [|apply List.Forall2_cons; [|apply List.Forall2_cons; [|apply List.Forall2_nil]]].
  - wf_line (@nil Z) (str_of_string "1") (str_of_string "234")
            (str_of_string "   5.678  -9.012" ++ [10]).
  - wf_line (@nil Z) (str_of_string "0") (str_of_string "000")
            (str_of_string "   0.000   0.000" ++ [10]).
  - wf_line (@nil Z) (str_of_string "1") (str_of_string "000")
            (str_of_string "   2.000   3.000" ++ [10]).
Qed.

Lemma frame_b_wf :
  Forall2 (wf_atom_line db) frame_b_fields
    [line_of "    1LYS      N    1  -0.500   0.250   7.125";
     line_of "    1LYS     H1    2   3.141   2.718   1.414";
     line_of "10000SOL     OW10000  -1.000  -2.000  -3.000"].
Proof.
  unfold frame_b_fields.
  apply List.Forall2_cons; [|apply List.Forall2_cons; [|apply List.Forall2_cons; [|apply List.Forall2_nil]]].
  - wf_line [45] (str_of_string "0") (str_of_string "500")
            (str_of_string "   0.250   7.125" ++ [10]).
  - wf_line (@nil Z) (str_of_string "3") (str_of_string "141")
            (str_of_string "   2.718   1.414" ++ [10]).
  - wf_line [45] (str_of_string "1") (str_of_string "000")
            (str_of_string "  -2.000  -3.000" ++ [10]).
Qed.

End Samples.

Lemma frames_same_atoms : Forall2 same_atom frame_a_fields frame_b_fields.
Proof. repeat constructor. Qed.



(** *** [run_cmd_commands] *)

Section ShellLoop.
Variable sh : shell.
Variable suppress : bool.

Lemma run_cmd_loop_success cmds : forall timings t,
  all_succeed sh (executed t) cmds ->
  all_decodable sh suppress (executed t) cmds ->
  exists t',
    run_cmd_loop sh suppress cmds timings t
    = (t', inr (timings_of sh (clock_reads t) cmds timings, ∅)) /\
    executed t' = executed t ++ cmds /\
    clock_reads t' = (clock_reads t + 2 * length cmds)%nat.
Proof.
  induction cmds as [|cmd rest IH]; intros timings t Hok Hdec; simpl.
  - exists t. rewrite app_nil_r. split; [reflexivity|]. split; [reflexivity | lia].
  - destruct Hok as [(out & err & Hrun) Hok]. destruct Hdec as [Hd Hdec].
    unfold spawn, read_clock, log_msg; simpl. rewrite Hrun in *. simpl in Hd.
    destruct suppress eqn:Es.
    + edestruct IH as (t' & -> & He & Hc); [exact Hok | exact Hdec |].
      exists t'. simpl in *. split; [reflexivity|].
      split; [by rewrite He, <- app_assoc | lia].
    + destruct (Hd eq_refl) as [text ->].
      edestruct IH as (t' & -> & He & Hc); [exact Hok | exact Hdec |].
      exists t'. simpl in *. split; [reflexivity|].
      split; [by rewrite He, <- app_assoc | lia].
Qed.

Lemma run_cmd_loop_failure done : forall cmd rest rc out err timings t,
  all_succeed sh (executed t) done ->
  sh_run sh (executed t ++ done) cmd = CalledProcessError rc out err ->
  all_decodable sh suppress (executed t) (done ++ [cmd]) ->
  exists t' text,
    decode out = Some text /\
    run_cmd_loop sh suppress (done ++ cmd :: rest) timings t
    = (t', inr (timings_of sh (clock_reads t) done timings, errors_of cmd text rc)) /\
    executed t' = executed t ++ done ++ [cmd].
Proof.
  induction done as [|c done IH]; intros cmd rest rc out err timings t Hok Hrun Hdec; simpl.
  - rewrite app_nil_r in Hrun. simpl in Hdec. destruct Hdec as [Hd _].
    unfold spawn, read_clock, log_msg; simpl. rewrite Hrun in *.
    destruct Hd as [[text Ht] Herr]. rewrite Ht.
    destruct suppress eqn:Es; simpl.
    + eexists _, text. split; [reflexivity|]. split; reflexivity.
    + destruct (Herr eq_refl) as [etext ->]. simpl.
      eexists _, text. split; [reflexivity|]. split; reflexivity.
  - destruct Hok as [(o & e & Hc) Hok]. destruct Hdec as [Hd Hdec].
    unfold spawn, read_clock, log_msg; simpl. rewrite Hc in *. simpl in Hd.
    destruct suppress eqn:Es.
    + edestruct (IH cmd rest rc out err) as (t' & text & Ht & -> & He);
        [exact Hok | simpl; by rewrite <- app_assoc | exact Hdec |].
      exists t', text. simpl in *. split; [exact Ht|]. split; [reflexivity|].
      by rewrite He, <- app_assoc.
    + destruct (Hd eq_refl) as [otext ->].
      edestruct (IH cmd rest rc out err) as (t' & text & Ht & -> & He);
        [exact Hok | simpl; by rewrite <- app_assoc | exact Hdec |].
      exists t', text. simpl in *. split; [exact Ht|]. split; [reflexivity|].
      by rewrite He, <- app_assoc.
Qed.

End ShellLoop.

(** C9, as amended: as long as the captured output that the function
    decodes is UTF-8, [run_cmd_commands] runs the commands in order and
    returns, without raising, at the first command that exits with a
    non-zero status: the timings of the commands before it, and an error
    record with the failing command, its decoded output and its return
    code; the commands after it are not run.  When every command succeeds
    the error record is empty and every command has its timing. *)
Theorem run_cmd_commands_first_failure sh suppress :
  (forall done cmd rest rc out err,
     all_succeed sh [] done ->
     sh_run sh done cmd = CalledProcessError rc out err ->
     all_decodable sh suppress [] (done ++ [cmd]) ->
     exists t text,
       decode out = Some text /\
       run_cmd_commands sh (done ++ cmd :: rest) suppress
       = (t, inr (timings_of sh 0 done ∅, errors_of cmd text rc)) /\
       executed t = done ++ [cmd]) /\
  (forall cmds,
     all_succeed sh [] cmds -> all_decodable sh suppress [] cmds ->
     exists t,
       run_cmd_commands sh cmds suppress = (t, inr (timings_of sh 0 cmds ∅, ∅)) /\
       executed t = cmds).
Proof.
  split.
  - intros done cmd rest rc out err Hok Hrun Hdec.
    destruct (run_cmd_loop_failure sh suppress done cmd rest rc out err ∅
                (ShellTrace [] 0 []) Hok Hrun Hdec) as (t & text & Ht & Hr & He).
    exists t, text. auto.
  - intros cmds Hok Hdec.
    destruct (run_cmd_loop_success sh suppress cmds ∅ (ShellTrace [] 0 []) Hok Hdec)
      as (t & Hr & He & _).
    exists t. auto.
Qed.

Lemma run_cmd_commands_first_failure_witness :
  exists t,
    run_cmd_commands sample_shell
      [str_of_string "pdb2gmx"; str_of_string "grompp"; str_of_string "mdrun"] true
    = (t, inr (timings_of sample_shell 0 [str_of_string "pdb2gmx"] ∅,
               errors_of (str_of_string "grompp") (str_of_string "no such file") 2)) /\
    executed t = [str_of_string "pdb2gmx"; str_of_string "grompp"].
Proof.
  destruct (proj1 (run_cmd_commands_first_failure sample_shell true)
              [str_of_string "pdb2gmx"] (str_of_string "grompp")
              [str_of_string "mdrun"] 2 (bytes_of_string "no such file") [])
    as (t & text & Ht & Hr & He).
  - simpl. split; [by exists [], [] | exact I].
  - reflexivity.
  - simpl. split; [discriminate|]. split; [|exact I].
    split; [by exists (str_of_string "no such file") | discriminate].
  - exists t. split; [|exact He].
    assert (text = str_of_string "no such file") as <-
      by (vm_compute in Ht; vm_compute; congruence).
    exact Hr.
Defined.

(** C9, the counterexample: a command that fails after writing the byte
    0xff.  Decoding its output raises, and the exception leaves
    [run_cmd_commands]. *)
Lemma run_cmd_commands_raises :
  sh_run binary_shell [] (str_of_string "gmx grompp") = CalledProcessError 1 [xff] [] /\
  snd (run_cmd_commands binary_shell [str_of_string "gmx grompp"] true)
  = inl UnicodeDecodeError.
Proof. split; reflexivity. Qed.

End OpsFacts.

(** ** [get_energies] *)

Module RewardFacts.
Import Py Reward.

Lemma assign_ok {A} (a : list A) i x :
  (i < length a)%nat -> assign a i x = inr (<[i := x]> a).
Proof. intros H. unfold assign. by rewrite (proj2 (Nat.ltb_lt _ _) H). Qed.

Section GetEnergies.
Variable protein : Type.
Variable process_md_output : protein -> gmap str bytes -> str -> protein * result bool.
Variable get_energy : protein -> str -> protein * result dataframe.
Variable get_rmsd : protein -> protein * result dataframe.
Variable is_run_valid : protein -> float -> str -> protein * result (bool * float).

Abbreviation state := (state protein).
Abbreviation iteration := (iteration protein process_md_output get_energy get_rmsd is_run_valid).
Abbreviation loop := (loop protein process_md_output get_energy get_rmsd is_run_valid).
Abbreviation verdict := (verdict protein process_md_output get_energy get_rmsd is_run_valid).
Abbreviation get_energies := (get_energies protein process_md_output get_energy get_rmsd is_run_valid).
Abbreviation state_before := (state_before protein process_md_output get_energy get_rmsd is_run_valid).
Abbreviation sized := (sized protein).
Abbreviation row s j := (row_of (energies protein s) (ev protein s) j).

(** One iteration never raises, keeps the lengths, writes at its own
    position only, and writes there what the verdict says. *)
Lemma iteration_spec n i uid resp (s : state) :
  sized n s -> (i < n)%nat ->
  exists s' o, iteration i uid resp s = (s', o) /\
    (o = Normal tt \/ o = Continue) /\
    sized n s' /\
    (forall j, j <> i -> row s' j = row s j) /\
    row s' i = row_after (verdict (prot protein s) resp) (row s i).
Proof.
  intros (L1 & L2 & L3 & L4 & L5) Hi. destruct s as [p en [iv ce re rm] lg]; simpl in *.
  unfold Reward.iteration, try_except, try_body, Reward.verdict, bind, call, lift; simpl.
  destruct (process_md_output p (md_output resp) (hotkey resp)) as [p1 [e|[|]]]; simpl;
    try (eexists _, _; split; [reflexivity|]; repeat split; auto; fail).
  destruct (bool_decide (status_code resp = Some 200)); simpl;
    try (eexists _, _; split; [reflexivity|]; repeat split; auto; fail).
  destruct (get_energy p1 (str_of_string "Potential")) as [p2 [e|df]]; simpl;
    try (eexists _, _; split; [reflexivity|]; repeat split; auto; fail).
  destruct (iloc_last df "energy") as [e|energy]; simpl;
    try (eexists _, _; split; [reflexivity|]; repeat split; auto; fail).
  destruct (get_rmsd p2) as [p3 [e|rf]]; simpl;
    try (eexists _, _; split; [reflexivity|]; repeat split; auto; fail).
  destruct (iloc_last rf "rmsd") as [e|rmsd]; simpl;
    try (eexists _, _; split; [reflexivity|]; repeat split; auto; fail).
  destruct (float_is_zero energy); simpl;
    try (eexists _, _; split; [reflexivity|]; repeat split; auto; fail).
  destruct (is_run_valid p3 energy (hotkey resp)) as [p4 [e|[valid checked]]]; simpl;
    try (eexists _, _; split; [reflexivity|]; repeat split; auto; fail).
  unfold set_energy, set_is_valid, set_checked_energy, set_reported_energy, set_rmsd,
    bind, get, lift, modify; simpl.
  repeat (rewrite assign_ok by (simpl; lia); simpl).
  eexists _, _; split; [reflexivity|]. simpl.
  split; [auto|]. split.
  { unfold Reward.sized; simpl. rewrite !length_insert. auto. }
  split.
  - intros j Hj. unfold row_of; simpl.
    rewrite !list_lookup_insert_ne by auto. reflexivity.
  - unfold row_of; simpl. rewrite !list_lookup_insert_eq by lia. reflexivity.
Qed.


Lemma loop_spec ws : forall i (s : state) n,
  sized n s -> (i + length ws <= n)%nat ->
  exists s', loop i ws s = (s', Normal tt) /\
    sized n s' /\
    (forall j, (j < i \/ i + length ws <= j)%nat -> row s' j = row s j) /\
    (forall k uid resp, ws !! k = Some (uid, resp) ->
       row s' (i + k) =
       row_after (verdict (prot protein (fst (loop i (take k ws) s))) resp)
                 (row s (i + k))).
Proof.
  induction ws as [|[uid resp] ws IH]; intros i s n Hs Hn; simpl in *.
  - exists s. split; [reflexivity|]. split; [exact Hs|]. split; [auto|].
    intros k ? ? Hk. by rewrite lookup_nil in Hk.
  - destruct (iteration_spec n i uid resp s Hs ltac:(lia))
      as (s1 & o & Hit & Ho & Hs1 & Hframe & Hrow).
    destruct (IH (S i) s1 n Hs1 ltac:(lia)) as (s' & Hl & Hs' & Hframe' & Hrows).
    exists s'. split.
    { rewrite Hit. destruct Ho as [-> | ->]; exact Hl. }
    split; [exact Hs'|]. split.
    + intros j Hj. rewrite Hframe' by lia. apply Hframe. lia.
    + intros k uid' resp' Hk. destruct k as [|k]; simpl in *.
      * inversion Hk; subst. rewrite Nat.add_0_r, Hframe' by lia. exact Hrow.
      * replace (i + S k)%nat with (S (i + k))%nat by lia.
        rewrite (Hrows k uid' resp' Hk), Hit.
        rewrite Hframe by lia.
        destruct Ho as [-> | ->]; reflexivity.
Qed.

Lemma zip_workers_lookup uids responses i uid resp :
  zip_workers uids responses !! i = Some (uid, resp) <->
  uids !! i = Some uid /\ responses !! i = Some resp.
Proof.
  unfold zip_workers. revert responses i.
  induction uids as [|u uids IH]; intros [|r responses] [|i]; simpl;
    try (split; [discriminate | intros [? ?]; discriminate]).
  - split; [intros H; inversion H; auto | intros [H1 H2]; congruence].
  - apply IH.
Qed.

Lemma zip_workers_length uids responses :
  (length (zip_workers uids responses) <= length uids)%nat.
Proof.
  unfold zip_workers. revert responses.
  induction uids as [|u uids IH]; intros [|r responses]; simpl; try lia.
  specialize (IH responses). lia.
Qed.

Lemma initial_sized p n : sized n (initial protein p n).
Proof. unfold Reward.sized, initial; simpl. by rewrite !length_replicate. Qed.

Lemma initial_row p n j : (j < n)%nat -> row (initial protein p n) j = invalid_row.
Proof.
  intros Hj. unfold row_of, initial, invalid_row; simpl.
  by rewrite !lookup_replicate_2.
Qed.

(** What [get_energies] returns, position by position. *)
Lemma get_energies_spec p responses uids :
  exists s out,
    get_energies p responses uids = (s, inr out) /\
    sized (length uids) s /\ out = (energies protein s, ev protein s) /\
    (forall i, (i < length uids)%nat -> responses !! i = None ->
       row_of out.1 out.2 i = invalid_row) /\
    (forall i uid resp, uids !! i = Some uid -> responses !! i = Some resp ->
       row_of out.1 out.2 i =
       row_after (verdict (prot protein (state_before p responses uids i)) resp)
                 invalid_row).
Proof.
  destruct (loop_spec (zip_workers uids responses) 0 (initial protein p (length uids))
              (length uids) (initial_sized p _) (zip_workers_length _ _))
    as (s & Hl & Hs & Hframe & Hrows).
  exists s, (energies protein s, ev protein s). unfold Reward.get_energies.
  rewrite Hl. split; [reflexivity|]. split; [exact Hs|]. split; [reflexivity|]. split.
  - intros i Hi Hnone. cbn [fst snd]. rewrite Hframe; [by apply initial_row|].
    right. change (0 + ?x)%nat with x. destruct (decide (i < length (zip_workers uids responses))%nat) as [Hlt|]; [|lia].
    apply lookup_lt_is_Some in Hlt as [[u r] Hur].
    apply zip_workers_lookup in Hur as [_ Hr]. congruence.
  - intros i uid resp Hu Hr. cbn [fst snd].
    assert (Hz : zip_workers uids responses !! i = Some (uid, resp))
      by (by apply zip_workers_lookup).
    specialize (Hrows i uid resp Hz). change (0 + i)%nat with i in Hrows.
    rewrite Hrows, initial_row by (by eapply lookup_lt_Some). reflexivity.
Qed.


(** C1, as amended: [get_energies] never raises and returns one entry per
    queried worker in each of the five arrays, in worker order.  The entry
    of the worker at position [i] is what the verdict on its response says:
    all zero and invalid when parsing, the status check or the zero-energy
    check fails or a step raises; and otherwise the checked energy, the
    reported energy and the RMSD of the run, with the validity flag of
    [is_run_valid] and with energy 0 when that flag is false.  An invalid
    entry always has energy 0.  A position without a response keeps its
    zeros. *)
Theorem get_energies_one_entry_per_worker p responses uids :
  exists s energies_out event_out,
    get_energies p responses uids = (s, inr (energies_out, event_out)) /\
    (length energies_out = length uids /\
     length (is_valid event_out) = length uids /\
     length (checked_energy event_out) = length uids /\
     length (reported_energy event_out) = length uids /\
     length (rmsds event_out) = length uids) /\
    (forall i uid resp, uids !! i = Some uid -> responses !! i = Some resp ->
       match verdict (prot protein (state_before p responses uids i)) resp with
       | None => row_of energies_out event_out i = invalid_row
       | Some (energy, rmsd, valid, checked) =>
         row_of energies_out event_out i =
         (Some (if valid then energy else zero), Some valid, Some checked,
          Some energy, Some rmsd)
       end) /\
    (forall i, (i < length uids)%nat -> responses !! i = None ->
       row_of energies_out event_out i = invalid_row) /\
    (forall i, is_valid event_out !! i = Some false ->
       energies_out !! i = Some zero).
Proof.
  destruct (get_energies_spec p responses uids)
    as (s & out & Hg & Hs & -> & Hnone & Hrows).
  exists s, (energies protein s), (ev protein s).
  split; [exact Hg|]. split; [exact Hs|]. cbn [fst snd] in *. split; [|split].
  - intros i uid resp Hu Hr. rewrite (Hrows i uid resp Hu Hr).
    destruct (verdict _ resp) as [[[[energy rmsd] valid] checked]|]; reflexivity.
  - exact Hnone.
  - intros i Hi.
    assert (Hlt : (i < length uids)%nat).
    { destruct Hs as (_ & <- & _). by eapply lookup_lt_Some. }
    destruct (responses !! i) as [resp|] eqn:Hr.
    + destruct (lookup_lt_is_Some_2 uids i Hlt) as [uid Hu].
      specialize (Hrows i uid resp Hu Hr).
      destruct (verdict _ resp) as [[[[energy rmsd] [|]] checked]|];
        unfold row_of, row_after, invalid_row in Hrows; congruence.
    + specialize (Hnone i Hlt Hr).
      unfold row_of, invalid_row in Hnone. congruence.
Qed.

(** C5: a worker whose response parses and whose last potential energy is
    zero gets an invalid, all-zero entry, whatever else it returned. *)
Theorem get_energies_zero_energy_sentinel p responses uids i uid resp p1 p2 df energy :
  uids !! i = Some uid -> responses !! i = Some resp ->
  process_md_output (prot protein (state_before p responses uids i))
                    (md_output resp) (hotkey resp) = (p1, inr true) ->
  get_energy p1 (str_of_string "Potential") = (p2, inr df) ->
  iloc_last df "energy" = inr energy ->
  float_is_zero energy = true ->
  exists s out, get_energies p responses uids = (s, inr out) /\
                row_of out.1 out.2 i = invalid_row.
Proof.
  intros Hu Hr Hp He Hl Hz.
  destruct (get_energies_spec p responses uids)
    as (s & out & Hg & _ & _ & _ & Hrows).
  exists s, out. split; [exact Hg|]. rewrite (Hrows i uid resp Hu Hr).
  unfold Reward.verdict. rewrite Hp.
  destruct (bool_decide (status_code resp = Some 200)); [|reflexivity].
  rewrite He, Hl. destruct (get_rmsd p2) as [p3 [e|rf]]; [reflexivity|].
  destruct (iloc_last rf "rmsd"); [reflexivity|]. by rewrite Hz.
Qed.

(** C6: a worker whose response does not carry status 200 gets an invalid,
    all-zero entry, whatever its payload is. *)
Theorem get_energies_bad_status p responses uids i uid resp :
  uids !! i = Some uid -> responses !! i = Some resp ->
  status_code resp <> Some 200 ->
  exists s out, get_energies p responses uids = (s, inr out) /\
                row_of out.1 out.2 i = invalid_row.
Proof.
  intros Hu Hr Hst.
  destruct (get_energies_spec p responses uids)
    as (s & out & Hg & _ & _ & _ & Hrows).
  exists s, out. split; [exact Hg|]. rewrite (Hrows i uid resp Hu Hr).
  unfold Reward.verdict.
  destruct (process_md_output _ _ _) as [p1 [e|[|]]]; try reflexivity.
  by rewrite bool_decide_eq_false_2.
Qed.

End GetEnergies.

Lemma get_energies_zero_energy_sentinel_witness :
  float_is_zero (S754_zero true) = true /\
  exists s out, sample_get_energies = (s, inr out) /\
                row_of out.1 out.2 2 = invalid_row.
Proof.
  split; [reflexivity|].
  apply (get_energies_zero_energy_sentinel str sample_process sample_energy
           sample_rmsd sample_valid [] sample_responses sample_uids 2 11
           (Response ∅ (str_of_string "C") (Some 200))
           (str_of_string "C") (str_of_string "C")
           [ {["energy"%string := minus_542_5]}; {["energy"%string := S754_zero true]} ]
           (S754_zero true));
    reflexivity.
Defined.

Lemma get_energies_bad_status_witness :
  exists s out, sample_get_energies = (s, inr out) /\
                row_of out.1 out.2 1 = invalid_row.
Proof.
  apply (get_energies_bad_status str sample_process sample_energy
           sample_rmsd sample_valid [] sample_responses sample_uids 1 10
           (Response ∅ (str_of_string "B") (Some 500)));
    [reflexivity | reflexivity | discriminate].
Defined.

(** C1, the counterexample: worker A reports the energy -542.5 and the RMSD
    1.25, and [is_run_valid] rejects the run with the checked energy 1.25.
    The entry of A is invalid and its energy is 0, but [checked_energy],
    [reported_energy] and [rmsds] hold the values of the rejected run at its
    position, not 0. *)
Lemma get_energies_keeps_rejected_diagnostics :
  snd sample_rejected =
  inr ([zero; zero; zero; zero],
       Event [false; false; false; false]
             [plus_1_25; zero; zero; zero]
             [minus_542_5; zero; zero; zero]
             [plus_1_25; zero; zero; zero]) /\
  float_is_zero plus_1_25 = false /\ float_is_zero minus_542_5 = false.
Proof. split; [vm_compute; reflexivity|]. split; reflexivity. Qed.

(** The sample round: one valid entry, and a parser that raises on the last
    response without disturbing the others. *)
Example sample_round :
  snd sample_get_energies =
  inr ([minus_542_5; zero; zero; zero],
       Event [true; false; false; false]
             [minus_542_5; zero; zero; zero]
             [minus_542_5; zero; zero; zero]
             [plus_1_25; zero; zero; zero]).
Proof. vm_compute. reflexivity. Qed.

End RewardFacts.

(** ** [forward] *)

Module ForwardFacts.
Import Py Forward.

(** *** Which [Protein] calls a block of statements makes *)

Section Calls.
Variable world : env.
Variable cfg : config.

Variable P : protein_args -> Prop.

Lemma calls_none {A} (m : stmt state A) :
  (forall s, constructed (tr (fst (m s))) = constructed (tr s)) -> calls_only P m.
Proof. intros H s. exists []. rewrite app_nil_r. split; [apply H | constructor]. Qed.

Lemma calls_bind {A B} (m : stmt state A) (k : A -> stmt state B) :
  calls_only P m -> (forall a, calls_only P (k a)) -> calls_only P (bind m k).
Proof.
  intros Hm Hk s. unfold bind. destruct (Hm s) as (l1 & E1 & F1).
  destruct (m s) as [s1 [a| | |e]]; simpl in *; eauto.
  destruct (Hk a s1) as (l2 & E2 & F2). exists (l1 ++ l2).
  rewrite E2, E1, <- app_assoc. split; [reflexivity | by apply Forall_app].
Qed.

Lemma calls_try_except {A} (m : stmt state A) (h : exn -> stmt state A) :
  calls_only P m -> (forall e, calls_only P (h e)) -> calls_only P (try_except m h).
Proof.
  intros Hm Hh s. unfold try_except. destruct (Hm s) as (l1 & E1 & F1).
  destruct (m s) as [s1 [a| | |e]]; simpl in *; eauto.
  destruct (Hh e s1) as (l2 & E2 & F2). exists (l1 ++ l2).
  rewrite E2, E1, <- app_assoc. split; [reflexivity | by apply Forall_app].
Qed.

Lemma calls_try_finally {A} (m : stmt state A) (f : stmt state unit) :
  calls_only P m -> calls_only P f -> calls_only P (try_finally m f).
Proof.
  intros Hm Hf s. unfold try_finally. destruct (Hm s) as (l1 & E1 & F1).
  destruct (m s) as [s1 o]; simpl in *.
  destruct (Hf s1) as (l2 & E2 & F2). exists (l1 ++ l2).
  split; [|by apply Forall_app].
  destruct (f s1) as [s2 [[]| | |e]]; simpl in *; by rewrite E2, E1, <- app_assoc.
Qed.

Lemma calls_ret {A} (a : A) : calls_only P (ret a).
Proof. by apply calls_none. Qed.

Lemma calls_lift {A} (r : result A) : calls_only P (lift r).
Proof. apply calls_none. by destruct r. Qed.

Lemma calls_read_local {A} name (field : locals -> option A) :
  calls_only P (read_local name field).
Proof. apply calls_none. intros s. unfold read_local. by destruct (field (vars s)). Qed.

Lemma calls_now : calls_only P (now world).
Proof. by apply calls_none. Qed.

Lemma calls_log_event e : calls_only P (log_event e).
Proof. by apply calls_none. Qed.

Lemma calls_set_event e : calls_only P (set_event e).
Proof. by apply calls_none. Qed.

Lemma calls_event_setitem key v : calls_only P (event_setitem key v).
Proof.
  apply calls_bind; [apply calls_read_local | intros; apply calls_set_event].
Qed.

Lemma calls_event_update d : calls_only P (event_update d).
Proof.
  apply calls_bind; [apply calls_read_local | intros; apply calls_set_event].
Qed.

Lemma calls_pinned_or_sampled pinned sampled key :
  calls_only P (pinned_or_sampled pinned sampled key).
Proof. destruct pinned; [apply calls_ret | apply calls_lift]. Qed.

Lemma calls_construct r j a : P a -> calls_only P (construct world r j a).
Proof.
  intros Ha s. exists [a]. split; [|by repeat constructor].
  unfold construct, bind, modify, lift; simpl.
  by destruct (new_protein world r j a).
Qed.

Lemma calls_dispatch r p : calls_only P (dispatch world r p).
Proof.
  apply calls_none. intros s. unfold dispatch, bind, modify, lift; simpl.
  by destruct (run_step world r p).
Qed.

Hypothesis configured : forall f w b, P (ProteinArgs (protein_pdb_id cfg) f w b).

Lemma calls_attempt r j pdb_id t0 : calls_only P (attempt world cfg r j pdb_id t0).
Proof.
  unfold attempt.
  apply calls_bind; [apply calls_now | intros t].
  apply calls_bind; [apply calls_set_event | intros _].
  apply calls_try_finally.
  - apply calls_try_except.
    + unfold attempt_try.
      apply calls_bind; [apply calls_lift | intros sampled].
      apply calls_bind; [by apply calls_none | intros _].
      apply calls_bind; [apply calls_pinned_or_sampled | intros a_ff].
      apply calls_bind; [apply calls_pinned_or_sampled | intros a_water].
      apply calls_bind; [apply calls_pinned_or_sampled | intros a_box].
      apply calls_bind; [apply calls_construct, configured | intros p].
      apply calls_bind; [by apply calls_none | intros _].
      apply calls_bind; [apply calls_lift | intros bd].
      apply calls_bind; [by apply calls_none | intros _].
      destruct (protein_forward world r j p); by apply calls_none.
    + intros e. unfold attempt_except.
      apply calls_bind; [apply calls_read_local | intros _].
      apply calls_event_setitem.
  - unfold attempt_finally.
    apply calls_bind; [apply calls_event_setitem | intros _].
    apply calls_bind; [apply calls_read_local | intros h].
    apply calls_bind; [apply calls_event_update | intros _].
    apply calls_bind; [apply calls_now | intros t1].
    apply calls_bind; [apply calls_event_setitem | intros _].
    apply calls_bind; [apply calls_now | intros t2].
    apply calls_bind; [apply calls_event_setitem | intros _].
    apply calls_bind; [apply calls_read_local | intros e].
    destruct (e !! "validator_search_status"%string).
    + apply calls_log_event.
    + apply calls_bind; [apply calls_event_setitem | intros _]. by apply calls_none.
Qed.

Lemma calls_for_loop r pdb_id t0 n : forall j,
  calls_only P (for_loop world cfg r j n pdb_id t0).
Proof.
  induction n as [|n IH]; intros j; simpl.
  - apply calls_ret.
  - intros s. destruct (calls_attempt r j pdb_id t0 s) as (l1 & E1 & F1).
    destruct (attempt world cfg r j pdb_id t0 s) as [s1 [[]| | |e]]; simpl in *; eauto.
    + destruct (IH (S j) s1) as (l2 & E2 & F2). exists (l1 ++ l2).
      rewrite E2, E1, <- app_assoc. split; [reflexivity | by apply Forall_app].
    + destruct (IH (S j) s1) as (l2 & E2 & F2). exists (l1 ++ l2).
      rewrite E2, E1, <- app_assoc. split; [reflexivity | by apply Forall_app].
Qed.

Lemma calls_round r : calls_only P (round world cfg r).
Proof.
  unfold round.
  apply calls_bind; [apply calls_now | intros t].
  apply calls_bind; [apply calls_lift | intros total].
  apply calls_bind; [apply calls_for_loop | intros _].
  apply calls_bind; [apply calls_read_local | intros e].
  apply calls_bind; [apply calls_lift | intros status].
  assert (Hgo : calls_only P
    (bind (read_local "protein" the_protein) (fun p =>
     bind (dispatch world r p) (fun miner_event =>
     bind (event_update miner_event) (fun _ =>
     bind (now world) (fun t1 =>
     bind (event_setitem "forward_time" (PFloat (fsub t1 t))) (fun _ =>
     bind (read_local "event" event) (fun e0 => log_event e0)))))))).
  { apply calls_bind; [apply calls_read_local | intros p].
    apply calls_bind; [apply calls_dispatch | intros miner_event].
    apply calls_bind; [apply calls_event_update | intros _].
    apply calls_bind; [apply calls_now | intros t1].
    apply calls_bind; [apply calls_event_setitem | intros _].
    apply calls_bind; [apply calls_read_local | intros e0].
    apply calls_log_event. }
  destruct status as [|[|]| | | |]; try exact Hgo. by apply calls_none.
Qed.

Lemma calls_forward fuel : forall r, calls_only P (forward world cfg fuel r).
Proof.
  induction fuel as [|fuel IH]; intros r; simpl.
  - apply calls_ret.
  - intros s. destruct (calls_round r s) as (l1 & E1 & F1).
    destruct (round world cfg r s) as [s1 [[]| | |e]]; simpl in *; eauto.
    + destruct (IH (S r) s1) as (l2 & E2 & F2). exists (l1 ++ l2).
      rewrite E2, E1, <- app_assoc. split; [reflexivity | by apply Forall_app].
    + destruct (IH (S r) s1) as (l2 & E2 & F2). exists (l1 ++ l2).
      rewrite E2, E1, <- app_assoc. split; [reflexivity | by apply Forall_app].
Qed.

End Calls.

(** However the collaborators behave, every [Protein] is built with
    [pdb_id = self.config.protein.pdb_id]. *)
Lemma forward_protein_pdb_id world cfg fuel :
  Forall (fun a => arg_pdb_id a = protein_pdb_id cfg)
         (constructed (tr (fst (forward world cfg fuel 0 start)))).
Proof.
  destruct (calls_forward world cfg (fun a => arg_pdb_id a = protein_pdb_id cfg)
              ltac:(reflexivity) fuel 0%nat start) as (l & -> & Hl).
  exact Hl.
Qed.

Section Loop.
Variable world : env.
Variable cfg : config.

Abbreviation attempt := (attempt world cfg).
Abbreviation for_loop := (for_loop world cfg).
Abbreviation round := (round world cfg).
Abbreviation forward := (forward world cfg).
Abbreviation fails_preparation := (fails_preparation world cfg).

Lemma args_of_pinned_or_sampled sampled a (s : state) :
  args_of cfg sampled = inr a ->
  pinned_or_sampled (protein_ff cfg) sampled "FF" s = (s, Normal (arg_ff a)) /\
  pinned_or_sampled (protein_water cfg) sampled "WATER" s = (s, Normal (arg_water a)) /\
  pinned_or_sampled (protein_box cfg) sampled "BOX" s = (s, Normal (arg_box a)) /\
  a = ProteinArgs (protein_pdb_id cfg) (arg_ff a) (arg_water a) (arg_box a).
Proof.
  unfold args_of, pinned_or_sampled, getitem, lift, ret.
  destruct (protein_ff cfg), (sampled !! "FF"%string),
           (protein_water cfg), (sampled !! "WATER"%string),
           (protein_box cfg), (sampled !! "BOX"%string);
    intros H; inversion H; subst; simpl; auto.
Qed.

(** An attempt that fails in preparation logs one event, marked as failed,
    and goes on to the next combination. *)
Lemma attempt_fails r j pdb_id t0 (s : state) :
  fails_preparation r j ->
  exists s' e,
    attempt r j pdb_id t0 s = (s', Normal tt) /\
    logged_events (tr s') = logged_events (tr s) ++ [e] /\
    e !! "validator_search_status"%string = Some (PBool false) /\
    e !! "pdb_id"%string = Some (PStr pdb_id) /\
    dispatched (tr s') = dispatched (tr s) /\
    event (vars s') = Some e.
Proof.
  intros (sampled & a & p & exn_ & Hs & Ha & Hp & [bd Hbd] & Hf).
  destruct (args_of_pinned_or_sampled sampled a
              (State (Locals (Some ∅) (Some sampled) (the_protein (vars s)) (hps (vars s)))
                     (Trace (S (clock (tr s))) (logged_events (tr s))
                            (constructed (tr s)) (dispatched (tr s)))) Ha)
    as (Hff & Hwater & Hbox & Hargs).
  destruct s as [[ev sc pr hp] [ck lg cs ds]]; simpl in *.
  unfold Forward.attempt, try_finally, try_except, attempt_try, bind, now, set_event,
    modify, lift; simpl.
  rewrite Hs. unfold set_sampled_combination, ret, modify; simpl.
  rewrite Hff, Hwater, Hbox. unfold construct, bind, modify, lift; simpl.
  rewrite <- Hargs, Hp. unfold ret, set_protein, modify, getitem; simpl.
  rewrite Hbd. simpl. unfold set_hps, modify; simpl. rewrite Hf.
  unfold raise, attempt_except, attempt_finally, event_setitem, event_update, bind,
    read_local, set_event, modify, now, log_event; simpl.
  rewrite lookup_insert_ne by done. rewrite lookup_insert_ne by done.
  rewrite lookup_union_r by (by rewrite !lookup_insert_ne by done).
  rewrite lookup_insert_ne by done. rewrite lookup_insert_eq. simpl.
  eexists _, _. split; [reflexivity|]. simpl. split; [reflexivity|].
  split; [|split; [|split; reflexivity]].
  - rewrite !lookup_insert_ne by done.
    rewrite lookup_union_r by (by rewrite !lookup_insert_ne by done).
    rewrite lookup_insert_ne by done. by rewrite lookup_insert_eq.
  - rewrite !lookup_insert_ne by done.
    rewrite lookup_union_r by (by rewrite !lookup_insert_ne by done).
    by rewrite lookup_insert_eq.
Qed.

Lemma for_loop_fails r pdb_id t0 n : forall j (s : state),
  (forall k, (k < n)%nat -> fails_preparation r (j + k)) ->
  exists s' evs,
    for_loop r j n pdb_id t0 s = (s', Normal tt) /\
    logged_events (tr s') = logged_events (tr s) ++ evs /\
    length evs = n /\
    Forall (fun e => e !! "validator_search_status"%string = Some (PBool false) /\
                     e !! "pdb_id"%string = Some (PStr pdb_id)) evs /\
    dispatched (tr s') = dispatched (tr s) /\
    event (vars s') = match last evs with Some e => Some e | None => event (vars s) end.
Proof.
  induction n as [|n IH]; intros j s Hall; simpl.
  - exists s, []. rewrite app_nil_r. repeat split; auto.
  - destruct (attempt_fails r j pdb_id t0 s) as (s1 & e & Ha & Hl & Hst & Hid & Hd & He).
    { specialize (Hall 0%nat ltac:(lia)). by rewrite Nat.add_0_r in Hall. }
    destruct (IH (S j) s1) as (s' & evs & Hf & Hl' & Hn & Hall' & Hd' & He').
    { intros k Hk. specialize (Hall (S k) ltac:(lia)).
      by replace (S j + k)%nat with (j + S k)%nat by lia. }
    exists s', (e :: evs). rewrite Ha. split; [exact Hf|].
    split; [by rewrite Hl', Hl, <- app_assoc|].
    split; [simpl; by rewrite Hn|].
    split; [by constructor|].
    split; [by rewrite Hd', Hd|].
    rewrite He', He, (last_cons e evs).
    by destruct (last evs).
Qed.

(** A round with at least one combination, all of which fail in
    preparation, logs one event per attempt, each marked as failed and with
    the structure id of the round, dispatches nothing and ends by
    [continue]. *)
Lemma round_unprepared r (s : state) total :
  total_combinations world r (parse_config cfg) = inr total ->
  (0 < total)%nat ->
  (forall j, (j < total)%nat -> fails_preparation r j) ->
  exists s' evs,
    round r s = (s', Continue) /\
    logged_events (tr s') = logged_events (tr s) ++ evs /\
    length evs = total /\
    Forall (fun e => e !! "validator_search_status"%string = Some (PBool false) /\
                     e !! "pdb_id"%string = Some (PStr (choose_pdb_id world cfg r))) evs /\
    dispatched (tr s') = dispatched (tr s).
Proof.
  intros Ht Hpos Hall.
  destruct (for_loop_fails r (choose_pdb_id world cfg r)
              (time_time world (clock (tr s))) total 0
              (State (vars s) (Trace (S (clock (tr s))) (logged_events (tr s))
                                     (constructed (tr s)) (dispatched (tr s)))))
    as (s' & evs & Hf & Hl & Hn & Hev & Hd & He); [exact Hall|].
  assert (Hround : round r s = (s', Continue)).
  { unfold Forward.round, bind, now, lift; simpl. rewrite Ht. unfold ret; simpl.
    rewrite Hf. unfold read_local. rewrite He.
    destruct (last evs) as [e|] eqn:Hlast.
    - apply last_Some in Hlast as [evs' ->].
      apply Forall_app in Hev as [_ Hev]. inversion Hev as [|? ? [Hst _] _]; subst.
      unfold getitem. rewrite Hst. reflexivity.
    - apply last_None in Hlast. subst evs. simpl in Hn. lia. }
  exists s', evs. split; [exact Hround|]. simpl in Hl, Hd.
  split; [exact Hl|]. split; [exact Hn|]. split; [exact Hev | exact Hd].
Qed.

(** C8, as amended: when there is a combination and every combination of
    the round fails in preparation, the round logs one event per attempt,
    each with [validator_search_status = False] and the structure id of the
    round, dispatches nothing ([run_step] is not called) and ends by
    [continue]: the loop goes on with the next round.  The structure id of
    a round is the pinned id when one is pinned, and otherwise the draw of
    [select_random_pdb_id] in that round.  So the next round does not have
    to work on a new structure id: when its combinations fail as well, its
    events carry the pinned id again, or the id drawn in the next round,
    and still nothing is dispatched. *)
Theorem forward_skips_unprepared_round r (s : state) total :
  total_combinations world r (parse_config cfg) = inr total ->
  (0 < total)%nat ->
  (forall j, (j < total)%nat -> fails_preparation r j) ->
  exists s' evs,
    round r s = (s', Continue) /\
    logged_events (tr s') = logged_events (tr s) ++ evs /\
    length evs = total /\
    Forall (fun e => e !! "validator_search_status"%string = Some (PBool false) /\
                     e !! "pdb_id"%string
                     = Some (PStr (match protein_pdb_id cfg with
                                   | Some id => id
                                   | None => select_random_pdb_id world r
                                   end))) evs /\
    dispatched (tr s') = dispatched (tr s) /\
    (forall fuel, forward (S fuel) r s = forward fuel (S r) s') /\
    (forall total',
       total_combinations world (S r) (parse_config cfg) = inr total' ->
       (0 < total')%nat ->
       (forall j, (j < total')%nat -> fails_preparation (S r) j) ->
       exists s'' evs',
         round (S r) s' = (s'', Continue) /\
         logged_events (tr s'') = logged_events (tr s') ++ evs' /\
         length evs' = total' /\
         Forall (fun e => e !! "validator_search_status"%string = Some (PBool false) /\
                          e !! "pdb_id"%string
                          = Some (PStr (match protein_pdb_id cfg with
                                        | Some id => id
                                        | None => select_random_pdb_id world (S r)
                                        end))) evs' /\
         dispatched (tr s'') = dispatched (tr s)).
Proof.
  intros Ht Hpos Hall.
  destruct (round_unprepared r s total Ht Hpos Hall)
    as (s' & evs & Hround & Hl & Hn & Hev & Hd).
  exists s', evs. split; [exact Hround|].
  split; [exact Hl|]. split; [exact Hn|]. split; [exact Hev|]. split; [exact Hd|].
  split.
  - intros fuel. simpl. by rewrite Hround.
  - intros total' Ht' Hpos' Hall'.
    destruct (round_unprepared (S r) s' total' Ht' Hpos' Hall')
      as (s'' & evs' & Hround' & Hl' & Hn' & Hev' & Hd').
    exists s'', evs'. split; [exact Hround'|].
    split; [exact Hl'|]. split; [exact Hn'|]. split; [exact Hev'|].
    by rewrite Hd', Hd.
Qed.

End Loop.

Lemma forward_skips_unprepared_round_witness :
  exists s' evs s'' evs',
    Forward.round hopeless_pool unpinned 0 start = (s', Continue) /\
    length evs = 2%nat /\
    Forall (fun e => e !! "validator_search_status"%string = Some (PBool false) /\
                     e !! "pdb_id"%string = Some (PStr (str_of_string "1abc"))) evs /\
    (forall fuel, Forward.forward hopeless_pool unpinned (S fuel) 0 start
                  = Forward.forward hopeless_pool unpinned fuel 1 s') /\
    Forward.round hopeless_pool unpinned 1 s' = (s'', Continue) /\
    length evs' = 2%nat /\
    Forall (fun e => e !! "validator_search_status"%string = Some (PBool false) /\
                     e !! "pdb_id"%string = Some (PStr (str_of_string "2xyz"))) evs' /\
    logged_events (tr s'') = evs ++ evs' /\
    dispatched (tr s'') = [].
Proof.
  assert (Hfails : forall r j, Forward.fails_preparation hopeless_pool unpinned r j).
  { intros r j.
    exists (sample_combination j),
           (ProteinArgs None (PStr (if (j =? 0)%nat then str_of_string "amber03"
                                    else str_of_string "charmm27"))
                        (PStr (str_of_string "tip3p")) (PStr (str_of_string "cubic"))),
           (built (ProteinArgs None (PStr (if (j =? 0)%nat then str_of_string "amber03"
                                           else str_of_string "charmm27"))
                        (PStr (str_of_string "tip3p")) (PStr (str_of_string "cubic")))),
           (Raised "grompp failed").
    split; [reflexivity|]. split; [reflexivity|]. split; [reflexivity|].
    split; [by eexists | reflexivity]. }
  destruct (forward_skips_unprepared_round hopeless_pool unpinned 0 start 2)
    as (s' & evs & Hround & Hl & Hn & Hev & Hd & Hnext & Hthen).
  - reflexivity.
  - lia.
  - intros j _. apply Hfails.
  - destruct (Hthen 2%nat) as (s'' & evs' & Hround' & Hl' & Hn' & Hev' & Hd').
    + reflexivity.
    + lia.
    + intros j _. apply Hfails.
    + exists s', evs, s'', evs'.
      split; [exact Hround|]. split; [exact Hn|]. split; [exact Hev|].
      split; [exact Hnext|]. split; [exact Hround'|]. split; [exact Hn'|].
      split; [exact Hev'|]. split; [by rewrite Hl', Hl | exact Hd'].
Defined.

(** C8, the counterexample: the structure id 1abc is pinned and no
    combination can be prepared.  The pool would yield 2xyz from the second
    round on, but the next rounds work on 1abc again: three rounds log six
    failed events, all for 1abc, and dispatch nothing. *)
Lemma forward_retries_pinned_id :
  select_random_pdb_id hopeless_pool 1 = str_of_string "2xyz" /\
  map (fun e => e !! "pdb_id"%string)
      (logged_events (tr (fst (Forward.forward hopeless_pool pinned_1abc 3 0 start))))
  = replicate 6 (Some (PStr (str_of_string "1abc"))) /\
  map (fun e => e !! "validator_search_status"%string)
      (logged_events (tr (fst (Forward.forward hopeless_pool pinned_1abc 3 0 start))))
  = replicate 6 (Some (PBool false)) /\
  dispatched (tr (fst (Forward.forward hopeless_pool pinned_1abc 3 0 start))) = [].
Proof. vm_compute. repeat split. Qed.

(** C2, on the code: however the collaborators behave, every [Protein] is
    built with [pdb_id = self.config.protein.pdb_id].  So when nothing is
    pinned and the pool yields the structure 1abc, the round logs that id
    and dispatches its protein, but the [Protein] was built with
    [pdb_id=None], not with the id chosen for the round. *)
Theorem forward_builds_protein_without_chosen_id :
  (forall world cfg fuel,
     Forall (fun a => arg_pdb_id a = protein_pdb_id cfg)
            (constructed (tr (fst (Forward.forward world cfg fuel 0 start))))) /\
  choose_pdb_id calm_world unpinned 0 = str_of_string "1abc" /\
  map (fun e => e !! "pdb_id"%string)
      (logged_events (tr (fst (Forward.forward calm_world unpinned 1 0 start))))
  = [Some (PStr (str_of_string "1abc"))] /\
  map arg_pdb_id (constructed (tr (fst (Forward.forward calm_world unpinned 1 0 start))))
  = [None] /\
  length (dispatched (tr (fst (Forward.forward calm_world unpinned 1 0 start)))) = 1%nat.
Proof.
  split; [exact forward_protein_pdb_id|]. vm_compute. repeat split.
Qed.

(** C7, on the code: when the first [Protein] of the first round cannot be
    built, [hps] is not bound yet when the [finally] clause reads it: the
    [UnboundLocalError] leaves [forward] and no event has been logged.
    When a later [Protein] cannot be built, the event of that attempt
    carries the hyperparameters of the attempt before it. *)
Theorem forward_attempt_without_event :
  (snd (Forward.forward broken_first_protein unpinned 1 0 start)
   = Raise (UnboundLocalError "hps") /\
   logged_events (tr (fst (Forward.forward broken_first_protein unpinned 1 0 start))) = []) /\
  (sample_combination 1 !! "FF"%string = Some (PStr (str_of_string "charmm27")) /\
   map (fun e => e !! "FF"%string)
       (logged_events (tr (fst (Forward.forward broken_second_protein unpinned 1 0 start))))
   = [Some (PStr (str_of_string "amber03")); Some (PStr (str_of_string "amber03"))]).
Proof. vm_compute. repeat split. Qed.

End ForwardFacts.

(** ** [run_cmd_commands], whatever the shell does *)

Module CommandFacts.
Import Py Ops OpsFacts Commands.

Section AnyShell.
Variable sh : shell.

Lemma ends_cons before timings cmd d rest ran r :
  ends sh (before ++ [cmd]) (<[cmd := d]> timings) rest ran r ->
  ends sh before timings (cmd :: rest) (cmd :: ran) r.
Proof.
  destruct r as [e|[timings' errors]]; simpl.
  - intros [[-> _] | (done & c & rest' & -> & -> & Hr)].
    + left. split; [reflexivity | discriminate].
    + right. exists (cmd :: done), c, rest'.
      split; [reflexivity|]. split; [reflexivity|].
      by rewrite <- app_assoc in Hr.
  - intros [(-> & -> & Hdom)
           | (done & c & rest' & rc & o & e' & text & -> & -> & Hr & Hd & -> & Hdom)].
    + left. split; [reflexivity|]. split; [reflexivity|].
      rewrite Hdom, dom_insert_L. set_solver.
    + right. exists (cmd :: done), c, rest', rc, o, e', text.
      split; [reflexivity|]. split; [reflexivity|].
      split; [by rewrite <- app_assoc in Hr|].
      split; [exact Hd|]. split; [reflexivity|].
      rewrite Hdom, dom_insert_L. set_solver.
Qed.

Lemma ends_failure before timings cmd rest rc out err text :
  sh_run sh before cmd = CalledProcessError rc out err ->
  decode out = Some text ->
  ends sh before timings (cmd :: rest) [cmd] (inr (timings, errors_of cmd text rc)).
Proof.
  intros Hrun Hd. right. exists [], cmd, rest, rc, out, err, text.
  rewrite app_nil_r. repeat split; auto. set_solver.
Qed.

Lemma ends_raise before timings cmd rest :
  ends sh before timings (cmd :: rest) [cmd] (inl UnicodeDecodeError).
Proof. left. split; [reflexivity | discriminate]. Qed.

Lemma ends_refused before timings cmd rest e :
  sh_run sh before cmd = Raises e ->
  ends sh before timings (cmd :: rest) [cmd] (inl e).
Proof.
  intros Hrun. right. exists [], cmd, rest. rewrite app_nil_r.
  split; [reflexivity|]. split; [reflexivity | exact Hrun].
Qed.

(** Whatever the shell does, the loop hands it a prefix of the commands, in
    order, reads the clock at most twice per command, and ends in one of
    four ways. *)
Lemma run_cmd_loop_ends suppress cmds : forall timings t,
  exists ran,
    executed (fst (run_cmd_loop sh suppress cmds timings t)) = executed t ++ ran /\
    ran `prefix_of` cmds /\
    (clock_reads (fst (run_cmd_loop sh suppress cmds timings t))
     <= clock_reads t + 2 * length ran)%nat /\
    ends sh (executed t) timings cmds ran (snd (run_cmd_loop sh suppress cmds timings t)).
Proof.
  induction cmds as [|cmd rest IH]; intros timings t.
  - exists []. simpl. rewrite app_nil_r. split; [reflexivity|].
    split; [reflexivity|]. split; [lia|]. left.
    split; [reflexivity|]. split; [reflexivity|]. set_solver.
  - assert (Hone : [cmd] `prefix_of` cmd :: rest) by apply prefix_cons, prefix_nil.
    cbn [run_cmd_loop]. unfold spawn, read_clock, log_msg. cbn [executed clock_reads logged].
    destruct (sh_run sh (executed t) cmd) as [out err|rc out err|e] eqn:Hrun.
    + assert (Hgo : forall t1,
        executed t1 = executed t ++ [cmd] ->
        (clock_reads t1 = S (S (clock_reads t)))%nat ->
        let r := run_cmd_loop sh suppress rest
             (<[cmd := fsub (sh_time sh (S (clock_reads t))) (sh_time sh (clock_reads t))]> timings) t1 in
        exists ran,
          executed (fst r) = executed t ++ ran /\ ran `prefix_of` cmd :: rest /\
          (clock_reads (fst r) <= clock_reads t + 2 * length ran)%nat /\
          ends sh (executed t) timings (cmd :: rest) ran (snd r)).
      { intros t1 He Hc r. subst r.
        destruct (IH (<[cmd := fsub (sh_time sh (S (clock_reads t))) (sh_time sh (clock_reads t))]> timings) t1)
          as (ran & Hex & Hpre & Hclk & Hres).
        exists (cmd :: ran). rewrite Hex, He, <- app_assoc. split; [reflexivity|].
        split; [by apply prefix_cons|]. split; [simpl; lia|].
        eapply ends_cons. rewrite <- He. exact Hres. }
      destruct suppress; [apply Hgo; reflexivity|].
      destruct (decode out) as [text|]; [apply Hgo; reflexivity|].
      exists [cmd]. cbn [fst snd executed clock_reads].
      split; [reflexivity|]. split; [exact Hone|]. split; [simpl; lia|].
      apply ends_raise.
    + assert (Hstop : forall t1 : shell_trace,
        executed t1 = executed t ++ [cmd] -> (clock_reads t1 = S (clock_reads t))%nat ->
        let r : shell_trace * result (gmap str float * gmap string pyval) :=
          match decode out with
          | None => (t1, inl UnicodeDecodeError)
          | Some text => (t1, inr (timings, errors_of cmd text rc))
          end in
        exists ran,
          executed (fst r) = executed t ++ ran /\ ran `prefix_of` cmd :: rest /\
          (clock_reads (fst r) <= clock_reads t + 2 * length ran)%nat /\
          ends sh (executed t) timings (cmd :: rest) ran (snd r)).
      { intros t1 He Hc r. subst r. exists [cmd].
        destruct (decode out) as [text|] eqn:Hd; cbn [fst snd];
          (split; [exact He|]; split; [exact Hone|]; split; [simpl; lia|]).
        - by eapply ends_failure.
        - apply ends_raise. }
      destruct suppress; cbn [fmap option_fmap option_map]; [apply Hstop; reflexivity|].
      destruct (decode err) as [etext|]; cbn [fmap option_fmap option_map];
        [apply Hstop; reflexivity|].
      exists [cmd]. cbn [fst snd executed clock_reads].
      split; [reflexivity|]. split; [exact Hone|]. split; [simpl; lia|].
      apply ends_raise.
    + exists [cmd]. cbn [fst snd executed clock_reads].
      split; [reflexivity|]. split; [exact Hone|]. split; [simpl; lia|].
      by apply ends_refused.
Qed.

(** What the flag [suppress_cmd_output] changes: with it the outputs are not
    logged, so they are not decoded.  A run that returns without it returns
    the same with it. *)
Lemma run_cmd_loop_quiet cmds : forall timings t1 t2 r t,
  executed t1 = executed t2 -> clock_reads t1 = clock_reads t2 ->
  run_cmd_loop sh false cmds timings t1 = (t, inr r) ->
  exists t', run_cmd_loop sh true cmds timings t2 = (t', inr r) /\
             executed t' = executed t /\ clock_reads t' = clock_reads t.
Proof.
  induction cmds as [|cmd rest IH]; intros timings t1 t2 r t He Hc.
  - simpl. intros H. inversion H; subst. eauto.
  - cbn [run_cmd_loop]. unfold spawn, read_clock, log_msg. cbn [executed clock_reads logged].
    rewrite <- He, <- Hc.
    destruct (sh_run sh (executed t1) cmd) as [out err|rc out err|e].
    + destruct (decode out) as [text|]; [|discriminate].
      intros H. eapply IH; [| |exact H]; simpl; congruence.
    + cbn [fmap option_fmap option_map].
      destruct (decode err) as [etext|]; cbn [fmap option_fmap option_map]; [|discriminate].
      destruct (decode out) as [text|]; [|discriminate].
      intros H. inversion H; subst. eexists. split; [reflexivity|].
      simpl. split; congruence.
    + discriminate.
Qed.

Lemma timings_of_other c cmds : forall k timings,
  c ∉ cmds -> timings_of sh k cmds timings !! c = timings !! c.
Proof.
  induction cmds as [|x cmds IH]; intros k timings Hc; simpl; [reflexivity|].
  apply not_elem_of_cons in Hc as [Hx Hc].
  rewrite IH by exact Hc. by rewrite lookup_insert_ne.
Qed.

Lemma timings_of_last c post pre : forall k timings,
  c ∉ post ->
  timings_of sh k (pre ++ c :: post) timings !! c
  = Some (fsub (sh_time sh (S (k + 2 * length pre))) (sh_time sh (k + 2 * length pre))).
Proof.
  induction pre as [|x pre IH]; intros k timings Hc; simpl.
  - rewrite timings_of_other by exact Hc.
    rewrite lookup_insert_eq. by rewrite Nat.add_0_r.
  - rewrite IH by exact Hc. do 3 f_equal; lia.
Qed.

Lemma timings_of_dom cmds : forall k timings,
  dom (timings_of sh k cmds timings) = dom timings ∪ list_to_set cmds.
Proof.
  induction cmds as [|x cmds IH]; intros k timings; simpl.
  - set_solver.
  - rewrite IH, dom_insert_L. set_solver.
Qed.

End AnyShell.

(** X1: whatever the commands do and write, [run_cmd_commands] hands the
    shell a prefix of the command list, in order, and reads the clock at
    most twice per command.  It ends in one of four ways: every command ran,
    the error record is empty and the timings have one key per distinct
    command; or a command failed, the error record describes it and the
    timings have the commands before it as keys; or decoding a captured
    output raised [UnicodeDecodeError]; or [subprocess.run] raised an
    exception other than [CalledProcessError] for the last command it was
    handed, and that exception leaves the function.  No other exception
    does. *)
Theorem run_cmd_commands_outcomes sh commands suppress :
  exists ran,
    executed (fst (run_cmd_commands sh commands suppress)) = ran /\
    ran `prefix_of` commands /\
    (clock_reads (fst (run_cmd_commands sh commands suppress)) <= 2 * length ran)%nat /\
    match snd (run_cmd_commands sh commands suppress) with
    | inr (timings, errors) =>
      (errors = ∅ /\ ran = commands /\ dom timings = list_to_set commands) \/
      (exists done cmd rest rc out err text,
         commands = done ++ cmd :: rest /\ ran = done ++ [cmd] /\
         sh_run sh done cmd = CalledProcessError rc out err /\
         decode out = Some text /\
         errors = errors_of cmd text rc /\
         dom timings = list_to_set done)
    | inl e =>
      (e = UnicodeDecodeError /\ ran <> []) \/
      (exists done cmd rest,
         commands = done ++ cmd :: rest /\ ran = done ++ [cmd] /\
         sh_run sh done cmd = Raises e)
    end.
Proof.
  unfold run_cmd_commands.
  destruct (run_cmd_loop_ends sh suppress commands ∅ (ShellTrace [] 0 []))
    as (ran & Hex & Hpre & Hclk & Hends).
  exists ran. split; [exact Hex|]. split; [exact Hpre|]. split; [exact Hclk|].
  unfold ends in Hends.
  destruct (snd (run_cmd_loop sh suppress commands ∅ (ShellTrace [] 0 [])))
    as [e|[timings errors]]; [exact Hends|].
  destruct Hends as [(He & Hr & Hdom)
                    | (done & cmd & rest & rc & out & err & text & H1 & H2 & H3 & H4 & H5 & Hdom)].
  - left. rewrite dom_empty_L, (left_id_L ∅ (∪)) in Hdom.
    split; [exact He|]. split; [exact Hr | exact Hdom].
  - right. exists done, cmd, rest, rc, out, err, text.
    rewrite dom_empty_L, (left_id_L ∅ (∪)) in Hdom.
    split; [exact H1|]. split; [exact H2|]. split; [exact H3|].
    split; [exact H4|]. split; [exact H5 | exact Hdom].
Qed.

(** A command that holds a NUL character in the middle of a list: the
    [ValueError] of [subprocess.run] leaves the function, after the command
    before it has run and before the command after it is started. *)
Example run_cmd_commands_refused :
  snd (run_cmd_commands strict_shell
         [str_of_string "pdb2gmx"; [103; 0; 109]; str_of_string "mdrun"] true)
  = inl (ValueError "embedded null byte") /\
  executed (fst (run_cmd_commands strict_shell
                   [str_of_string "pdb2gmx"; [103; 0; 109]; str_of_string "mdrun"] true))
  = [str_of_string "pdb2gmx"; [103; 0; 109]].
Proof. split; vm_compute; reflexivity. Qed.

(** X2: the flag [suppress_cmd_output] changes what is logged, not what is
    done: when the call that logs the outputs returns, the call that
    suppresses them runs the same commands, reads the clock as often and
    returns the same timings and the same error record. *)
Theorem run_cmd_commands_output_flag sh commands t r :
  run_cmd_commands sh commands false = (t, inr r) ->
  exists t',
    run_cmd_commands sh commands true = (t', inr r) /\
    executed t' = executed t /\ clock_reads t' = clock_reads t.
Proof.
  unfold run_cmd_commands. intros H.
  eapply run_cmd_loop_quiet; [| |exact H]; reflexivity.
Qed.

Lemma run_cmd_commands_output_flag_witness :
  exists t',
    run_cmd_commands sample_shell
      [str_of_string "pdb2gmx"; str_of_string "grompp"; str_of_string "mdrun"] true
    = (t', inr (timings_of sample_shell 0 [str_of_string "pdb2gmx"] ∅,
                errors_of (str_of_string "grompp") (str_of_string "no such file") 2)) /\
    executed t' = [str_of_string "pdb2gmx"; str_of_string "grompp"] /\
    clock_reads t' = 3%nat.
Proof.
  destruct (run_cmd_commands_output_flag sample_shell
              [str_of_string "pdb2gmx"; str_of_string "grompp"; str_of_string "mdrun"]
              (fst (run_cmd_commands sample_shell
                      [str_of_string "pdb2gmx"; str_of_string "grompp"; str_of_string "mdrun"]
                      false))
              (timings_of sample_shell 0 [str_of_string "pdb2gmx"] ∅,
               errors_of (str_of_string "grompp") (str_of_string "no such file") 2))
    as (t' & Hr & He & Hc).
  - vm_compute. reflexivity.
  - exists t'. split; [exact Hr|]. split; [rewrite He | rewrite Hc]; vm_compute; reflexivity.
Defined.

(** X3: the timings are keyed by the command text.  When every command
    succeeds, a command that is listed more than once has one timing, that
    of its last run: the difference of the two clock readings around it. *)
Theorem run_cmd_commands_times_last_run sh suppress cmds :
  all_succeed sh [] cmds -> all_decodable sh suppress [] cmds ->
  exists t timings,
    run_cmd_commands sh cmds suppress = (t, inr (timings, ∅)) /\
    dom timings = list_to_set cmds /\
    forall pre c post,
      cmds = pre ++ c :: post -> c ∉ post ->
      timings !! c = Some (fsub (sh_time sh (S (2 * length pre)))
                                (sh_time sh (2 * length pre))).
Proof.
  intros Hok Hdec.
  destruct (run_cmd_loop_success sh suppress cmds ∅ (ShellTrace [] 0 []) Hok Hdec)
    as (t & Hr & _ & _).
  exists t, (timings_of sh 0 cmds ∅). split; [exact Hr|]. split.
  - rewrite timings_of_dom, dom_empty_L. apply (left_id_L ∅ (∪)).
  - intros pre c post -> Hc. by rewrite timings_of_last.
Qed.

Lemma run_cmd_commands_times_last_run_witness :
  exists t timings,
    run_cmd_commands sample_shell [str_of_string "mdrun"; str_of_string "mdrun"] true
    = (t, inr (timings, ∅)) /\
    timings !! str_of_string "mdrun" = Some (fsub (sh_time sample_shell 3) (sh_time sample_shell 2)).
Proof.
  destruct (run_cmd_commands_times_last_run sample_shell true
              [str_of_string "mdrun"; str_of_string "mdrun"])
    as (t & timings & Hr & _ & Hlast).
  - simpl. split; [by exists [], []|]. split; [by exists [], [] | exact I].
  - simpl. split; [discriminate|]. split; [discriminate | exact I].
  - exists t, timings. split; [exact Hr|].
    apply (Hlast [str_of_string "mdrun"] (str_of_string "mdrun") []); [reflexivity|].
    apply not_elem_of_nil.
Defined.

End CommandFacts.

(** ** [gro_hash]: what it accepts, how it fails, what it ignores *)

Module GroFacts.
Import Py Re Ops PyFacts ReFacts OpsFacts Structure.

Section Strip.
Variable db : unicode_db.

Lemma lstrip_all_space pre s :
  all_in db CSpace pre -> lstrip db (pre ++ s) = lstrip db s.
Proof.
  induction 1 as [|x pre Hx _ IH]; simpl; [reflexivity|].
  simpl in Hx. by rewrite Hx.
Qed.

Lemma lstrip_blank post : all_in db CSpace post -> lstrip db post = [].
Proof.
  intros H. rewrite <- (app_nil_r post). by rewrite lstrip_all_space.
Qed.

Lemma rstrip_all_space s post :
  all_in db CSpace post -> rstrip db (s ++ post) = rstrip db s.
Proof.
  intros H. unfold rstrip. rewrite reverse_app, lstrip_all_space; [reflexivity|].
  by apply Forall_reverse.
Qed.

Lemma strip_padded pre l post :
  all_in db CSpace pre -> all_in db CSpace post ->
  strip db (pre ++ l ++ post) = strip db l.
Proof.
  intros Hpre Hpost. unfold strip. rewrite lstrip_all_space by exact Hpre.
  induction l as [|c l IH]; simpl.
  - by rewrite lstrip_blank.
  - destruct (isspace db c); [exact IH|].
    exact (rstrip_all_space (c :: l) post Hpost).
Qed.

Lemma lstrip_Forall (P : Z -> Prop) s : Forall P s -> Forall P (lstrip db s).
Proof.
  induction 1 as [|c s Hc Hs IH]; simpl; [constructor|].
  destruct (isspace db c); [exact IH | by constructor].
Qed.

Lemma strip_Forall (P : Z -> Prop) s : Forall P s -> Forall P (strip db s).
Proof.
  intros H. unfold strip, rstrip.
  apply Forall_reverse, lstrip_Forall, Forall_reverse, lstrip_Forall, H.
Qed.

(** What a parse captures is text of the subject. *)
Lemma parses_Forall (P : Z -> Prop) r s c s' c' :
  parses db r s c s' c' ->
  Forall P s -> (forall n g, c !! n = Some g -> Forall P g) ->
  Forall P s' /\ (forall n g, c' !! n = Some g -> Forall P g).
Proof.
  induction 1 as [k x s c Hk
                 |a b s c s1 c1 s2 c2 _ IH1 _ IH2
                 |a s c s1 c1 _ IH
                 |a s c
                 |a s c
                 |a s c s1 c1 s2 c2 _ IH1 _ _ IH2
                 |a s c s1 c1 s2 c2 _ IH1 _ IH2
                 |n a s c s1 c1 _ IH]; intros Hs Hc.
  - by inversion Hs.
  - destruct (IH1 Hs Hc) as [Hs1 Hc1]. by apply IH2.
  - by apply IH.
  - by split.
  - by split.
  - destruct (IH1 Hs Hc) as [Hs1 Hc1]. by apply IH2.
  - destruct (IH1 Hs Hc) as [Hs1 Hc1]. by apply IH2.
  - destruct (IH Hs Hc) as [Hs1 Hc1]. split; [exact Hs1|].
    intros m g. destruct (decide (m = n)) as [->|Hne].
    + rewrite lookup_insert_eq. intros [= <-]. by apply Forall_take.
    + rewrite lookup_insert_ne by done. apply Hc1.
Qed.

Lemma re_match_Forall (P : Z -> Prop) r s m n :
  re_match db r s = Some m -> Forall P s -> Forall P (group m n).
Proof.
  intros Hm Hs. apply rmatch_sound in Hm as (s1 & c1 & Hp & [= ->]).
  destruct (parses_Forall P r s ∅ s1 m Hp Hs) as [_ Hg].
  { intros k g. by rewrite lookup_empty. }
  unfold group. destruct (m !! n) as [g|] eqn:E; simpl; [by eapply Hg | constructor].
Qed.

(** The tokens of an atom line are text of the stripped line. *)
Lemma line_tokens_Forall_stripped (P : Z -> Prop) line l t :
  decode line = Some l -> Forall P (strip db l) ->
  line_tokens db line = inr t -> Forall P t.
Proof.
  intros Hd Hl. unfold line_tokens. rewrite Hd.
  destruct (re_match db pattern (strip db l)) as [m|] eqn:Hm; [|discriminate].
  intros [= <-]. apply Forall_app. split.
  - eapply re_match_Forall; [exact Hm | exact Hl].
  - apply remove_spaces_Forall. eapply re_match_Forall; [exact Hm | exact Hl].
Qed.

Lemma line_tokens_Forall (P : Z -> Prop) line l t :
  decode line = Some l -> Forall P l -> line_tokens db line = inr t -> Forall P t.
Proof.
  intros Hd Hl. apply (line_tokens_Forall_stripped P line l t Hd).
  by apply strip_Forall.
Qed.

Lemma line_tokens_scalar line t : line_tokens db line = inr t -> Forall scalar t.
Proof.
  intros H. destruct (decode line) as [l|] eqn:Hd.
  - eapply line_tokens_Forall; [exact Hd | by eapply decode_scalar | exact H].
  - unfold line_tokens in H. by rewrite Hd in H.
Qed.

Lemma tokens_of_scalar lines toks :
  tokens_of db lines toks -> Forall scalar (concat toks).
Proof.
  induction 1 as [|l t lines toks Hl _ IH]; simpl; [constructor|].
  apply Forall_app. split; [by eapply line_tokens_scalar | exact IH].
Qed.

Lemma line_tokens_padded line line' :
  same_text db line line' -> line_tokens db line = line_tokens db line'.
Proof.
  intros (core & pre & post & pre' & post' & Hd & Hd' & Hpre & Hpost & Hpre' & Hpost').
  unfold line_tokens. rewrite Hd, Hd'. by rewrite !strip_padded.
Qed.

Lemma gro_buf_padded lines lines' : forall buf,
  Forall2 (same_text db) lines lines' -> gro_buf db lines buf = gro_buf db lines' buf.
Proof.
  intros buf H. revert buf. induction H as [|l l' lines lines' Hl _ IH]; intros buf; simpl.
  - reflexivity.
  - rewrite (line_tokens_padded l l' Hl). destruct (line_tokens db l'); [reflexivity|].
    apply IH.
Qed.

Lemma accepted_tokens line : accepted db line <-> exists t, line_tokens db line = inr t.
Proof.
  unfold accepted, line_tokens. split.
  - intros (l & -> & [m ->]). eauto.
  - intros [t H]. destruct (decode line) as [l|]; [|discriminate].
    exists l. split; [reflexivity|].
    destruct (re_match db pattern (strip db l)); [eauto | discriminate].
Qed.

Lemma accepted_lines lines :
  Forall (accepted db) lines <-> exists toks, tokens_of db lines toks.
Proof.
  split.
  - induction 1 as [|l lines Hl _ [toks IH]].
    + exists []. constructor.
    + apply accepted_tokens in Hl as [t Ht]. exists (t :: toks). by constructor.
  - intros [toks H]. induction H as [|l t lines toks Hl _ IH]; constructor.
    + apply accepted_tokens. eauto.
    + exact IH.
Qed.

Lemma gro_buf_error lines : forall buf e,
  gro_buf db lines buf = inl e ->
  exists good toks bad rest,
    lines = good ++ bad :: rest /\ tokens_of db good toks /\
    line_tokens db bad = inl e.
Proof.
  induction lines as [|l lines IH]; simpl; intros buf e H; [discriminate|].
  destruct (line_tokens db l) as [e'|t] eqn:El.
  - injection H as <-. exists [], [], l, lines. split; [reflexivity|].
    split; [constructor | exact El].
  - apply IH in H as (good & toks & bad & rest & -> & Ht & Hb).
    exists (l :: good), (t :: toks), bad, rest. split; [reflexivity|].
    split; [by constructor | exact Hb].
Qed.

End Strip.

Lemma unsnoc_Some {A} (l : list A) init x : unsnoc l = Some (init, x) -> l = init ++ [x].
Proof.
  revert init. induction l as [|y l IH]; simpl; intros init H; [discriminate|].
  destruct (unsnoc l) as [[i z]|] eqn:E.
  - injection H as <- <-. simpl. f_equal. by apply IH.
  - injection H as <- <-. destruct l as [|z l]; [reflexivity|].
    simpl in E. by destruct (unsnoc l) as [[? ?]|].
Qed.

Lemma unsnoc_None {A} (l : list A) : unsnoc l = None -> l = [].
Proof.
  destruct l as [|y l]; simpl; [reflexivity|]. by destruct (unsnoc l) as [[? ?]|].
Qed.

Lemma unpack_Some ls name len lines last :
  unpack ls = Some (name, len, lines, last) -> ls = name :: len :: lines ++ [last].
Proof.
  unfold unpack. destruct ls as [|n [|l rest]]; try discriminate.
  destruct (unsnoc rest) as [[i x]|] eqn:E; [|discriminate].
  intros H. inversion H; subst. by rewrite (unsnoc_Some _ _ _ E).
Qed.

Lemma unpack_None ls : unpack ls = None -> (length ls < 3)%nat.
Proof.
  unfold unpack. destruct ls as [|n [|l rest]]; simpl; try lia.
  destruct (unsnoc rest) as [[i x]|] eqn:E; [discriminate|].
  apply unsnoc_None in E. subst. simpl. lia.
Qed.

(** X4: [gro_hash] returns a digest exactly when the file has at least
    three lines, its second line is an integer for [int()], and every line
    between the second and the last is UTF-8 and, once stripped, matched by
    the pattern.  Encoding the collected tokens never fails. *)
Theorem gro_hash_accepts db file :
  (exists d, gro_hash db file = inr d) <->
  (exists name len lines last,
     readlines file = name :: len :: lines ++ [last] /\
     is_Some (int_of_bytes len) /\
     Forall (accepted db) lines).
Proof.
  split.
  - intros [d Hd]. unfold gro_hash in Hd.
    destruct (unpack (readlines file)) as [[[[name len] lines] last]|] eqn:Hu;
      [|discriminate].
    apply unpack_Some in Hu. exists name, len, lines, last. split; [exact Hu|].
    destruct (int_of_bytes len) as [n|]; [|discriminate]. split; [eauto|].
    destruct (gro_buf db lines []) as [e|buf] eqn:Hb; [discriminate|].
    apply gro_buf_inv in Hb as (toks & Ht & _).
    apply accepted_lines. eauto.
  - intros (name & len & lines & last & Hr & [n Hn] & Hacc).
    apply accepted_lines in Hacc as [toks Ht].
    rewrite (gro_hash_lines db _ _ _ _ _ Hr), Hn, (gro_buf_tokens db _ _ _ Ht).
    destruct (encode_scalar _ (tokens_of_scalar db lines toks Ht)) as [b Hb].
    simpl. rewrite Hb. eauto.
Qed.

(** X5: the ways [gro_hash] fails.  It raises [ValueError] when the file
    has fewer than three lines, and when its second line is not an
    integer; otherwise the exception is the one of the first atom line that
    is not accepted: [UnicodeDecodeError] when that line is not UTF-8, and
    the parsing error with the stripped line when the pattern does not match
    it.  No other exception leaves the function. *)
Theorem gro_hash_failures db file e :
  gro_hash db file = inl e ->
  (e = ValueError "not enough values to unpack" /\ (length (readlines file) < 3)%nat) \/
  (exists name len lines last,
     readlines file = name :: len :: lines ++ [last] /\
     ((e = ValueError "invalid literal for int() with base 10" /\
       int_of_bytes len = None) \/
      (is_Some (int_of_bytes len) /\
       exists good bad rest,
         lines = good ++ bad :: rest /\ Forall (accepted db) good /\
         ((e = UnicodeDecodeError /\ decode bad = None) \/
          (exists l, decode bad = Some l /\
                     re_match db pattern (strip db l) = None /\
                     e = ErrorParsingLine (strip db l)))))).
Proof.
  intros H. unfold gro_hash in H.
  destruct (unpack (readlines file)) as [[[[name len] lines] last]|] eqn:Hu.
  - right. apply unpack_Some in Hu. exists name, len, lines, last. split; [exact Hu|].
    destruct (int_of_bytes len) as [n|]; [right | left].
    + split; [eauto|].
      destruct (gro_buf db lines []) as [e'|buf] eqn:Hb.
      * injection H as ->.
        apply gro_buf_error in Hb as (good & toks & bad & rest & -> & Ht & Hbad).
        exists good, bad, rest. split; [reflexivity|].
        split; [apply accepted_lines; eauto|].
        unfold line_tokens in Hbad. destruct (decode bad) as [l|].
        -- right. exists l. split; [reflexivity|].
           destruct (re_match db pattern (strip db l)); [discriminate|].
           injection Hbad as <-. auto.
        -- left. injection Hbad as <-. auto.
      * exfalso. apply gro_buf_inv in Hb as (toks & Ht & ->). simpl in H.
        destruct (encode_scalar _ (tokens_of_scalar db lines toks Ht)) as [b Hb].
        by rewrite Hb in H.
    + injection H as <-. auto.
  - left. injection H as <-. split; [reflexivity | by apply unpack_None].
Qed.

Lemma gro_hash_failures_witness :
  gro_hash ascii_db file_two_lines = inl (ValueError "not enough values to unpack") /\
  length (readlines file_two_lines) = 2%nat.
Proof.
  destruct (gro_hash_failures ascii_db file_two_lines
              (ValueError "not enough values to unpack") eq_refl)
    as [[_ Hlen] | (name & len & lines & last & Hr & _)].
  - split; reflexivity.
  - exfalso. assert (Hl : length (readlines file_two_lines) = 2%nat) by reflexivity.
    rewrite Hr in Hl. simpl in Hl. rewrite length_app in Hl. simpl in Hl. lia.
Defined.

(** X6: whitespace around an atom line does not count.  Two files with
    the same title line whose atom lines differ, line by line, only in
    whitespace before and after the text (indentation, trailing blanks,
    a carriage return before the newline) get the same result: the same
    digest, or the same exception. *)
Theorem gro_hash_ignores_padding db file1 file2 name len1 len2 lines1 lines2 last1 last2 :
  readlines file1 = name :: len1 :: lines1 ++ [last1] ->
  readlines file2 = name :: len2 :: lines2 ++ [last2] ->
  is_Some (int_of_bytes len1) -> is_Some (int_of_bytes len2) ->
  Forall2 (same_text db) lines1 lines2 ->
  gro_hash db file1 = gro_hash db file2.
Proof.
  intros H1 H2 [n1 Hn1] [n2 Hn2] Hpad.
  rewrite (gro_hash_lines db _ _ _ _ _ H1), (gro_hash_lines db _ _ _ _ _ H2).
  by rewrite Hn1, Hn2, (gro_buf_padded db lines1 lines2 [] Hpad).
Qed.

Lemma gro_hash_ignores_padding_witness :
  gro_hash ascii_db frame_a = gro_hash ascii_db frame_a_dos.
Proof.
  apply (gro_hash_ignores_padding ascii_db frame_a frame_a_dos
           (line_of "MD of 2 waters") (line_of "    3") (line_of "    3")
           [line_of "    1LYS      N    1   1.234   5.678  -9.012";
            line_of "    1LYS     H1    2   0.000   0.000   0.000";
            line_of "10000SOL     OW10000   1.000   2.000   3.000"]
           [dos_line_of "1LYS      N    1   1.234   5.678  -9.012";
            dos_line_of "        1LYS     H1    2   0.000   0.000   0.000   ";
            dos_line_of "10000SOL     OW10000   1.000   2.000   3.000 "]
           (line_of "   1.00000   1.00000   1.00000")
           (line_of "   1.00000   1.00000   1.00000")).
  - reflexivity.
  - reflexivity.
  - vm_compute. eauto.
  - vm_compute. eauto.
  - apply List.Forall2_cons; [|apply List.Forall2_cons; [|apply List.Forall2_cons; [|constructor]]].
    + exists (str_of_string "1LYS      N    1   1.234   5.678  -9.012"),
             (str_of_string "    "), [10], [], [13; 10].
      split; [vm_compute; reflexivity|]. split; [vm_compute; reflexivity|].
      repeat split; repeat constructor.
    + exists (str_of_string "1LYS     H1    2   0.000   0.000   0.000"),
             (str_of_string "    "), [10], (str_of_string "        "),
             (str_of_string "   " ++ [13; 10]).
      split; [vm_compute; reflexivity|]. split; [vm_compute; reflexivity|].
      repeat split; repeat constructor.
    + exists (str_of_string "10000SOL     OW10000   1.000   2.000   3.000"),
             [], [10], [], (str_of_string " " ++ [13; 10]).
      split; [vm_compute; reflexivity|]. split; [vm_compute; reflexivity|].
      repeat split; repeat constructor.
Defined.

(** *** The hashed message determines the title and the tokens *)

Lemma encode_char_1 b : 0 <= b < 128 -> encode_char b = Some [b].
Proof. intros H. unfold encode_char. decide_cmp. reflexivity. Qed.

Lemma encode_char_2 b0 b1 :
  194 <= b0 <= 223 -> 128 <= b1 <= 191 ->
  encode_char ((b0 - 192) * 64 + (b1 - 128)) = Some [b0; b1].
Proof.
  intros H0 H1. set (c := (b0 - 192) * 64 + (b1 - 128)).
  assert (Hq : c / 64 = b0 - 192)
    by (symmetry; apply (Z.div_unique c 64 (b0 - 192) (b1 - 128)); subst c; lia).
  assert (Hm : c mod 64 = b1 - 128)
    by (symmetry; apply (Z.mod_unique c 64 (b0 - 192) (b1 - 128)); subst c; lia).
  unfold encode_char. rewrite Hq, Hm.
  assert (128 <= c < 2048) by (subst c; lia).
  decide_cmp. do 2 f_equal; [lia | f_equal; lia].
Qed.

Lemma encode_char_3 b0 b1 b2 :
  224 <= b0 <= 239 -> 128 <= b1 <= 191 -> 128 <= b2 <= 191 ->
  ~ (b0 = 224 /\ b1 < 160) -> ~ (b0 = 237 /\ 160 <= b1) ->
  encode_char ((b0 - 224) * 4096 + (b1 - 128) * 64 + (b2 - 128)) = Some [b0; b1; b2].
Proof.
  intros H0 H1 H2 Hlow Hsur.
  set (c := (b0 - 224) * 4096 + (b1 - 128) * 64 + (b2 - 128)).
  assert (Hq : c / 4096 = b0 - 224)
    by (symmetry; apply (Z.div_unique c 4096 (b0 - 224) ((b1 - 128) * 64 + (b2 - 128)));
        subst c; lia).
  assert (Hq1 : c / 64 = (b0 - 224) * 64 + (b1 - 128))
    by (symmetry; apply (Z.div_unique c 64 ((b0 - 224) * 64 + (b1 - 128)) (b2 - 128));
        subst c; lia).
  assert (Hm1 : (c / 64) mod 64 = b1 - 128)
    by (rewrite Hq1; symmetry;
        apply (Z.mod_unique ((b0 - 224) * 64 + (b1 - 128)) 64 (b0 - 224) (b1 - 128)); lia).
  assert (Hm : c mod 64 = b2 - 128)
    by (symmetry; apply (Z.mod_unique c 64 ((b0 - 224) * 64 + (b1 - 128)) (b2 - 128));
        subst c; lia).
  unfold encode_char. rewrite Hq, Hm1, Hm.
  assert (2048 <= c < 65536) by (subst c; lia).
  assert (~ (55296 <= c <= 57343)) by (subst c; lia).
  decide_cmp; try lia.
  all: do 2 f_equal; [lia | f_equal; [lia | f_equal; lia]].
Qed.

Lemma encode_char_4 b0 b1 b2 b3 :
  240 <= b0 <= 244 -> 128 <= b1 <= 191 -> 128 <= b2 <= 191 -> 128 <= b3 <= 191 ->
  ~ (b0 = 240 /\ b1 < 144) -> ~ (b0 = 244 /\ 144 <= b1) ->
  encode_char ((b0 - 240) * 262144 + (b1 - 128) * 4096 + (b2 - 128) * 64 + (b3 - 128))
  = Some [b0; b1; b2; b3].
Proof.
  intros H0 H1 H2 H3 Hlow Hhigh.
  set (c := (b0 - 240) * 262144 + (b1 - 128) * 4096 + (b2 - 128) * 64 + (b3 - 128)).
  assert (Hq : c / 262144 = b0 - 240)
    by (symmetry;
        apply (Z.div_unique c 262144 (b0 - 240)
                 ((b1 - 128) * 4096 + (b2 - 128) * 64 + (b3 - 128))); subst c; lia).
  assert (Hq2 : c / 4096 = (b0 - 240) * 64 + (b1 - 128))
    by (symmetry;
        apply (Z.div_unique c 4096 ((b0 - 240) * 64 + (b1 - 128))
                 ((b2 - 128) * 64 + (b3 - 128))); subst c; lia).
  assert (Hq1 : c / 64 = (b0 - 240) * 4096 + (b1 - 128) * 64 + (b2 - 128))
    by (symmetry;
        apply (Z.div_unique c 64 ((b0 - 240) * 4096 + (b1 - 128) * 64 + (b2 - 128))
                 (b3 - 128)); subst c; lia).
  assert (Hm2 : (c / 4096) mod 64 = b1 - 128)
    by (rewrite Hq2; symmetry;
        apply (Z.mod_unique ((b0 - 240) * 64 + (b1 - 128)) 64 (b0 - 240) (b1 - 128)); lia).
  assert (Hm1 : (c / 64) mod 64 = b2 - 128)
    by (rewrite Hq1; symmetry;
        apply (Z.mod_unique ((b0 - 240) * 4096 + (b1 - 128) * 64 + (b2 - 128)) 64
                 ((b0 - 240) * 64 + (b1 - 128)) (b2 - 128)); lia).
  assert (Hm : c mod 64 = b3 - 128)
    by (symmetry;
        apply (Z.mod_unique c 64 ((b0 - 240) * 4096 + (b1 - 128) * 64 + (b2 - 128))
                 (b3 - 128)); subst c; lia).
  unfold encode_char. rewrite Hq, Hm2, Hm1, Hm.
  assert (65536 <= c < 1114112) by (subst c; lia).
  decide_cmp; try lia.
  all: do 2 f_equal; [lia | f_equal; [lia | f_equal; [lia | f_equal; lia]]].
Qed.

(** [b.decode().encode() == b] *)
Lemma encode_decode_from n : forall bs s,
  (length bs < n)%nat ->
  Forall (fun b => 0 <= b < 256) bs -> decode_from bs = Some s -> encode_to s = Some bs.
Proof.
  induction n as [|n IH]; intros bs s Hn Hb H; [exfalso; lia|].
  destruct bs as [|b0 r0]; simpl in H.
  { by inversion H. }
  inversion Hb as [|? ? Hb0 Hr0]; subst.
  assert (Hstep : forall c r pre, (length r < length (b0 :: r0))%nat ->
            Forall (fun b => 0 <= b < 256) r -> encode_char c = Some pre ->
            cons c <$> decode_from r = Some s -> encode_to s = Some (pre ++ r)).
  { intros c r pre Hlen Hr Hc E. destruct (decode_from r) as [s'|] eqn:Er; [|discriminate].
    inversion E; subst. simpl. rewrite Hc, (IH r s'); [reflexivity| simpl in *; lia | exact Hr | exact Er]. }
  unfold is_cont in H.
  destruct (b0 <? 128) eqn:E0.
  { apply (Hstep b0 r0 [b0]); [simpl; lia | exact Hr0 | | exact H].
    apply encode_char_1. apply Z.ltb_lt in E0. lia. }
  destruct ((194 <=? b0) && (b0 <=? 223)) eqn:E1.
  { destruct r0 as [|b1 r1]; [discriminate|].
    inversion Hr0; subst.
    destruct ((128 <=? b1) && (b1 <=? 191)) eqn:E2; [|discriminate].
    refine (Hstep _ r1 [b0; b1] _ _ _ H); [simpl; lia | assumption |].
    apply andb_true_iff in E1 as [? ?], E2 as [? ?]. apply encode_char_2; lia. }
  destruct ((224 <=? b0) && (b0 <=? 239)) eqn:E2.
  { destruct r0 as [|b1 [|b2 r2]]; try discriminate.
    inversion Hr0 as [|? ? ? Hr1]; subst. inversion Hr1; subst.
    match type of H with (if ?c then _ else _) = _ => destruct c eqn:E3 end; [|discriminate].
    refine (Hstep _ r2 [b0; b1; b2] _ _ _ H); [simpl; lia | assumption |].
    apply andb_true_iff in E2 as [? ?].
    repeat (apply andb_true_iff in E3 as [E3 ?]).
    rewrite negb_true_iff, andb_false_iff in *.
    apply encode_char_3; cmp. }
  destruct ((240 <=? b0) && (b0 <=? 244)) eqn:E3; [|discriminate].
  destruct r0 as [|b1 [|b2 [|b3 r3]]]; try discriminate.
  inversion Hr0 as [|? ? ? Hr1]; subst. inversion Hr1 as [|? ? ? Hr2]; subst.
  inversion Hr2; subst.
  match type of H with (if ?c then _ else _) = _ => destruct c eqn:E4 end; [|discriminate].
  refine (Hstep _ r3 [b0; b1; b2; b3] _ _ _ H); [simpl; lia | assumption |].
  apply andb_true_iff in E3 as [? ?].
  repeat (apply andb_true_iff in E4 as [E4 ?]).
  rewrite negb_true_iff, andb_false_iff in *.
  apply encode_char_4; cmp.
Qed.

Lemma encode_decode b s :
  decode b = Some s -> encode_to s = Some (map Z_of_byte b).
Proof.
  apply (encode_decode_from (S (length (map Z_of_byte b)))); [lia|].
  apply Forall_forall. intros x Hx.
  apply list_elem_of_In, in_map_iff in Hx. destruct Hx as (y & <- & _). apply Z_of_byte_range.
Qed.

(** The byte 0x0a encodes the newline character and nothing else. *)
Lemma encode_char_newline c bs :
  encode_char c = Some bs ->
  bs <> [] /\ (c = 10 -> bs = [10]) /\ (c <> 10 -> Forall (fun b => b <> 10) bs).
Proof.
  unfold encode_char. intros H.
  pose proof (Z.mod_pos_bound c 64 ltac:(lia)).
  pose proof (Z.mod_pos_bound (c / 64) 64 ltac:(lia)).
  pose proof (Z.mod_pos_bound (c / 4096) 64 ltac:(lia)).
  assert (2048 <= c -> 0 <= c / 4096) by (intros; apply Z.div_pos; lia).
  assert (128 <= c -> 0 <= c / 64) by (intros; apply Z.div_pos; lia).
  assert (65536 <= c -> 0 <= c / 262144) by (intros; apply Z.div_pos; lia).
  repeat match type of H with
  | (if ?b then _ else _) = _ => destruct b eqn:?; try discriminate
  end; inversion H; subst; cmp;
    (split; [discriminate|]; split; [intros; first [exfalso; lia | subst; reflexivity]|];
     intros; repeat constructor; lia).
Qed.

Lemma encode_to_no_newline s : forall bs,
  encode_to s = Some bs -> Forall (fun c => c <> 10) s -> Forall (fun b => b <> 10) bs.
Proof.
  induction s as [|c s IH]; simpl; intros bs H Hs.
  - inversion H. constructor.
  - destruct (encode_char c) as [b1|] eqn:Ec; [|discriminate].
    destruct (encode_to s) as [b2|] eqn:Es; [|discriminate].
    inversion H; subst. inversion Hs; subst. apply Forall_app. split.
    + by apply (encode_char_newline c b1 Ec).
    + by apply IH.
Qed.

(** Text whose encoding ends with its only newline byte ends with its only
    newline character. *)
Lemma encode_to_line l : forall body,
  encode_to l = Some (body ++ [10]) -> Forall (fun b => b <> 10) body ->
  exists s, l = s ++ [10] /\ Forall (fun c => c <> 10) s.
Proof.
  induction l as [|c l IH]; simpl; intros body H Hbody.
  - inversion H as [E]. by destruct body.
  - destruct (encode_char c) as [b1|] eqn:Ec; [|discriminate].
    destruct (encode_to l) as [b2|] eqn:Es; [|discriminate].
    inversion H as [E]. clear H.
    destruct (encode_char_newline c b1 Ec) as (Hne & Hnl & Hother).
    destruct (decide (b2 = [])) as [->|Hb2].
    + rewrite app_nil_r in E. subst b1.
      assert (l = []) as ->.
      { destruct l as [|c' l]; [reflexivity|]. simpl in Es.
        destruct (encode_char c') as [x|] eqn:Ec'; [|discriminate].
        destruct (encode_to l) as [y|]; [|discriminate].
        destruct (encode_char_newline c' x Ec') as (Hx & _). inversion Es as [E'].
        by destruct x. }
      destruct (decide (c = 10)) as [->|Hc].
      * exists []. split; [reflexivity | constructor].
      * specialize (Hother Hc). apply Forall_app in Hother as [_ Hlast].
        inversion Hlast; subst. congruence.
    + destruct (exists_last Hb2) as (b2' & z & ->).
      rewrite app_assoc in E. apply app_inj_tail in E as [Eb Ez]. subst body z.
      apply Forall_app in Hbody as [Hb1 Hb2'].
      destruct (IH b2' eq_refl Hb2') as (s & -> & Hs).
      exists (c :: s). split; [reflexivity|]. constructor; [|exact Hs].
      intros ->. rewrite (Hnl eq_refl) in Hb1. inversion Hb1; subst. congruence.
Qed.

(** *** Lines *)

Lemma Z_of_byte_newline b : Z_of_byte b = 10 -> b = x0a.
Proof.
  intros H. unfold Z_of_byte in H.
  assert (E : Byte.to_N b = Byte.to_N x0a) by (simpl; lia).
  apply (f_equal Byte.of_N) in E. rewrite !Byte.of_to_N in E. congruence.
Qed.

Lemma byte_of_Z_newline z : 0 <= z < 256 -> byte_of_Z z = x0a -> z = 10.
Proof.
  intros Hz H. apply (f_equal Z_of_byte) in H. by rewrite Z_of_byte_of_Z in H.
Qed.

(** Every line that [readlines] returns, but the last, ends with its only
    newline. *)
Lemma readlines_from_whole f : forall cur pre last,
  Forall (fun b => b <> x0a) cur ->
  readlines_from cur f = pre ++ [last] -> Forall whole_line pre.
Proof.
  induction f as [|b f IH]; intros cur pre last Hcur H; simpl in H.
  - destruct cur; [by destruct pre|].
    destruct pre as [|p pre]; [constructor|]. inversion H as [[E1 E2]]. by destruct pre.
  - destruct (Byte.eqb b x0a) eqn:Eb.
    + apply Byte.byte_dec_bl in Eb. subst b.
      destruct pre as [|p pre]; [constructor|]. inversion H as [[E1 E2]].
      constructor; [|by eapply (IH [])].
      exists (reverse cur). rewrite reverse_cons. split; [reflexivity|].
      by apply Forall_reverse.
    + apply Byte.eqb_false in Eb. eapply (IH (b :: cur)); [|exact H]. by constructor.
Qed.

Lemma readlines_whole file name len lines last :
  readlines file = name :: len :: lines ++ [last] ->
  whole_line name /\ Forall whole_line lines.
Proof.
  intros H.
  assert (Hall : Forall whole_line (name :: len :: lines)).
  { eapply (readlines_from_whole file [] (name :: len :: lines) last); [constructor|].
    exact H. }
  inversion Hall as [|? ? Hname Hrest]; subst. inversion Hrest; subst. auto.
Qed.

Lemma whole_line_decode line l :
  whole_line line -> decode line = Some l ->
  exists s, l = s ++ [10] /\ Forall (fun c => c <> 10) s.
Proof.
  intros (body & -> & Hbody) Hd. apply encode_decode in Hd.
  rewrite map_app in Hd. apply (encode_to_line l (map Z_of_byte body)); [exact Hd|].
  apply Forall_forall. intros z Hz.
  apply list_elem_of_In, in_map_iff in Hz. destruct Hz as (b & <- & Hb).
  intros E%Z_of_byte_newline. rewrite Forall_forall in Hbody.
  apply (Hbody b); [by apply list_elem_of_In | exact E].
Qed.

Section Message.
Variable db : unicode_db.
Hypothesis ok : db_ok db.

(** No token holds a newline. *)
Lemma line_tokens_no_newline line t :
  whole_line line -> line_tokens db line = inr t -> Forall (fun c => c <> 10) t.
Proof.
  intros Hw Ht. destruct (decode line) as [l|] eqn:Hd.
  - destruct (whole_line_decode line l Hw Hd) as (s & -> & Hs).
    apply (line_tokens_Forall_stripped db _ line (s ++ [10]) t Hd); [|exact Ht].
    change (s ++ [10]) with ([] ++ s ++ [10]).
    rewrite (strip_padded db [] s [10]); [by apply strip_Forall | constructor |].
    repeat constructor. simpl. by rewrite (ok_space db ok) by lia.
  - unfold line_tokens in Ht. by rewrite Hd in Ht.
Qed.

Lemma tokens_of_no_newline lines toks :
  Forall whole_line lines -> tokens_of db lines toks ->
  Forall (fun c => c <> 10) (concat toks).
Proof.
  intros Hw Ht. induction Ht as [|l t lines toks Hl _ IH]; simpl; [constructor|].
  inversion Hw; subst. apply Forall_app. split; [by eapply line_tokens_no_newline | by apply IH].
Qed.

End Message.

Lemma encode_no_newline s b :
  encode s = Some b -> Forall (fun c => c <> 10) s -> Forall (fun x => x <> x0a) b.
Proof.
  unfold encode. destruct (encode_to s) as [bs|] eqn:E; [|discriminate].
  intros [= <-] Hs.
  pose proof (encode_to_no_newline s bs E Hs) as Hbs.
  destruct (decode_encode_to s bs E) as [_ Hr].
  apply Forall_forall. intros x Hx.
  apply list_elem_of_In, in_map_iff in Hx. destruct Hx as (z & <- & Hz).
  apply list_elem_of_In in Hz. rewrite Forall_forall in Hbs, Hr.
  intros Ex. apply byte_of_Z_newline in Ex; [|by apply Hr]. by apply (Hbs z).
Qed.

(** A list is cut at the first occurrence of an element in one way. *)
Lemma first_cut {A} (x : A) l1 : forall l2 r1 r2,
  Forall (fun y => y <> x) l1 -> Forall (fun y => y <> x) l2 ->
  l1 ++ x :: r1 = l2 ++ x :: r2 -> l1 = l2 /\ r1 = r2.
Proof.
  induction l1 as [|a l1 IH]; intros [|b l2] r1 r2 H1 H2 E; simpl in E.
  - by inversion E.
  - inversion E; subst. inversion H2; subst. congruence.
  - inversion E; subst. inversion H1; subst. congruence.
  - inversion E; subst. inversion H1; subst. inversion H2; subst.
    destruct (IH l2 r1 r2) as [-> ->]; auto.
Qed.



End GroFacts.

(** ** [select_random_pdb_id] *)

Module PoolFacts.
Import Py Pool.

Lemma random_choice_elem {A} (g : rng) (seq : list A) n :
  match snd (random_choice g seq n) with
  | Normal x => x ∈ seq /\ seq !! (g n (length seq) mod length seq)%nat = Some x
  | Raise e => e = IndexError /\ seq = []
  | _ => False
  end.
Proof.
  unfold random_choice; simpl.
  destruct (seq !! (g n (length seq) mod length seq)%nat) as [x|] eqn:Hx.
  - split; [by eapply list_elem_of_lookup_2 | reflexivity].
  - split; [reflexivity|]. destruct seq as [|y seq]; [reflexivity|].
    apply lookup_ge_None in Hx.
    pose proof (Nat.mod_upper_bound (g n (length (y :: seq))) (length (y :: seq))
                  ltac:(simpl; lia)). lia.
Qed.

Lemma random_choice_draws {A} (g : rng) (seq : list A) n :
  fst (random_choice g seq n) = S n.
Proof. reflexivity. Qed.

Lemma item_elem d key l : item d key = Some l -> (key, l) ∈ d.
Proof.
  induction d as [|[k v] d IH]; simpl; [discriminate|].
  destruct (bool_decide (k = key)) eqn:Hk.
  - apply bool_decide_eq_true in Hk. intros [= ->]. subst. apply list_elem_of_here.
  - intros H. apply list_elem_of_further. by apply IH.
Qed.

Lemma item_key d key : key ∈ map fst d -> is_Some (item d key).
Proof.
  induction d as [|[k v] d IH]; simpl.
  - by intros H%elem_of_nil.
  - intros H. destruct (bool_decide (k = key)) eqn:Hk; [by eexists|].
    apply bool_decide_eq_false in Hk. apply elem_of_cons in H as [H|H]; [congruence|].
    by apply IH.
Qed.

(** What the [try] statement leaves in [choices]: the list of a family of
    a dictionary that is not empty, or [PDB_IDS] itself when it is an empty
    dictionary or a list.  No exception leaves the statement. *)
Lemma draw_choices_spec g ids n :
  exists n' choices,
    draw_choices g ids n = (n', Normal choices) /\
    match ids with
    | Families [] => choices = ids /\ n' = S n
    | Families d =>
      exists l, choices = Ids l /\ drawn_family g d n = Some l /\ n' = S n
    | Ids _ => choices = ids /\ n' = n
    end.
Proof.
  unfold draw_choices, try_except, keys, getitem, bind.
  destruct ids as [[|kv d]|l].
  - eexists _, _. split; [reflexivity|]. split; reflexivity.
  - unfold ret at 1. cbn beta iota.
    pose proof (random_choice_elem g (map fst (kv :: d)) n) as Hc.
    pose proof (random_choice_draws g (map fst (kv :: d)) n) as Hn.
    destruct (random_choice g (map fst (kv :: d)) n) as [n1 [family| | |e]];
      cbn [fst snd] in Hc, Hn; try done; [|by destruct Hc as [_ Hc]].
    destruct Hc as [Hin Hlk]. subst n1.
    destruct (item_key (kv :: d) family Hin) as [l Hl]. rewrite Hl.
    eexists _, _. split; [reflexivity|]. exists l. split; [reflexivity|].
    split; [|reflexivity]. unfold drawn_family. rewrite Hlk. exact Hl.
  - eexists _, _. split; [reflexivity|]. split; reflexivity.
Qed.

Lemma drawn_family_elem g d n l : drawn_family g d n = Some l -> exists family, (family, l) ∈ d.
Proof.
  unfold drawn_family. destruct (map fst d !! _) as [family|]; simpl; [|discriminate].
  intros H%item_elem. eauto.
Qed.

(** One iteration: it returns an id of the pool, or goes on; it never
    raises. *)
Lemma pool_iteration_spec g ids n :
  match iteration g ids n with
  | (n', Normal (Some x)) =>
    holds ids x /\
    match ids with
    | Families d =>
      exists l, drawn_family g d n = Some l /\ n' = S (S n) /\
                l !! (g (S n) (length l) mod length l)%nat = Some x
    | Ids l => n' = S n /\ l !! (g n (length l) mod length l)%nat = Some x
    end
  | (n', Normal None) =>
    match ids with
    | Families [] => n' = S n
    | Families d => drawn_family g d n = Some [] /\ n' = S n
    | Ids l => l = [] /\ n' = n
    end
  | _ => False
  end.
Proof.
  unfold iteration, bind.
  destruct (draw_choices_spec g ids n) as (n1 & choices & -> & Hc).
  destruct ids as [[|kv d]|l].
  - destruct Hc as [-> ->]. reflexivity.
  - destruct Hc as (l & -> & Hl & ->). simpl.
    destruct l as [|x0 l]; simpl; [by split|].
    pose proof (random_choice_elem g (x0 :: l) (S n)) as Hx.
    unfold random_choice in *. simpl in Hx |- *.
    destruct ((x0 :: l) !! _) as [x|] eqn:Hlk; [|by destruct Hx as [_ ?]].
    destruct Hx as [Hin _]. simpl. split.
    + apply drawn_family_elem in Hl as Hfam. destruct Hfam as [family Hfam]. eauto.
    + exists (x0 :: l). auto.
  - destruct Hc as [-> ->]. simpl.
    destruct l as [|x0 l]; simpl; [by split|].
    pose proof (random_choice_elem g (x0 :: l) n) as Hx.
    unfold random_choice in *. simpl in Hx |- *.
    destruct ((x0 :: l) !! _) as [x|] eqn:Hlk; [|by destruct Hx as [_ ?]].
    destruct Hx as [Hin _]. simpl. auto.
Qed.

(** X8: [select_random_pdb_id] raises no exception, and what it returns is
    one of the structure ids of [PDB_IDS]: an id of one of the families of
    the dictionary, or an element of the list. *)
Theorem select_random_pdb_id_member fuel g ids : forall n,
  match snd (select_random_pdb_id fuel g ids n) with
  | Normal (Some x) => holds ids x
  | Normal None => True
  | _ => False
  end.
Proof.
  induction fuel as [|fuel IH]; intros n; simpl; [exact I|].
  unfold bind. pose proof (pool_iteration_spec g ids n) as Hit.
  destruct (iteration g ids n) as [n1 [[x|]| | |e]]; try done.
  - simpl. by destruct Hit as [Hin _].
  - apply IH.
Qed.

Lemma barren_drawn g d n l : barren (Families d) -> drawn_family g d n = Some l -> l = [].
Proof.
  intros Hb [family Hin]%drawn_family_elem.
  simpl in Hb. rewrite Forall_forall in Hb. exact (Hb _ Hin).
Qed.

(** X9: when [PDB_IDS] holds no structure id (an empty dictionary, a
    dictionary whose families are all empty, or an empty list) the function
    neither returns nor raises: after any number of iterations it is still
    in its [while True] loop. *)
Theorem select_random_pdb_id_barren fuel g ids : forall n,
  barren ids -> snd (select_random_pdb_id fuel g ids n) = Normal None.
Proof.
  induction fuel as [|fuel IH]; intros n Hb; simpl; [reflexivity|].
  unfold bind. pose proof (pool_iteration_spec g ids n) as Hit.
  destruct (iteration g ids n) as [n1 [[x|]| | |e]]; try done; [|by apply IH].
  exfalso. destruct Hit as [_ Hit]. destruct ids as [d|l].
  - destruct Hit as (l & Hl & _ & Hx). apply (barren_drawn g d n l Hb) in Hl. by subst.
  - destruct Hit as [_ Hx]. simpl in Hb. by subst.
Qed.

Lemma select_random_pdb_id_barren_witness :
  snd (select_random_pdb_id 1000 first_then_last (Families []) 0%nat) = Normal None /\
  snd (select_random_pdb_id 1000 first_then_last
         (Families [(str_of_string "empty", [])]) 0%nat) = Normal None.
Proof.
  split.
  - apply (select_random_pdb_id_barren 1000 first_then_last (Families []) 0%nat).
    constructor.
  - apply (select_random_pdb_id_barren 1000 first_then_last
             (Families [(str_of_string "empty", [])]) 0%nat).
    repeat constructor.
Defined.

(** X10: on a dictionary the function draws a family, and draws again as
    long as the family drawn is empty; it returns an id drawn from the
    first family that is not empty, having called [random.choice] once per
    family drawn and once more for the id.  On a list that is not empty it
    returns an element drawn by one call. *)
Theorem select_random_pdb_id_first_stocked g :
  (forall d k l n fuel,
     (forall i, (i < k)%nat -> drawn_family g d (n + i) = Some []) ->
     drawn_family g d (n + k) = Some l -> l <> [] -> (k < fuel)%nat ->
     exists x,
       l !! (g (S (n + k)) (length l) mod length l)%nat = Some x /\
       select_random_pdb_id fuel g (Families d) n = (S (S (n + k)), Normal (Some x))) /\
  (forall l n fuel,
     l <> [] -> (0 < fuel)%nat ->
     exists x,
       l !! (g n (length l) mod length l)%nat = Some x /\
       select_random_pdb_id fuel g (Ids l) n = (S n, Normal (Some x))).
Proof.
  split.
  - intros d k. induction k as [|k IH]; intros l n fuel Hempty Hl Hne Hfuel.
    + destruct fuel as [|fuel]; [lia|]. rewrite Nat.add_0_r in *. simpl. unfold bind.
      pose proof (pool_iteration_spec g (Families d) n) as Hit.
      destruct (iteration g (Families d) n) as [n1 [[x|]| | |e]]; try done.
      * destruct Hit as (_ & l' & Hl' & -> & Hx).
        assert (l' = l) as -> by congruence. eauto.
      * exfalso. destruct d as [|kv d]; [discriminate|].
        destruct Hit as [Hnil _]. congruence.
    + destruct fuel as [|fuel]; [lia|]. simpl. unfold bind.
      pose proof (pool_iteration_spec g (Families d) n) as Hit.
      pose proof (Hempty 0%nat ltac:(lia)) as H0. rewrite Nat.add_0_r in H0.
      destruct (iteration g (Families d) n) as [n1 [[x|]| | |e]]; try done.
      * exfalso. destruct Hit as (_ & l' & Hl' & _ & Hx).
        assert (l' = []) as -> by congruence. discriminate.
      * assert (n1 = S n) as ->.
        { destruct d as [|kv d]; [exact Hit | by destruct Hit]. }
        destruct (IH l (S n) fuel) as (x & Hx & Hs).
        -- intros i Hi. specialize (Hempty (S i) ltac:(lia)).
           by replace (S n + i)%nat with (n + S i)%nat by lia.
        -- by replace (S n + k)%nat with (n + S k)%nat by lia.
        -- exact Hne.
        -- lia.
        -- exists x. replace (n + S k)%nat with (S n + k)%nat by lia. auto.
  - intros l n fuel Hne Hfuel. destruct fuel as [|fuel]; [lia|]. simpl. unfold bind.
    pose proof (pool_iteration_spec g (Ids l) n) as Hit.
    destruct (iteration g (Ids l) n) as [n1 [[x|]| | |e]]; try done.
    + destruct Hit as (_ & -> & Hx). eauto.
    + by destruct Hit as [-> _].
Qed.

Lemma select_random_pdb_id_first_stocked_witness :
  select_random_pdb_id 5 first_then_last sample_pool 0%nat
  = (3%nat, Normal (Some (str_of_string "2xyz"))).
Proof.
  destruct (proj1 (select_random_pdb_id_first_stocked first_then_last)
              [ (str_of_string "empty", []);
                (str_of_string "kinase", [str_of_string "1abc"; str_of_string "2xyz"]) ]
              1%nat [str_of_string "1abc"; str_of_string "2xyz"] 0%nat 5%nat)
    as (x & Hx & Hs).
  - intros i Hi. assert (i = 0%nat) as -> by lia. reflexivity.
  - reflexivity.
  - discriminate.
  - lia.
  - simpl in Hx. injection Hx as <-. exact Hs.
Defined.

End PoolFacts.

(** ** [get_energies]: what a valid entry means, and what is never read *)

Module EnergyFacts.
Import Py Reward RewardFacts.

Section GetEnergies.
Variable protein : Type.
Variable process_md_output : protein -> gmap str bytes -> str -> protein * result bool.
Variable get_energy : protein -> str -> protein * result dataframe.
Variable get_rmsd : protein -> protein * result dataframe.
Variable is_run_valid : protein -> float -> str -> protein * result (bool * float).

Abbreviation verdict := (verdict protein process_md_output get_energy get_rmsd is_run_valid).
Abbreviation get_energies := (get_energies protein process_md_output get_energy get_rmsd is_run_valid).

(** A verdict is reached only through every check. *)
Lemma verdict_inv p resp energy rmsd valid checked :
  verdict p resp = Some (energy, rmsd, valid, checked) ->
  status_code resp = Some 200 /\ float_is_zero energy = false /\
  exists p3 p4, is_run_valid p3 energy (hotkey resp) = (p4, inr (valid, checked)).
Proof.
  unfold Reward.verdict.
  destruct (process_md_output p (md_output resp) (hotkey resp)) as [p1 [e|[|]]];
    try discriminate.
  destruct (bool_decide (status_code resp = Some 200)) eqn:Hst; [|discriminate].
  apply bool_decide_eq_true in Hst.
  destruct (get_energy p1 (str_of_string "Potential")) as [p2 [e|df]]; [discriminate|].
  destruct (iloc_last df "energy") as [e|en]; [discriminate|].
  destruct (get_rmsd p2) as [p3 [e|rf]]; [discriminate|].
  destruct (iloc_last rf "rmsd") as [e|rm]; [discriminate|].
  destruct (float_is_zero en) eqn:Hz; [discriminate|].
  destruct (is_run_valid p3 en (hotkey resp)) as [p4 [e|[v c]]] eqn:Hv; [discriminate|].
  intros H. inversion H; subst. split; [exact Hst|]. split; [exact Hz|]. eauto.
Qed.

(** X12: an entry that [get_energies] marks as valid comes from a response
    with status code 200; its energy is the energy that was reported, which
    is not zero; and [is_run_valid] returned [True] for that energy and the
    response's hotkey, together with the checked energy of the entry. *)
Theorem get_energies_valid_entry p responses uids s energies_out event_out i :
  get_energies p responses uids = (s, inr (energies_out, event_out)) ->
  is_valid event_out !! i = Some true ->
  exists resp energy checked,
    responses !! i = Some resp /\ status_code resp = Some 200 /\
    reported_energy event_out !! i = Some energy /\
    energies_out !! i = Some energy /\
    float_is_zero energy = false /\
    checked_energy event_out !! i = Some checked /\
    exists p3 p4, is_run_valid p3 energy (hotkey resp) = (p4, inr (true, checked)).
Proof.
  intros Hg Hi.
  destruct (get_energies_spec protein process_md_output get_energy get_rmsd is_run_valid
              p responses uids) as (s' & out & Hg' & Hs & -> & Hnone & Hrows).
  rewrite Hg in Hg'. inversion Hg'; subst s' energies_out event_out. cbn [fst snd] in *.
  assert (Hlt : (i < length uids)%nat).
  { destruct Hs as (_ & <- & _). by eapply lookup_lt_Some. }
  destruct (responses !! i) as [resp|] eqn:Hr.
  - destruct (lookup_lt_is_Some_2 uids i Hlt) as [uid Hu].
    specialize (Hrows i uid resp Hu Hr).
    destruct (Reward.verdict _ _ _ _ _ _ resp) as [[[[energy rmsd] valid] checked]|] eqn:Hv.
    + apply verdict_inv in Hv as (Hst & Hz & p3 & p4 & Hvalid).
      unfold row_of, row_after, invalid_row in Hrows.
      assert (valid = true) as -> by congruence.
      exists resp, energy, checked.
      split; [reflexivity|]. split; [exact Hst|].
      split; [congruence|]. split; [congruence|]. split; [exact Hz|].
      split; [congruence|]. eauto.
    + unfold row_of, row_after, invalid_row in Hrows. congruence.
  - specialize (Hnone i Hlt Hr). unfold row_of, invalid_row in Hnone. congruence.
Qed.

(** X13: the workers are the pairs of [zip(uids, responses)]: a response at
    a position that has no uid is never read.  No method of the protein is
    called for it, nothing is logged for it, and the result is the one of
    the call without it. *)
Theorem get_energies_ignores_surplus p responses uids :
  get_energies p responses uids = get_energies p (take (length uids) responses) uids.
Proof.
  assert (Hzip : forall (us : list Z) (rs : list response),
             zip_workers us rs = zip_workers us (take (length us) rs)).
  { unfold zip_workers. induction us as [|u us IH]; intros [|r rs]; simpl; try reflexivity.
    by rewrite <- IH. }
  unfold Reward.get_energies. by rewrite <- Hzip.
Qed.

End GetEnergies.

Lemma get_energies_valid_entry_witness :
  exists resp energy checked,
    sample_responses !! 0%nat = Some resp /\ status_code resp = Some 200 /\
    energy = minus_542_5 /\ float_is_zero energy = false /\ checked = minus_542_5.
Proof.
  destruct (get_energies_valid_entry str sample_process sample_energy sample_rmsd
              sample_valid [] sample_responses sample_uids
              (fst sample_get_energies)
              [minus_542_5; zero; zero; zero]
              (Event [true; false; false; false]
                     [minus_542_5; zero; zero; zero]
                     [minus_542_5; zero; zero; zero]
                     [plus_1_25; zero; zero; zero]) 0)
    as (resp & energy & checked & Hr & Hst & Hrep & Hen & Hz & Hck & _).
  - vm_compute. reflexivity.
  - reflexivity.
  - exists resp, energy, checked. simpl in Hrep, Hck.
    split; [exact Hr|]. split; [exact Hst|].
    split; [congruence|]. split; [exact Hz | congruence].
Defined.

End EnergyFacts.

(** ** [forward]: a search that succeeds, a round without combinations *)

Module SearchFacts.
Import Py Forward ForwardFacts Search.

Section Round.
Variable world : env.
Variable cfg : config.

Abbreviation attempt := (Forward.attempt world cfg).
Abbreviation for_loop := (Forward.for_loop world cfg).
Abbreviation round := (Forward.round world cfg).
Abbreviation forward := (Forward.forward world cfg).
Abbreviation fails_preparation := (Forward.fails_preparation world cfg).
Abbreviation prepares := (Search.prepares world cfg).

(** An attempt that prepares its protein logs nothing and leaves the [for]
    loop by [break], with the event of the search and the protein bound. *)
Lemma attempt_prepares r j pdb_id t0 (s : state) p h :
  prepares r j p h ->
  exists s' t1 t2,
    attempt r j pdb_id t0 s = (s', Break) /\
    logged_events (tr s') = logged_events (tr s) /\
    dispatched (tr s') = dispatched (tr s) /\
    event (vars s') = Some (search_event pdb_id h t1 t2) /\
    the_protein (vars s') = Some p /\
    length (constructed (tr s')) = S (length (constructed (tr s))).
Proof.
  intros (sampled & a & bd & Hs & Ha & Hp & Hbd & Hf & ->).
  destruct (args_of_pinned_or_sampled cfg sampled a
              (State (Locals (Some ∅) (Some sampled) (the_protein (vars s)) (hps (vars s)))
                     (Trace (S (clock (tr s))) (logged_events (tr s))
                            (constructed (tr s)) (dispatched (tr s)))) Ha)
    as (Hff & Hwater & Hbox & Hargs).
  destruct s as [[ev sc pr hp] [ck lg cs ds]]; simpl in *.
  unfold Forward.attempt, try_finally, try_except, attempt_try, bind, now, set_event,
    modify, lift; simpl.
  rewrite Hs. unfold set_sampled_combination, ret, modify; simpl.
  rewrite Hff, Hwater, Hbox. unfold construct, bind, modify, lift; simpl.
  rewrite <- Hargs, Hp. unfold ret, set_protein, modify, getitem; simpl.
  rewrite Hbd. simpl. unfold set_hps, modify; simpl. rewrite Hf.
  unfold ret, attempt_finally, event_setitem, event_update, bind,
    read_local, set_event, modify, now, log_event; simpl.
  rewrite lookup_insert_ne by done. rewrite lookup_insert_ne by done.
  rewrite lookup_union_r by (by rewrite !lookup_insert_ne by done).
  rewrite lookup_insert_ne by done. rewrite lookup_empty. simpl.
  unfold break. eexists _, _, _. split; [reflexivity|]. simpl.
  split; [reflexivity|]. split; [reflexivity|]. split; [reflexivity|].
  split; [reflexivity|]. rewrite length_app. simpl. lia.
Qed.

(** An attempt that fails in preparation has called [Protein] once, has
    logged one event, marked as failed, and goes on to the next
    combination. *)
Lemma attempt_fails_builds r j pdb_id t0 (s : state) :
  fails_preparation r j ->
  exists s' e,
    attempt r j pdb_id t0 s = (s', Normal tt) /\
    logged_events (tr s') = logged_events (tr s) ++ [e] /\
    e !! "validator_search_status"%string = Some (PBool false) /\
    e !! "pdb_id"%string = Some (PStr pdb_id) /\
    dispatched (tr s') = dispatched (tr s) /\
    length (constructed (tr s')) = S (length (constructed (tr s))).
Proof.
  intros (sampled & a & p & exn_ & Hs & Ha & Hp & [bd Hbd] & Hf).
  destruct (args_of_pinned_or_sampled cfg sampled a
              (State (Locals (Some ∅) (Some sampled) (the_protein (vars s)) (hps (vars s)))
                     (Trace (S (clock (tr s))) (logged_events (tr s))
                            (constructed (tr s)) (dispatched (tr s)))) Ha)
    as (Hff & Hwater & Hbox & Hargs).
  destruct s as [[ev sc pr hp] [ck lg cs ds]]; simpl in *.
  unfold Forward.attempt, try_finally, try_except, attempt_try, bind, now, set_event,
    modify, lift; simpl.
  rewrite Hs. unfold set_sampled_combination, ret, modify; simpl.
  rewrite Hff, Hwater, Hbox. unfold construct, bind, modify, lift; simpl.
  rewrite <- Hargs, Hp. unfold ret, set_protein, modify, getitem; simpl.
  rewrite Hbd. simpl. unfold set_hps, modify; simpl. rewrite Hf.
  unfold raise, attempt_except, attempt_finally, event_setitem, event_update, bind,
    read_local, set_event, modify, now, log_event; simpl.
  rewrite lookup_insert_ne by done. rewrite lookup_insert_ne by done.
  rewrite lookup_union_r by (by rewrite !lookup_insert_ne by done).
  rewrite lookup_insert_ne by done. rewrite lookup_insert_eq. simpl.
  eexists _, _. split; [reflexivity|]. simpl. split; [reflexivity|].
  split; [|split; [|split; [reflexivity|]]].
  - rewrite !lookup_insert_ne by done.
    rewrite lookup_union_r by (by rewrite !lookup_insert_ne by done).
    rewrite lookup_insert_ne by done. by rewrite lookup_insert_eq.
  - rewrite !lookup_insert_ne by done.
    rewrite lookup_union_r by (by rewrite !lookup_insert_ne by done).
    by rewrite lookup_insert_eq.
  - rewrite length_app. simpl. lia.
Qed.

(** The [for] loop when the combinations before [j + k] fail in preparation
    and the combination [j + k] is prepared: one event per failure, and the
    loop is left at the first success. *)
Lemma for_loop_breaks r pdb_id t0 p h k : forall j n (s : state),
  (k < n)%nat ->
  (forall i, (i < k)%nat -> fails_preparation r (j + i)) ->
  prepares r (j + k) p h ->
  exists s' evs t1 t2,
    for_loop r j n pdb_id t0 s = (s', Normal tt) /\
    logged_events (tr s') = logged_events (tr s) ++ evs /\
    length evs = k /\
    Forall (fun e => e !! "validator_search_status"%string = Some (PBool false) /\
                     e !! "pdb_id"%string = Some (PStr pdb_id)) evs /\
    dispatched (tr s') = dispatched (tr s) /\
    event (vars s') = Some (search_event pdb_id h t1 t2) /\
    the_protein (vars s') = Some p /\
    length (constructed (tr s')) = (length (constructed (tr s)) + S k)%nat.
Proof.
  induction k as [|k IH]; intros j n s Hn Hfail Hprep.
  - destruct n as [|n]; [lia|]. rewrite Nat.add_0_r in Hprep.
    destruct (attempt_prepares r j pdb_id t0 s p h Hprep)
      as (s' & t1 & t2 & Ha & Hl & Hd & He & Hp & Hc).
    exists s', [], t1, t2. simpl. rewrite Ha, app_nil_r.
    split; [reflexivity|]. split; [exact Hl|]. split; [reflexivity|].
    split; [constructor|]. split; [exact Hd|]. split; [exact He|].
    split; [exact Hp | lia].
  - destruct n as [|n]; [lia|].
    assert (Hfail0 : fails_preparation r j).
    { specialize (Hfail 0%nat ltac:(lia)). by rewrite Nat.add_0_r in Hfail. }
    destruct (attempt_fails_builds r j pdb_id t0 s Hfail0)
      as (s1 & e & Ha & Hl & Hst & Hid & Hd & Hc).
    destruct (IH (S j) n s1)
      as (s' & evs & t1 & t2 & Hf & Hl' & Hlen & Hall & Hd' & He & Hp & Hc').
    { lia. }
    { intros i Hi. specialize (Hfail (S i) ltac:(lia)).
      by replace (S j + i)%nat with (j + S i)%nat by lia. }
    { by replace (S j + k)%nat with (j + S k)%nat by lia. }
    exists s', (e :: evs), t1, t2. simpl. rewrite Ha.
    split; [exact Hf|]. split; [by rewrite Hl', Hl, <- app_assoc|].
    split; [by rewrite Hlen|]. split; [by constructor|].
    split; [by rewrite Hd', Hd|]. split; [exact He|]. split; [exact Hp | lia].
Qed.

(** X14: a round whose search succeeds.  When the combinations before [j0]
    fail in preparation, the combination [j0] is prepared and [run_step]
    returns, the round logs one failed event per combination before [j0],
    tries no combination after [j0] (it has built [j0 + 1] proteins),
    queries the miners once, with the protein of [j0], and logs one more
    event: the event of the search
    (structure id of the round, hyperparameters of [j0], status [True])
    updated with the event of [run_step], whose entries take precedence,
    and with the final [forward_time].  The loop goes on with the next
    round. *)
Theorem forward_dispatches_first_prepared r (s : state) total j0 p h miner_event :
  total_combinations world r (parse_config cfg) = inr total ->
  (j0 < total)%nat ->
  (forall j, (j < j0)%nat -> fails_preparation r j) ->
  prepares r j0 p h ->
  run_step world r p = inr miner_event ->
  exists s' evs t1 t2 t3,
    round r s = (s', Normal tt) /\
    logged_events (tr s')
    = logged_events (tr s) ++ evs
      ++ [<["forward_time"%string := PFloat t3]>
            (miner_event ∪ search_event (choose_pdb_id world cfg r) h t1 t2)] /\
    length evs = j0 /\
    Forall (fun e => e !! "validator_search_status"%string = Some (PBool false) /\
                     e !! "pdb_id"%string = Some (PStr (choose_pdb_id world cfg r))) evs /\
    dispatched (tr s') = dispatched (tr s) ++ [p] /\
    length (constructed (tr s')) = (length (constructed (tr s)) + S j0)%nat /\
    (forall fuel, forward (S fuel) r s = forward fuel (S r) s').
Proof.
  intros Ht Hj0 Hfail Hprep Hrun.
  destruct (for_loop_breaks r (choose_pdb_id world cfg r)
              (time_time world (clock (tr s))) p h j0 0 total
              (State (vars s) (Trace (S (clock (tr s))) (logged_events (tr s))
                                     (constructed (tr s)) (dispatched (tr s)))))
    as (s1 & evs & t1 & t2 & Hf & Hl & Hlen & Hall & Hd & He & Hp & Hc);
    [exact Hj0 | exact Hfail | exact Hprep |].
  destruct s1 as [[ev1 sc1 pr1 hp1] [ck1 lg1 cs1 ds1]]. simpl in Hl, Hd, He, Hp, Hc. subst.
  assert (Hround : exists s' t3,
    round r s = (s', Normal tt) /\
    logged_events (tr s')
    = logged_events (tr s) ++ evs
      ++ [<["forward_time"%string := PFloat t3]>
            (miner_event ∪ search_event (choose_pdb_id world cfg r) h t1 t2)] /\
    dispatched (tr s') = dispatched (tr s) ++ [p] /\
    constructed (tr s') = cs1).
  { unfold Forward.round, bind, now, lift; simpl. rewrite Ht. unfold ret; simpl.
    rewrite Hf. unfold read_local; simpl. unfold getitem, search_event.
    rewrite lookup_insert_eq. simpl.
    unfold dispatch, bind, modify, lift; simpl. rewrite Hrun. unfold ret; simpl.
    unfold event_update, event_setitem, bind, read_local, set_event, modify, now,
      log_event; simpl.
    eexists _, _. split; [reflexivity|]. simpl.
    split; [by rewrite <- app_assoc|]. split; reflexivity. }
  destruct Hround as (s' & t3 & Hr & Hl' & Hd' & Hc').
  exists s', evs, t1, t2, t3. split; [exact Hr|]. split; [exact Hl'|].
  split; [reflexivity|]. split; [exact Hall|]. split; [exact Hd'|].
  split; [by rewrite Hc'|].
  intros fuel. simpl. by rewrite Hr.
Qed.

(** X15: an exception of [run_step] is not handled.  When the search of a
    round succeeds and [run_step] raises, the exception leaves [forward]:
    the miners were queried with the prepared protein, the failed
    combinations are logged, and the successful search is not. *)
Theorem forward_run_step_raises r (s : state) total j0 p h E :
  total_combinations world r (parse_config cfg) = inr total ->
  (j0 < total)%nat ->
  (forall j, (j < j0)%nat -> fails_preparation r j) ->
  prepares r j0 p h ->
  run_step world r p = inl E ->
  exists s' evs,
    (forall fuel, forward (S fuel) r s = (s', Raise E)) /\
    logged_events (tr s') = logged_events (tr s) ++ evs /\
    length evs = j0 /\
    Forall (fun e => e !! "validator_search_status"%string = Some (PBool false)) evs /\
    dispatched (tr s') = dispatched (tr s) ++ [p].
Proof.
  intros Ht Hj0 Hfail Hprep Hrun.
  destruct (for_loop_breaks r (choose_pdb_id world cfg r)
              (time_time world (clock (tr s))) p h j0 0 total
              (State (vars s) (Trace (S (clock (tr s))) (logged_events (tr s))
                                     (constructed (tr s)) (dispatched (tr s)))))
    as (s1 & evs & t1 & t2 & Hf & Hl & Hlen & Hall & Hd & He & Hp & _);
    [exact Hj0 | exact Hfail | exact Hprep |].
  destruct s1 as [[ev1 sc1 pr1 hp1] [ck1 lg1 cs1 ds1]]. simpl in Hl, Hd, He, Hp. subst.
  assert (Hround : exists s',
    round r s = (s', Raise E) /\
    logged_events (tr s') = logged_events (tr s) ++ evs /\
    dispatched (tr s') = dispatched (tr s) ++ [p]).
  { unfold Forward.round, bind, now, lift; simpl. rewrite Ht. unfold ret; simpl.
    rewrite Hf. unfold read_local; simpl. unfold getitem, search_event.
    rewrite lookup_insert_eq. simpl.
    unfold dispatch, bind, modify, lift; simpl. rewrite Hrun. unfold raise; simpl.
    eexists. split; [reflexivity|]. simpl. split; reflexivity. }
  destruct Hround as (s' & Hr & Hl' & Hd').
  exists s', evs. split; [|split; [exact Hl'|split; [reflexivity|split; [|exact Hd']]]].
  - intros fuel. simpl. by rewrite Hr.
  - eapply Forall_impl; [exact Hall|]. by intros e [He _].
Qed.

(** X16: a round without combinations.  The [for] loop has no iteration, so
    the statements after it read what an earlier round left in [event] and
    [protein].  When [event] was never bound, [UnboundLocalError] leaves
    [forward] and nothing has been logged or dispatched.  When the last
    event has the status [False], the round is skipped.  Otherwise the
    protein of the earlier round is dispatched again, and the earlier
    event, updated, is logged again. *)
Theorem forward_round_without_combination r (s : state) :
  total_combinations world r (parse_config cfg) = inr 0%nat ->
  (event (vars s) = None ->
   exists s', (forall fuel, forward (S fuel) r s = (s', Raise (UnboundLocalError "event"))) /\
              logged_events (tr s') = logged_events (tr s) /\
              constructed (tr s') = constructed (tr s) /\
              dispatched (tr s') = dispatched (tr s)) /\
  (forall e, event (vars s) = Some e ->
     e !! "validator_search_status"%string = Some (PBool false) ->
     exists s', round r s = (s', Continue) /\
                logged_events (tr s') = logged_events (tr s) /\
                dispatched (tr s') = dispatched (tr s)) /\
  (forall e v p m, event (vars s) = Some e ->
     e !! "validator_search_status"%string = Some v -> v <> PBool false ->
     the_protein (vars s) = Some p -> run_step world r p = inr m ->
     exists s' t3,
       round r s = (s', Normal tt) /\
       logged_events (tr s')
       = logged_events (tr s) ++ [<["forward_time"%string := PFloat t3]> (m ∪ e)] /\
       constructed (tr s') = constructed (tr s) /\
       dispatched (tr s') = dispatched (tr s) ++ [p]).
Proof.
  intros Ht. destruct s as [[ev sc pr hp] [ck lg cs ds]]; simpl.
  split; [|split].
  - intros ->. eexists. split.
    + intros fuel. simpl.
      unfold Forward.round, bind, now, lift; simpl. rewrite Ht. unfold ret; simpl.
      unfold read_local; simpl. reflexivity.
    + simpl. auto.
  - intros e -> Hst. eexists.
    unfold Forward.round, bind, now, lift; simpl. rewrite Ht. unfold ret; simpl.
    unfold read_local; simpl. unfold getitem. rewrite Hst. simpl.
    split; [reflexivity|]. simpl. auto.
  - intros e v p m -> Hst Hv -> Hrun.
    assert (Hgo : exists s' t3,
      (p0 <- read_local "protein" the_protein;;
       miner_event <- dispatch world r p0;;
       event_update miner_event;;
       t <- now world;;
       event_setitem "forward_time" (PFloat (fsub t (time_time world ck)));;
       e0 <- read_local "event" event;; log_event e0)%stmt
        (State (Locals (Some e) sc (Some p) hp) (Trace (S ck) lg cs ds))
      = (s', Normal tt) /\
      logged_events (tr s') = lg ++ [<["forward_time"%string := PFloat t3]> (m ∪ e)] /\
      constructed (tr s') = cs /\ dispatched (tr s') = ds ++ [p]).
    { unfold dispatch, bind, read_local, modify, lift; simpl. rewrite Hrun.
      unfold ret, event_update, event_setitem, bind, read_local, set_event, modify, now,
        log_event; simpl.
      eexists _, _. split; [reflexivity|]. simpl. auto. }
    destruct Hgo as (s' & t3 & Hgo & Hl & Hc & Hd). exists s', t3.
    split; [|auto].
    unfold Forward.round, bind, now, lift; simpl. rewrite Ht. unfold ret; simpl.
    unfold read_local at 1; simpl. unfold getitem. rewrite Hst. simpl.
    destruct v as [|[|]| | | |]; try exact Hgo. congruence.
Qed.

End Round.

(** *** Pinned hyperparameters *)

Section Pinned.
Variable world : env.
Variable cfg : config.

Abbreviation respects := (calls_only (respects_pinned cfg)).

(** The value of [x if x is not None else sampled_combination[key]] is [x]
    when [x] is set. *)
Lemma calls_bind_pinned {B} pinned sampled key (k : pyval -> stmt state B) :
  (forall a, (forall v, pinned = Some v -> a = v) -> respects (k a)) ->
  respects (bind (pinned_or_sampled pinned sampled key) k).
Proof.
  intros Hk s. unfold bind, pinned_or_sampled, getitem, lift, ret, raise.
  destruct pinned as [v|].
  - apply Hk. by intros ? [= ->].
  - destruct (sampled !! key) as [v|].
    + apply Hk. discriminate.
    + exists []. rewrite app_nil_r. split; [reflexivity | constructor].
Qed.

Lemma respects_attempt r j pdb_id t0 : respects (Forward.attempt world cfg r j pdb_id t0).
Proof.
  unfold Forward.attempt.
  apply calls_bind; [apply calls_now | intros t].
  apply calls_bind; [apply calls_set_event | intros _].
  apply calls_try_finally.
  - apply calls_try_except.
    + unfold attempt_try.
      apply calls_bind; [apply calls_lift | intros sampled].
      apply calls_bind; [by apply calls_none | intros _].
      apply calls_bind_pinned. intros a_ff Hff.
      apply calls_bind_pinned. intros a_water Hwater.
      apply calls_bind_pinned. intros a_box Hbox.
      apply calls_bind; [by apply calls_construct | intros p].
      apply calls_bind; [by apply calls_none | intros _].
      apply calls_bind; [apply calls_lift | intros bd].
      apply calls_bind; [by apply calls_none | intros _].
      destruct (protein_forward world r j p); by apply calls_none.
    + intros e. unfold attempt_except.
      apply calls_bind; [apply calls_read_local | intros _].
      apply calls_event_setitem.
  - unfold attempt_finally.
    apply calls_bind; [apply calls_event_setitem | intros _].
    apply calls_bind; [apply calls_read_local | intros h].
    apply calls_bind; [apply calls_event_update | intros _].
    apply calls_bind; [apply calls_now | intros t1].
    apply calls_bind; [apply calls_event_setitem | intros _].
    apply calls_bind; [apply calls_now | intros t2].
    apply calls_bind; [apply calls_event_setitem | intros _].
    apply calls_bind; [apply calls_read_local | intros e].
    destruct (e !! "validator_search_status"%string).
    + apply calls_log_event.
    + apply calls_bind; [apply calls_event_setitem | intros _]. by apply calls_none.
Qed.

Lemma respects_for_loop r pdb_id t0 n : forall j,
  respects (Forward.for_loop world cfg r j n pdb_id t0).
Proof.
  induction n as [|n IH]; intros j; simpl.
  - apply calls_ret.
  - intros s. destruct (respects_attempt r j pdb_id t0 s) as (l1 & E1 & F1).
    destruct (Forward.attempt world cfg r j pdb_id t0 s) as [s1 [[]| | |e]]; simpl in *; eauto.
    + destruct (IH (S j) s1) as (l2 & E2 & F2). exists (l1 ++ l2).
      rewrite E2, E1, <- app_assoc. split; [reflexivity | by apply Forall_app].
    + destruct (IH (S j) s1) as (l2 & E2 & F2). exists (l1 ++ l2).
      rewrite E2, E1, <- app_assoc. split; [reflexivity | by apply Forall_app].
Qed.

Lemma respects_round r : respects (Forward.round world cfg r).
Proof.
  unfold Forward.round.
  apply calls_bind; [apply calls_now | intros t].
  apply calls_bind; [apply calls_lift | intros total].
  apply calls_bind; [apply respects_for_loop | intros _].
  apply calls_bind; [apply calls_read_local | intros e].
  apply calls_bind; [apply calls_lift | intros status].
  assert (Hgo : respects
    (bind (read_local "protein" the_protein) (fun p =>
     bind (dispatch world r p) (fun miner_event =>
     bind (event_update miner_event) (fun _ =>
     bind (now world) (fun t1 =>
     bind (event_setitem "forward_time" (PFloat (fsub t1 t))) (fun _ =>
     bind (read_local "event" event) (fun e0 => log_event e0)))))))).
  { apply calls_bind; [apply calls_read_local | intros p].
    apply calls_bind; [apply calls_dispatch | intros miner_event].
    apply calls_bind; [apply calls_event_update | intros _].
    apply calls_bind; [apply calls_now | intros t1].
    apply calls_bind; [apply calls_event_setitem | intros _].
    apply calls_bind; [apply calls_read_local | intros e0].
    apply calls_log_event. }
  destruct status as [|[|]| | | |]; try exact Hgo. by apply calls_none.
Qed.

Lemma respects_forward fuel : forall r, respects (Forward.forward world cfg fuel r).
Proof.
  induction fuel as [|fuel IH]; intros r; simpl.
  - apply calls_ret.
  - intros s. destruct (respects_round r s) as (l1 & E1 & F1).
    destruct (Forward.round world cfg r s) as [s1 [[]| | |e]]; simpl in *; eauto.
    + destruct (IH (S r) s1) as (l2 & E2 & F2). exists (l1 ++ l2).
      rewrite E2, E1, <- app_assoc. split; [reflexivity | by apply Forall_app].
    + destruct (IH (S r) s1) as (l2 & E2 & F2). exists (l1 ++ l2).
      rewrite E2, E1, <- app_assoc. split; [reflexivity | by apply Forall_app].
Qed.

End Pinned.

(** X17: a hyperparameter that is set under [config.protein] always reaches
    the [Protein]: however the sampler and the other collaborators behave,
    and for as many rounds as [forward] runs, every [Protein] call has the
    pinned force field, water model and box as its [ff], [water] and [box]
    arguments.  What the sampler drew for a pinned option is not used. *)
Theorem forward_passes_pinned_options world cfg fuel :
  Forall (fun a =>
            (forall v, protein_ff cfg = Some v -> arg_ff a = v) /\
            (forall v, protein_water cfg = Some v -> arg_water a = v) /\
            (forall v, protein_box cfg = Some v -> arg_box a = v))
         (constructed (tr (fst (Forward.forward world cfg fuel 0 start)))).
Proof.
  destruct (respects_forward world cfg fuel 0%nat start) as (l & -> & Hl).
  exact Hl.
Qed.

Lemma forward_dispatches_first_prepared_witness :
  exists s' evs final,
    Forward.round second_chance unpinned 0 start = (s', Normal tt) /\
    logged_events (tr s') = evs ++ [final] /\
    length evs = 1%nat /\
    final !! "validator_search_status"%string = Some (PBool true) /\
    final !! "FF"%string = Some (PStr (str_of_string "charmm27")) /\
    length (dispatched (tr s')) = 1%nat.
Proof.
  destruct (forward_dispatches_first_prepared second_chance unpinned 0 start 2 1
              (built (ProteinArgs None (PStr (str_of_string "charmm27"))
                        (PStr (str_of_string "tip3p")) (PStr (str_of_string "cubic"))))
              (<["BOX_DISTANCE"%string := PFloat (seconds 0)]>
                 (<["BOX"%string := PStr (str_of_string "cubic")]>
                    (<["WATER"%string := PStr (str_of_string "tip3p")]>
                       (<["FF"%string := PStr (str_of_string "charmm27")]> ∅))))
              (<["uids"%string := PObject (str_of_string "[9, 10]")]> ∅))
    as (s' & evs & t1 & t2 & t3 & Hr & Hl & Hlen & _ & Hd & _ & _).
  - reflexivity.
  - lia.
  - intros j Hj. assert (j = 0%nat) as -> by lia.
    exists (sample_combination 0),
           (ProteinArgs None (PStr (str_of_string "amber03"))
                        (PStr (str_of_string "tip3p")) (PStr (str_of_string "cubic"))),
           (built (ProteinArgs None (PStr (str_of_string "amber03"))
                        (PStr (str_of_string "tip3p")) (PStr (str_of_string "cubic")))),
           (Raised "grompp failed").
    split; [reflexivity|]. split; [reflexivity|]. split; [reflexivity|].
    split; [by eexists | reflexivity].
  - exists (sample_combination 1),
           (ProteinArgs None (PStr (str_of_string "charmm27"))
                        (PStr (str_of_string "tip3p")) (PStr (str_of_string "cubic"))),
           (PFloat (seconds 0)).
    split; [reflexivity|]. split; [reflexivity|]. split; [reflexivity|].
    split; [reflexivity|]. split; reflexivity.
  - reflexivity.
  - eexists s', evs, _. split; [exact Hr|]. split; [exact Hl|]. split; [exact Hlen|].
    split; [|split].
    + vm_compute. reflexivity.
    + vm_compute. reflexivity.
    + by rewrite Hd.
Defined.

Lemma forward_run_step_raises_witness :
  exists s',
    Forward.forward unreachable_miners unpinned 1 0 start = (s', Raise (Raised "timeout")) /\
    logged_events (tr s') = [] /\
    length (dispatched (tr s')) = 1%nat.
Proof.
  destruct (forward_run_step_raises unreachable_miners unpinned 0 start 1 0
              (built (ProteinArgs None (PStr (str_of_string "amber03"))
                        (PStr (str_of_string "tip3p")) (PStr (str_of_string "cubic"))))
              (<["BOX_DISTANCE"%string := PFloat (seconds 0)]>
                 (<["BOX"%string := PStr (str_of_string "cubic")]>
                    (<["WATER"%string := PStr (str_of_string "tip3p")]>
                       (<["FF"%string := PStr (str_of_string "amber03")]> ∅))))
              (Raised "timeout"))
    as (s' & evs & Hf & Hl & Hlen & _ & Hd).
  - reflexivity.
  - lia.
  - intros j Hj. lia.
  - exists (sample_combination 0),
           (ProteinArgs None (PStr (str_of_string "amber03"))
                        (PStr (str_of_string "tip3p")) (PStr (str_of_string "cubic"))),
           (PFloat (seconds 0)).
    split; [reflexivity|]. split; [reflexivity|]. split; [reflexivity|].
    split; [reflexivity|]. split; reflexivity.
  - reflexivity.
  - exists s'. split; [apply Hf|].
    destruct evs; [|discriminate]. split; [exact Hl | by rewrite Hd].
Defined.

Lemma forward_round_without_combination_witness :
  exists s',
    Forward.forward no_combination unpinned 1 0 start
    = (s', Raise (UnboundLocalError "event")) /\
    logged_events (tr s') = [] /\ dispatched (tr s') = [].
Proof.
  destruct (proj1 (forward_round_without_combination no_combination unpinned 0 start
                     eq_refl) eq_refl) as (s' & Hf & Hl & _ & Hd).
  exists s'. split; [apply Hf|]. split; [exact Hl | exact Hd].
Defined.

(** *** The search once [hps] is bound *)

Section Bound.
Variable world : env.
Variable cfg : config.

(** What a block of the [try] statement keeps: it logs and dispatches
    nothing, it leaves [event] alone, and it binds locals without
    unbinding any; it ends normally or by an exception. *)
Abbreviation kept s s' :=
  (logged_events (tr s') = logged_events (tr s) /\
   dispatched (tr s') = dispatched (tr s) /\
   event (vars s') = event (vars s) /\
   (bound s -> bound s')).

Abbreviation keeps m :=
  (forall s : state,
     kept s (fst (m s)) /\
     match snd (m s) with Normal _ | Raise _ => True | _ => False end).

Lemma keeps_bind {A B} (m : stmt state A) (k : A -> stmt state B) :
  keeps m -> (forall a, keeps (k a)) -> keeps (bind m k).
Proof.
  intros Hm Hk s. unfold bind. destruct (Hm s) as [(L1 & D1 & E1 & B1) O1].
  destruct (m s) as [s1 [a| | |e]]; simpl in *; try done.
  destruct (Hk a s1) as [(L2 & D2 & E2 & B2) O2]. split; [|exact O2].
  split; [congruence|]. split; [congruence|]. split; [congruence | auto].
Qed.

Lemma keeps_lift {A} (r : result A) : keeps (@lift state A r).
Proof. intros s. by destruct r. Qed.

Lemma keeps_ret {A} (a : A) : keeps (@ret state A a).
Proof. by intros s. Qed.

Lemma keeps_raise {A} e : keeps (@raise state A e).
Proof. by intros s. Qed.

Lemma keeps_pinned_or_sampled pinned sampled key :
  keeps (pinned_or_sampled pinned sampled key).
Proof. destruct pinned; [apply keeps_ret | apply keeps_lift]. Qed.

Lemma keeps_set_sampled_combination c : keeps (set_sampled_combination c).
Proof.
  intros s. split; [|exact I]. simpl.
  split; [reflexivity|]. split; [reflexivity|]. split; [reflexivity|].
  intros [_ Hh]. split; [by eexists | exact Hh].
Qed.

Lemma keeps_set_protein p : keeps (set_protein p).
Proof. by intros s. Qed.

Lemma keeps_set_hps bd p :
  keeps (set_hps (<["BOX_DISTANCE"%string := bd]>
                    (<["BOX"%string := box p]> (<["WATER"%string := water p]>
                       (<["FF"%string := ff p]> ∅))))).
Proof.
  intros s. split; [|exact I]. simpl.
  split; [reflexivity|]. split; [reflexivity|]. split; [reflexivity|].
  intros [Hs _]. split; [exact Hs|]. eexists. split; [reflexivity|].
  rewrite !dom_insert_L, dom_empty_L. set_solver.
Qed.

Lemma keeps_construct r j a : keeps (construct world r j a).
Proof.
  intros s. unfold construct, bind, modify, lift; simpl.
  by destruct (new_protein world r j a).
Qed.

Lemma keeps_attempt_try r j : keeps (attempt_try world cfg r j).
Proof.
  unfold attempt_try.
  apply keeps_bind; [apply keeps_lift | intros sampled].
  apply keeps_bind; [apply keeps_set_sampled_combination | intros _].
  apply keeps_bind; [apply keeps_pinned_or_sampled | intros a_ff].
  apply keeps_bind; [apply keeps_pinned_or_sampled | intros a_water].
  apply keeps_bind; [apply keeps_pinned_or_sampled | intros a_box].
  apply keeps_bind; [apply keeps_construct | intros p].
  apply keeps_bind; [apply keeps_set_protein | intros _].
  apply keeps_bind; [apply keeps_lift | intros bd].
  apply keeps_bind; [apply keeps_set_hps | intros _].
  destruct (protein_forward world r j p); [apply keeps_raise | apply keeps_ret].
Qed.

Lemma hps_keys (h : gmap string pyval) :
  dom h = ({["FF"; "WATER"; "BOX"; "BOX_DISTANCE"]} : gset string)%string ->
  h !! "validator_search_status"%string = None /\ h !! "pdb_id"%string = None.
Proof.
  intros Hd. split; apply not_elem_of_dom; rewrite Hd; set_solver.
Qed.

(** One attempt from a state where the locals are bound: it is left by
    [break], with nothing logged; or it goes on to the next combination,
    with one event logged, which has the status [False] and the structure
    id.  It does not raise. *)
Lemma attempt_bound r j pdb_id t0 (s : state) :
  bound s ->
  exists s',
    bound s' /\ dispatched (tr s') = dispatched (tr s) /\
    ((Forward.attempt world cfg r j pdb_id t0 s = (s', Break) /\
      logged_events (tr s') = logged_events (tr s)) \/
     (Forward.attempt world cfg r j pdb_id t0 s = (s', Normal tt) /\
      exists e, logged_events (tr s') = logged_events (tr s) ++ [e] /\
                e !! "validator_search_status"%string = Some (PBool false) /\
                e !! "pdb_id"%string = Some (PStr pdb_id))).
Proof.
  intros Hb.
  set (s0 := State (Locals (Some ∅) (sampled_combination (vars s))
                           (the_protein (vars s)) (hps (vars s)))
                   (Trace (S (clock (tr s))) (logged_events (tr s))
                          (constructed (tr s)) (dispatched (tr s)))).
  assert (Hb0 : bound s0) by exact Hb.
  destruct (keeps_attempt_try r j s0) as [(L1 & D1 & E1 & B1) O1].
  specialize (B1 Hb0).
  unfold Forward.attempt, bind, now, set_event, modify. simpl. fold s0.
  unfold try_finally, try_except.
  destruct (attempt_try world cfg r j s0) as [s1 o1]. simpl in L1, D1, E1, B1, O1.
  destruct s1 as [[ev1 sc1 pr1 hp1] [ck1 lg1 cs1 ds1]]. simpl in *. subst ev1 lg1 ds1.
  destruct B1 as [[sc Hsc] (h & Hh & Hdom)]. simpl in Hsc, Hh. subst sc1 hp1.
  destruct (hps_keys h Hdom) as [Hst Hid].
  assert (Hb1 : forall e ck lg,
            bound (State (Locals e (Some sc) pr1 (Some h)) (Trace ck lg cs1 (dispatched (tr s))))).
  { intros. split; [by eexists | by exists h]. }
  destruct o1 as [[]| | |E]; try done.
  - (* the try block returned *)
    unfold attempt_finally, event_setitem, event_update, bind, read_local, set_event,
      modify, now, log_event; simpl.
    rewrite lookup_insert_ne by done. rewrite lookup_insert_ne by done.
    rewrite lookup_union_r by exact Hst.
    rewrite lookup_insert_ne by done. rewrite lookup_empty. simpl.
    eexists. split; [apply Hb1|]. split; [reflexivity|].
    left. split; reflexivity.
  - (* the try block raised *)
    unfold attempt_except, attempt_finally, event_setitem, event_update, bind,
      read_local, set_event, modify, now, log_event; simpl.
    rewrite lookup_insert_ne by done. rewrite lookup_insert_ne by done.
    rewrite lookup_union_r by exact Hst.
    rewrite lookup_insert_ne by done. rewrite lookup_insert_eq. simpl.
    eexists. split; [apply Hb1|]. split; [reflexivity|].
    right. split; [reflexivity|]. simpl. eexists. split; [reflexivity|]. split.
    + rewrite lookup_insert_ne by done. rewrite lookup_insert_ne by done.
      rewrite lookup_union_r by exact Hst.
      rewrite lookup_insert_ne by done. apply lookup_insert_eq.
    + rewrite lookup_insert_ne by done. rewrite lookup_insert_ne by done.
      rewrite lookup_union_r by exact Hid. apply lookup_insert_eq.
Qed.

(** X18: once [hps] is bound, the hyperparameter search does not raise.
    From a state in which an earlier attempt has bound
    [sampled_combination] and [hps], and whatever the sampler, the
    [Protein] constructor and [protein.forward()] do (return or raise),
    every attempt ends in one of two ways: by [break], or with exactly one
    event logged, which has [validator_search_status = False] and the
    structure id of the round.  So the [for] loop over any number of
    combinations ends without an exception, has logged at most one event
    per combination, all of them failures, and has queried no miner. *)
Theorem forward_search_never_raises_once_bound r pdb_id t0 n : forall j (s : state),
  bound s ->
  exists s' evs,
    Forward.for_loop world cfg r j n pdb_id t0 s = (s', Normal tt) /\
    bound s' /\
    logged_events (tr s') = logged_events (tr s) ++ evs /\
    (length evs <= n)%nat /\
    Forall (fun e => e !! "validator_search_status"%string = Some (PBool false) /\
                     e !! "pdb_id"%string = Some (PStr pdb_id)) evs /\
    dispatched (tr s') = dispatched (tr s).
Proof.
  induction n as [|n IH]; intros j s Hb; simpl.
  - exists s, []. rewrite app_nil_r. split; [reflexivity|]. split; [exact Hb|].
    split; [reflexivity|]. split; [simpl; lia|]. split; [constructor | reflexivity].
  - destruct (attempt_bound r j pdb_id t0 s Hb)
      as (s1 & Hb1 & Hd1 & [[Ha Hl] | (Ha & e & Hl & Hst & Hid)]); rewrite Ha.
    + exists s1, []. rewrite app_nil_r. split; [reflexivity|].
      split; [exact Hb1|]. split; [exact Hl|]. split; [simpl; lia|].
      split; [constructor | exact Hd1].
    + destruct (IH (S j) s1 Hb1) as (s' & evs & Hf & Hb' & Hl' & Hlen & Hall & Hd').
      exists s', (e :: evs). split; [exact Hf|]. split; [exact Hb'|].
      split; [by rewrite Hl', Hl, <- app_assoc|]. split; [simpl; lia|].
      split; [by constructor | congruence].
Qed.

End Bound.

Lemma forward_search_never_raises_once_bound_witness :
  exists s' (evs : list (gmap string pyval)),
    Forward.for_loop broken_second_protein unpinned 0 1 1 (str_of_string "1abc") (seconds 0)
      (fst (Forward.attempt broken_second_protein unpinned 0 0 (str_of_string "1abc")
              (seconds 0) start))
    = (s', Normal tt) /\
    length evs = 1%nat /\
    Forall (fun e => e !! "validator_search_status"%string = Some (PBool false)) evs.
Proof.
  destruct (forward_search_never_raises_once_bound broken_second_protein unpinned 0
              (str_of_string "1abc") (seconds 0) 1 1
              (fst (Forward.attempt broken_second_protein unpinned 0 0 (str_of_string "1abc")
                      (seconds 0) start)))
    as (s' & evs & Hf & _ & Hl & _ & Hall & _).
  - split; [by eexists|]. eexists. split; [reflexivity|].
    rewrite !dom_insert_L, dom_empty_L. set_solver.
  - exists s', evs. split; [exact Hf|]. split.
    + assert (Hlen : length (logged_events (tr s')) = 2%nat).
      { assert (E : s' = fst (Forward.for_loop broken_second_protein unpinned 0 1 1
                                (str_of_string "1abc") (seconds 0)
                                (fst (Forward.attempt broken_second_protein unpinned 0 0
                                        (str_of_string "1abc") (seconds 0) start))))
          by (by rewrite Hf).
        rewrite E. vm_compute. reflexivity. }
      rewrite Hl, length_app in Hlen.
      change (length (logged_events (tr (fst (Forward.attempt broken_second_protein unpinned
                0 0 (str_of_string "1abc") (seconds 0) start))))) with 1%nat in Hlen.
      lia.
    + eapply Forall_impl; [exact Hall|]. by intros e [He _].
Defined.

End SearchFacts.

(** ** [get_response_info] *)

Module ResponseFacts.
Import Py Responses.

(** The loop appends one entry per response to each list, as long as every
    response has a dictionary of files. *)
Lemma gather_spec responses : forall acc,
  Forall (fun resp => is_Some (md_output resp)) responses ->
  gather responses acc
  = inr (ResponseInfo
           (response_times acc ++ map time_of responses)
           (response_status_messages acc
              ++ map (fun resp => str_of_option id (status_message (dendrite resp))) responses)
           (response_status_codes acc
              ++ map (fun resp => str_of_option str_of_int (status_code (dendrite resp))) responses)
           (response_returned_files acc ++ map files_of responses)).
Proof.
  induction responses as [|resp rest IH]; intros acc Hall; simpl.
  - rewrite !app_nil_r. by destruct acc.
  - inversion Hall as [|? ? [d Hd] Hrest]; subst.
    rewrite Hd, IH by exact Hrest. simpl.
    unfold time_of at 2, files_of at 2. rewrite Hd.
    by rewrite <- !app_assoc.
Qed.

Lemma gather_raises good bad rest : forall acc,
  Forall (fun resp => is_Some (md_output resp)) good ->
  md_output bad = None ->
  gather (good ++ bad :: rest) acc
  = inl (Raised "AttributeError: 'NoneType' object has no attribute 'keys'").
Proof.
  induction good as [|resp good IH]; intros acc Hall Hbad; simpl.
  - by rewrite Hbad.
  - inversion Hall as [|? ? [d Hd] Hrest]; subst. rewrite Hd. by apply IH.
Qed.

Lemma get_response_info_returns responses :
  Forall (fun resp => is_Some (md_output resp)) responses ->
  exists info, get_response_info responses = inr info.
Proof.
  intros Hall. unfold get_response_info. rewrite gather_spec by exact Hall. eauto.
Qed.

(** X11: when every response has a dictionary of files,
    [get_response_info] returns four lists with one entry per response, in
    the order of the responses: the process time, or the integer 0 when it
    is [None]; [str()] of the status message and of the status code, so
    that [None] becomes the text None; and the names of the returned files
    in their order. *)
Theorem get_response_info_aligned responses :
  Forall (fun resp => is_Some (md_output resp)) responses ->
  exists info,
    get_response_info responses = inr info /\
    length (response_times info) = length responses /\
    length (response_status_messages info) = length responses /\
    length (response_status_codes info) = length responses /\
    length (response_returned_files info) = length responses /\
    forall i resp, responses !! i = Some resp ->
      response_times info !! i
      = Some (match process_time (dendrite resp) with
              | Some t => PFloat t
              | None => PInt 0
              end) /\
      response_status_messages info !! i
      = Some (match status_message (dendrite resp) with
              | Some m => m
              | None => str_of_string "None"
              end) /\
      response_status_codes info !! i
      = Some (match status_code (dendrite resp) with
              | Some c => str_of_int c
              | None => str_of_string "None"
              end) /\
      exists d, md_output resp = Some d /\
                response_returned_files info !! i = Some (map fst d).
Proof.
  intros Hall. unfold get_response_info. rewrite gather_spec by exact Hall.
  eexists. split; [reflexivity|]. simpl. rewrite !length_map.
  repeat (split; [reflexivity|]).
  intros i resp Hi. rewrite !list_lookup_fmap, Hi. simpl.
  split; [reflexivity|]. split; [by destruct (status_message (dendrite resp))|].
  split; [by destruct (status_code (dendrite resp))|].
  rewrite Forall_forall in Hall.
  destruct (Hall resp) as [d Hd]; [by eapply list_elem_of_lookup_2|].
  exists d. split; [exact Hd|]. unfold files_of. by rewrite Hd.
Qed.

Lemma get_response_info_aligned_witness :
  exists info,
    get_response_info [answered; timed_out] = inr info /\
    response_times info = [PFloat (S754_finite false 3 (-1)); PInt 0] /\
    response_status_codes info = [str_of_string "200"; str_of_string "408"] /\
    response_returned_files info
    = [[str_of_string "md_0_1.log"; str_of_string "md_0_1.edr"]; []].
Proof.
  destruct (get_response_info_aligned [answered; timed_out]) as (info & Hi & _).
  - repeat constructor; by eexists.
  - exists info. split; [exact Hi|].
    vm_compute in Hi. injection Hi as <-. vm_compute. repeat split.
Defined.

End ResponseFacts.

(** ** [run_step] *)

Module StepFacts.
Import Py Responses Step ResponseFacts.

Section Validator.
Variable axon : Type.
Variable self : neuron axon.

Abbreviation run_step := (Step.run_step axon self).
Abbreviation trace := (Step.trace axon).

Lemma axon_at_spec uid (t : trace) :
  0 <= uid ->
  axon_at axon self uid t
  = (t, match axons axon self !! Z.to_nat uid with
        | Some a => Normal a
        | None => Raise IndexError
        end).
Proof.
  intros Hu. unfold axon_at.
  rewrite (proj2 (Z.ltb_ge uid 0) Hu). rewrite (proj2 (Z.ltb_ge uid 0) Hu).
  by destruct (axons axon self !! Z.to_nat uid).
Qed.

(** X19: the step queries the axons number 9 and number 10 of the
    metagraph, whatever [k] and [exclude] are.  On a metagraph with fewer
    than eleven axons it raises [IndexError] before anything is sent and
    before any score is updated. *)
Theorem run_step_needs_eleven_axons p k timeout exclude (t : trace) :
  (length (axons axon self) < 11)%nat ->
  exists t',
    run_step p k timeout exclude t = (t', Raise IndexError) /\
    queries axon t' = queries axon t /\
    score_updates axon t' = score_updates axon t.
Proof.
  intros Hlen. unfold Step.run_step, bind, now. cbn [axons_of]. unfold bind.
  rewrite axon_at_spec by lia. rewrite axon_at_spec by lia.
  destruct (axons axon self !! Z.to_nat 9) as [a9|] eqn:H9.
  - destruct (axons axon self !! Z.to_nat 10) as [a10|] eqn:H10.
    + apply lookup_lt_Some in H10. exfalso. change (Z.to_nat 10) with 10%nat in H10. lia.
    + eexists. split; [reflexivity|]. split; reflexivity.
  - eexists. split; [reflexivity|]. split; reflexivity.
Qed.

(** X20: a step that goes through.  With at least eleven axons, a network
    call that returns, a first reward event, a score update that returns
    and responses that all carry a dictionary of files, the step sends one
    query, to the axons 9 and 10, with the structure id and the inputs of
    the protein and with the given timeout; it updates the scores once,
    with the rewards and the uids of the first reward event; and in the
    event it returns an entry of [asdict()] replaces the entry of the
    response information, and both replace [block], [step_length] and
    [uids]. *)
Theorem run_step_event p k timeout exclude (t : trace)
    a9 a10 responses first others fields :
  axons axon self !! 9%nat = Some a9 ->
  axons axon self !! 10%nat = Some a10 ->
  dendrite_call axon self [a9; a10] (Request (pdb_id p) (md_inputs p)) timeout
  = inr responses ->
  get_rewards axon self p responses [9; 10] = inr (first :: others) ->
  update_scores axon self (map snd (rewards first)) (map fst (rewards first)) = None ->
  Forall (fun resp => is_Some (md_output resp)) responses ->
  asdict first = inr fields ->
  exists t' event info,
    run_step p k timeout exclude t = (t', Normal event) /\
    queries axon t'
    = queries axon t ++ [([a9; a10], Request (pdb_id p) (md_inputs p), timeout)] /\
    score_updates axon t'
    = score_updates axon t ++ [(map snd (rewards first), map fst (rewards first))] /\
    get_response_info responses = inr info /\
    (forall key v, fields !! key = Some v -> event !! key = Some v) /\
    (forall key, fields !! key = None ->
       event !! key
       = (info_dict info ∪
            (<["uids"%string := FUids [9; 10]]>
               (<["step_length"%string :=
                    FVal (PFloat (fsub (time_time axon self (S (clock axon t)))
                                       (time_time axon self (clock axon t))))]>
                  (<["block"%string := FVal (block axon self)]> ∅)))) !! key).
Proof.
  intros H9 H10 Hcall Hrew Hupd Hall Hdict.
  destruct (get_response_info_returns responses Hall) as (info & Hinfo).
  unfold Step.run_step, bind, now, query, scores, modify, lift, ret, raise.
  cbn [axons_of]. unfold bind, ret.
  rewrite !axon_at_spec by lia.
  change (Z.to_nat 9) with 9%nat. change (Z.to_nat 10) with 10%nat.
  rewrite H9, H10. simpl. rewrite Hcall. simpl. rewrite Hrew. simpl.
  rewrite Hupd. simpl. rewrite Hinfo. simpl. rewrite Hdict. simpl.
  eexists _, _, info. split; [reflexivity|]. cbn [queries clock score_updates].
  split; [reflexivity|]. split; [reflexivity|]. split; [reflexivity|].
  unfold event_of. split.
  - intros key v Hk. by apply lookup_union_Some_l.
  - intros key Hk. by rewrite lookup_union_r.
Qed.

(** X21: the scores are updated before the response information is
    gathered.  When a response has no dictionary of files ([md_output] is
    [None]), the [AttributeError] of [get_response_info] leaves the step
    after the scores have been updated: no event is returned. *)
Theorem run_step_scores_before_info p k timeout exclude (t : trace)
    a9 a10 good bad rest first others :
  axons axon self !! 9%nat = Some a9 ->
  axons axon self !! 10%nat = Some a10 ->
  dendrite_call axon self [a9; a10] (Request (pdb_id p) (md_inputs p)) timeout
  = inr (good ++ bad :: rest) ->
  get_rewards axon self p (good ++ bad :: rest) [9; 10] = inr (first :: others) ->
  update_scores axon self (map snd (rewards first)) (map fst (rewards first)) = None ->
  Forall (fun resp => is_Some (md_output resp)) good ->
  md_output bad = None ->
  exists t',
    run_step p k timeout exclude t
    = (t', Raise (Raised "AttributeError: 'NoneType' object has no attribute 'keys'")) /\
    score_updates axon t'
    = score_updates axon t ++ [(map snd (rewards first), map fst (rewards first))].
Proof.
  intros H9 H10 Hcall Hrew Hupd Hgood Hbad.
  assert (Hinfo : get_response_info (good ++ bad :: rest)
                 = inl (Raised "AttributeError: 'NoneType' object has no attribute 'keys'"))
    by (by apply gather_raises).
  unfold Step.run_step, bind, now, query, scores, modify, lift, ret, raise.
  cbn [axons_of]. unfold bind, ret.
  rewrite !axon_at_spec by lia.
  change (Z.to_nat 9) with 9%nat. change (Z.to_nat 10) with 10%nat.
  rewrite H9, H10. simpl. rewrite Hcall. simpl. rewrite Hrew. simpl.
  rewrite Hupd. simpl. rewrite Hinfo. simpl.
  eexists. split; reflexivity.
Qed.

End Validator.

Lemma run_step_needs_eleven_axons_witness :
  exists t',
    Step.run_step nat (sample_neuron 10 [answered; timed_out]) sample_protein 2
                  (S754_finite false 45 0) [] (start nat)
    = (t', Raise IndexError) /\
    queries nat t' = [] /\ score_updates nat t' = [].
Proof.
  apply (run_step_needs_eleven_axons nat (sample_neuron 10 [answered; timed_out])
           sample_protein 2 (S754_finite false 45 0) [] (start nat)).
  simpl. lia.
Defined.

Lemma run_step_event_witness :
  exists t' event,
    Step.run_step nat (sample_neuron 12 [answered; timed_out]) sample_protein 2
                  (S754_finite false 45 0) [] (start nat)
    = (t', Normal event) /\
    map (fun q => fst (fst q)) (queries nat t') = [[9%nat; 10%nat]] /\
    score_updates nat t' = [([one; one], [9; 10])] /\
    event !! "uids"%string = Some (FUids [9; 10]) /\
    event !! "block"%string = Some (FVal (PInt 4242)).
Proof.
  destruct (run_step_event nat (sample_neuron 12 [answered; timed_out]) sample_protein 2
              (S754_finite false 45 0) [] (start nat) 9%nat 10%nat
              [answered; timed_out]
              (RewardEvent [(9, one); (10, one)] (inr (<["uids"%string := FUids [9; 10]]> ∅)))
              [] (<["uids"%string := FUids [9; 10]]> ∅))
    as (t' & event & info & Hr & Hq & Hs & _ & Hfields & Hrest);
    try reflexivity.
  - repeat constructor; by eexists.
  - exists t', event. split; [exact Hr|]. split; [by rewrite Hq|]. split; [by rewrite Hs|].
    split.
    + apply Hfields. reflexivity.
    + rewrite Hrest by reflexivity.
      rewrite lookup_union_r by reflexivity. reflexivity.
Defined.

Lemma run_step_scores_before_info_witness :
  exists t',
    Step.run_step nat (sample_neuron 12 [answered; unanswered]) sample_protein 2
                  (S754_finite false 45 0) [] (start nat)
    = (t', Raise (Raised "AttributeError: 'NoneType' object has no attribute 'keys'")) /\
    score_updates nat t' = [([one; one], [9; 10])].
Proof.
  apply (run_step_scores_before_info nat (sample_neuron 12 [answered; unanswered])
           sample_protein 2 (S754_finite false 45 0) [] (start nat) 9%nat 10%nat
           [answered] unanswered []
           (RewardEvent [(9, one); (10, one)] (inr (<["uids"%string := FUids [9; 10]]> ∅)))
           []); try reflexivity.
  repeat constructor; by eexists.
Defined.

End StepFacts.
